(** * NeuralMetrics dashboard: the metrics pipeline

    A shallow embedding of the data layer of the dashboard:
    - [src/lib/utils.ts]           ([calculateChange], [getDateRangeFromTimeRange],
                                    [formatNumber], [formatPercentage], [clamp],
                                    [lerp], [mapRange], [range], [shuffle],
                                    [randomElement], [average],
                                    [standardDeviation], [debounce], [throttle])
    - [src/lib/data-generator.ts]  ([generateMetricPoint], [generateMetrics],
                                    [generateNewMetric], [calculateSummary],
                                    [generateMetricCards])
    - [src/app/api/metrics/route.ts], the history endpoint and the SSE endpoint
    - the [useMetrics] hook (stream consumer) and the constants [SSE_CONFIG],
      [DATA_GENERATION] and [TIME_RANGES].

    JavaScript numbers are IEEE 754 binary64 values.  They are modelled by
    [spec_float] with the operations of [SpecFloat] at precision 53 and
    maximal exponent 1024, so that [NaN], the infinities, signed zeros and
    rounding behave as they do in the program. *)

From Stdlib Require Import ZArith List Bool Lia String Ascii SpecFloat.
From Stdlib Require Import DecimalString Permutation.
Import ListNotations.
Open Scope Z_scope.

(* ================================================================== *)
(** * JavaScript numbers *)
(* ================================================================== *)

Module JS.

Definition prec : Z := 53.
Definition emax : Z := 1024.

Definition number := spec_float.

Definition NaN : number := S754_nan.
Definition Infinity : number := S754_infinity false.
Definition pzero : number := S754_zero false.
Definition nzero : number := S754_zero true.

(** Arithmetic operators [+], [-], [*], [/] and unary minus. *)
Definition add : number -> number -> number := SFadd prec emax.
Definition sub : number -> number -> number := SFsub prec emax.
Definition mul : number -> number -> number := SFmul prec emax.
Definition div : number -> number -> number := SFdiv prec emax.
Definition neg : number -> number := SFopp.

(** An integer as a number (exact below 2^53, rounded to nearest above). *)
Definition ofZ (z : Z) : number := binary_normalize prec emax z 0 false.
Definition ofNat (n : nat) : number := ofZ (Z.of_nat n).

(** The double nearest to the rational [n / d]; this is what a decimal
    literal, or [Number] applied to a decimal string, denotes. *)
Definition ratio (n d : positive) : number :=
  let '(mz, ez, lz) := SFdiv_core_binary prec emax (Zpos n) 0 (Zpos d) 0 in
  binary_round_aux prec emax false mz ez lz.

(** [dec n k] is the decimal literal [n * 10^-k]. *)
Definition dec (n : positive) (k : nat) : number :=
  ratio n (Pos.pow 10 (Pos.of_nat k)).

(** ** Comparison by denoted value *)

(** The value of a number that is not [NaN]: an infinity, or the dyadic
    rational [M * 2^e]. *)
Inductive xval :=
| XNaN
| XInf (s : bool)
| XFin (M : Z) (e : Z).

Definition val (x : number) : xval :=
  match x with
  | S754_nan => XNaN
  | S754_infinity s => XInf s
  | S754_zero _ => XFin 0 0
  | S754_finite s m e => XFin (cond_Zopp s (Zpos m)) e
  end.

(** Comparison of two dyadic rationals, after alignment on the smaller
    exponent. *)
Definition dy_compare (M1 e1 M2 e2 : Z) : comparison :=
  let e := Z.min e1 e2 in
  Z.compare (M1 * 2 ^ (e1 - e)) (M2 * 2 ^ (e2 - e)).

Definition compare (x y : number) : option comparison :=
  match val x, val y with
  | XNaN, _ | _, XNaN => None
  | XInf s1, XInf s2 =>
      Some (match s1, s2 with
            | true, false => Lt
            | false, true => Gt
            | _, _ => Eq
            end)
  | XInf s, XFin _ _ => Some (if s then Lt else Gt)
  | XFin _ _, XInf s => Some (if s then Gt else Lt)
  | XFin M1 e1, XFin M2 e2 => Some (dy_compare M1 e1 M2 e2)
  end.

(** The relational operators [===], [<], [<=], [>], [>=]: all are false
    as soon as one operand is [NaN]. *)
Definition eqb (x y : number) : bool :=
  match compare x y with Some Eq => true | _ => false end.
Definition ltb (x y : number) : bool :=
  match compare x y with Some Lt => true | _ => false end.
Definition leb (x y : number) : bool :=
  match compare x y with Some (Lt | Eq) => true | _ => false end.
Definition gtb (x y : number) : bool := ltb y x.
Definition geb (x y : number) : bool := leb y x.

Definition isNaN (x : number) : bool :=
  match x with S754_nan => true | _ => false end.

Definition isFinite (x : number) : bool :=
  match x with
  | S754_zero _ | S754_finite _ _ _ => true
  | _ => false
  end.

(** ** The [Math] functions that the pipeline computes with *)

(** [Math.max] and [Math.min] of two arguments: [NaN] if one of them is,
    and [+0] is larger than [-0]. *)
Definition Math_max (x y : number) : number :=
  match compare x y with
  | None => NaN
  | Some Lt => y
  | Some Gt => x
  | Some Eq => match x with S754_zero true => y | _ => x end
  end.

Definition Math_min (x y : number) : number :=
  match compare x y with
  | None => NaN
  | Some Lt => x
  | Some Gt => y
  | Some Eq => match y with S754_zero true => y | _ => x end
  end.

(** [Math.floor]: a number with a non-negative exponent is an integer. *)
Definition Math_floor (x : number) : number :=
  match x with
  | S754_finite s m e =>
      if 0 <=? e then x
      else
        let z := Z.shiftr (cond_Zopp s (Zpos m)) (- e) in
        if z =? 0 then S754_zero s else ofZ z
  | _ => x
  end.

(** [Math.round]: [floor (x + 1/2)], computed exactly; a result of zero
    keeps the sign of the argument. *)
Definition Math_round (x : number) : number :=
  match x with
  | S754_finite s m e =>
      if 0 <=? e then x
      else
        let z := (2 * cond_Zopp s (Zpos m) + 2 ^ (- e)) / 2 ^ (- e + 1) in
        if z =? 0 then S754_zero s else ofZ z
  | _ => x
  end.

(** [Number (x.toFixed 2)]: [toFixed] picks the integer [n] with [n / 100]
    nearest to [|x|] (the larger one on a tie), prints it with two decimals
    and the sign of [x]; [Number] reads the string back as the nearest
    double.  An integral [x] is printed exactly and read back unchanged. *)
Definition toFixed2 (x : number) : number :=
  match x with
  | S754_finite s m e =>
      if 0 <=? e then x
      else
        let n := (200 * Zpos m + 2 ^ (- e)) / 2 ^ (- e + 1) in
        match n with
        | Zpos p => (if s then neg else fun y => y) (ratio p 100)
        | _ => S754_zero s
        end
  | _ => x
  end.

(** An array index or length held in a number, read back as an integer
    (the ToIntegerOrInfinity of array methods, on finite input). *)
Definition toInteger (x : number) : Z :=
  match x with
  | S754_finite s m e =>
      let M := cond_Zopp s (Zpos m) in
      if 0 <=? e then M * 2 ^ e else Z.quot M (2 ^ (- e))
  | _ => 0
  end.

End JS.

Declare Scope js_scope.
Delimit Scope js_scope with js.
Infix "+" := JS.add : js_scope.
Infix "-" := JS.sub : js_scope.
Infix "*" := JS.mul : js_scope.
Infix "/" := JS.div : js_scope.
Notation "x === y" := (JS.eqb x y) (at level 70, no associativity) : js_scope.
Notation "x >? y" := (JS.gtb x y) : js_scope.
Notation "x >=? y" := (JS.geb x y) : js_scope.
Notation "x <=? y" := (JS.leb x y) : js_scope.
Notation "x <? y" := (JS.ltb x y) : js_scope.

(** Number literals used by the program. *)
Definition n0 : JS.number := JS.pzero.
Definition n1 : JS.number := Eval vm_compute in JS.ofZ 1.
Definition n100 : JS.number := Eval vm_compute in JS.ofZ 100.
Definition n2 : JS.number := Eval vm_compute in JS.ofZ 2.
Definition n4 : JS.number := Eval vm_compute in JS.ofZ 4.
Definition n5 : JS.number := Eval vm_compute in JS.ofZ 5.
Definition n12 : JS.number := Eval vm_compute in JS.ofZ 12.
Definition n30 : JS.number := Eval vm_compute in JS.ofZ 30.
Definition n40 : JS.number := Eval vm_compute in JS.ofZ 40.
Definition n90 : JS.number := Eval vm_compute in JS.ofZ 90.
Definition n0_1 : JS.number := Eval vm_compute in JS.dec 1 1.
Definition n0_2 : JS.number := Eval vm_compute in JS.dec 2 1.
Definition n0_5 : JS.number := Eval vm_compute in JS.dec 5 1.
(** [Math.PI], the double nearest to pi. *)
Definition Math_PI : JS.number := S754_finite false 7074237752028440 (-51).


(* ================================================================== *)
(** * Arrays *)
(* ================================================================== *)

Module JSArray.

(** [arr.length] as a number. *)
Definition length {A} (arr : list A) : JS.number := JS.ofNat (List.length arr).

(** [arr.reduce (f, init)]. *)
Definition reduce {A B} (f : B -> A -> B) (init : B) (arr : list A) : B :=
  fold_left f arr init.

(** The clamping of a relative index of [Array.prototype.slice]: a negative
    index counts from the end, and [-0] is [0]. *)
Definition relIndex (x : JS.number) (len : Z) : Z :=
  match x with
  | S754_nan => 0
  | S754_infinity s => if s then 0 else len
  | _ =>
      let r := JS.toInteger x in
      if r <? 0 then Z.max (len + r) 0 else Z.min r len
  end.

(** [arr.slice (start, end)]; [end] is optional. *)
Definition slice {A} (arr : list A) (start : JS.number)
    (end_ : option JS.number) : list A :=
  let len := Z.of_nat (List.length arr) in
  let k := relIndex start len in
  let final := match end_ with None => len | Some e => relIndex e len end in
  firstn (Z.to_nat (Z.max (final - k) 0)) (skipn (Z.to_nat k) arr).

End JSArray.

(* ================================================================== *)
(** * Data model ([src/types/index.ts]) *)
(* ================================================================== *)

(** A date is its epoch time in milliseconds. *)
Definition Date := Z.

(** [generateId] builds the identifier from the clock and one random draw. *)
Definition Id := (Date * JS.number)%type.

Record Metric := mkMetric {
  id : Id;
  timestamp : Date;
  revenue : JS.number;
  activeUsers : JS.number;
  engagementRate : JS.number
}.

Record Summary := mkSummary {
  totalRevenue : JS.number;
  totalUsers : JS.number;
  avgEngagement : JS.number;
  revenueChange : JS.number;
  usersChange : JS.number;
  engagementChange : JS.number
}.

(** [TimeRange] is a string literal type: at run time, a string. *)
Definition TimeRange := string.

(** [ConnectionStatus] and [LoadingState]. *)
Module Status.
Inductive t := connected | disconnected | reconnecting | error.
End Status.

Module Loading.
Inductive t := idle | loading | success | error.
End Loading.

(** [SSEMessage]: a union tagged by its [type] field, with the emission
    time. *)
Inductive SSEMessage :=
| MsgMetric (data : Metric) (emitted : Date)
| MsgConnection (status : string) (emitted : Date)
| MsgError (message : string) (emitted : Date).

(* ================================================================== *)
(** * [src/lib/utils.ts] *)
(* ================================================================== *)

Module Utils.

Local Open Scope js_scope.

(** [calculateChange (oldValue, newValue)]. *)
Definition calculateChange (oldValue newValue : JS.number) : JS.number :=
  if oldValue === n0 then (if newValue >? n0 then n100 else n0)
  else ((newValue - oldValue) / oldValue) * n100.

End Utils.

(* ================================================================== *)
(** * Statistics engine ([calculateSummary] of [src/lib/data-generator.ts]) *)
(* ================================================================== *)

Module Stats.

Local Open Scope js_scope.
Import JSArray.

Definition sumBy (f : Metric -> JS.number) (arr : list Metric) : JS.number :=
  reduce (fun sum m => sum + f m) n0 arr.

(** [Math.floor (metrics.length * 0.2)]. *)
Definition splitIndex (metrics : list Metric) : JS.number :=
  JS.Math_floor (length metrics * n0_2).

(** [metrics.slice (0, splitIndex)]. *)
Definition firstSegment (metrics : list Metric) : list Metric :=
  slice metrics n0 (Some (splitIndex metrics)).

(** [metrics.slice (-splitIndex)]. *)
Definition lastSegment (metrics : list Metric) : list Metric :=
  slice metrics (JS.neg (splitIndex metrics)) None.

(** The average of one field over a segment, [reduce (...) / segment.length]. *)
Definition avgBy (f : Metric -> JS.number) (segment : list Metric) : JS.number :=
  sumBy f segment / length segment.

(** The percentage change between the two segment averages. *)
Definition changeBy (f : Metric -> JS.number) (metrics : list Metric) : JS.number :=
  let avgFirst := avgBy f (firstSegment metrics) in
  let avgLast := avgBy f (lastSegment metrics) in
  ((avgLast - avgFirst) / avgFirst) * n100.

Definition zeroSummary : Summary := mkSummary n0 n0 n0 n0 n0 n0.

(** [calculateSummary].  [None] stands for the [TypeError] that reading a
    field of [metrics[metrics.length - 1]] raises when that element is
    [undefined]. *)
Definition calculateSummary (metrics : list Metric) : option Summary :=
  if (List.length metrics =? 0)%nat then Some zeroSummary
  else
    let totalRevenue := reduce (fun sum m => sum + revenue m) n0 metrics in
    match nth_error metrics (List.length metrics - 1) with
    | None => None
    | Some lastMetric =>
        let totalUsers := activeUsers lastMetric in
        let avgEngagement :=
          reduce (fun sum m => sum + engagementRate m) n0 metrics
          / length metrics in
        Some {| totalRevenue := totalRevenue;
                totalUsers := totalUsers;
                avgEngagement := avgEngagement;
                revenueChange := changeBy revenue metrics;
                usersChange := changeBy activeUsers metrics;
                engagementChange := changeBy engagementRate metrics |}
    end.

End Stats.


(* ================================================================== *)
(** * The host: date-fns, [Math] and the random source *)
(* ================================================================== *)

(** What the pipeline takes from its platform.  The calendar functions of
    date-fns depend on the time zone of the process; [Math.sin] and
    [Math.pow] are implementation-approximated; [random_source k] is the
    value of the [k]-th call of [Math.random] of the process. *)
Class Host := {
  startOfDay : Date -> Date;
  endOfDay : Date -> Date;
  subDays : Date -> Z -> Date;
  isWeekend : Date -> bool;
  getMonth : Date -> Z;
  Math_sin : JS.number -> JS.number;
  Math_pow : JS.number -> JS.number -> JS.number;
  random_source : nat -> JS.number
}.

(** [addHours] of date-fns adds the hours as milliseconds. *)
Definition MILLISECONDS_IN_HOUR : Z := 3600000.
Definition addHours (d : Date) (amount : Z) : Date :=
  d + amount * MILLISECONDS_IN_HOUR.

(** ** Ambient state: the clock and the position in the random source *)

Record World := mkWorld {
  draws : nat;
  time : Date
}.

Definition IO (A : Type) : Type := World -> A * World.

Definition ret {A} (a : A) : IO A := fun w => (a, w).
Definition bind {A B} (c : IO A) (k : A -> IO B) : IO B :=
  fun w => let '(a, w') := c w in k a w'.

Declare Scope io_scope.
Delimit Scope io_scope with io.
Notation "x <- c ;; k" := (bind c (fun x => k))
  (at level 61, c at next level, right associativity) : io_scope.

(** [Math.random ()]. *)
Definition Math_random `{Host} : IO JS.number :=
  fun w => (random_source (draws w), mkWorld (S (draws w)) (time w)).

(** [new Date ()] and [Date.now ()]. *)
Definition Date_now : IO Date := fun w => (time w, w).

(* ================================================================== *)
(** * [src/lib/constants.ts] *)
(* ================================================================== *)

Module SSE_CONFIG.
Definition reconnectInterval : Z := 3000.
Definition maxReconnectAttempts : nat := 5.
Definition heartbeatInterval : Z := 30000.
Definition updateInterval : Z := 5000.
End SSE_CONFIG.

Module DATA_GENERATION.
Definition baseRevenue : JS.number := Eval vm_compute in JS.ofZ 50000.
Definition revenueGrowth : JS.number := Eval vm_compute in JS.dec 15 2.
Definition revenueVolatility : JS.number := Eval vm_compute in JS.dec 1 1.
Definition baseUsers : JS.number := Eval vm_compute in JS.ofZ 10000.
Definition usersGrowth : JS.number := Eval vm_compute in JS.dec 2 1.
Definition usersVolatility : JS.number := Eval vm_compute in JS.dec 15 2.
Definition baseEngagement : JS.number := Eval vm_compute in JS.ofZ 65.
Definition engagementVolatility : JS.number := Eval vm_compute in JS.dec 5 2.
Definition weekendBoost : JS.number := Eval vm_compute in JS.dec 12 1.
Definition seasonalAmplitude : JS.number := Eval vm_compute in JS.dec 3 1.
End DATA_GENERATION.

Module ERROR_MESSAGES.
Definition FETCH_FAILED : string := "Failed to fetch data. Please try again.".
Definition NETWORK_ERROR : string := "Network error. Check your connection.".
Definition STREAM_DISCONNECTED : string :=
  "Real-time connection lost. Reconnecting...".
Definition UNKNOWN_ERROR : string := "An unexpected error occurred.".
End ERROR_MESSAGES.

(* ================================================================== *)
(** * Generator ([src/lib/data-generator.ts], [src/lib/utils.ts]) *)
(* ================================================================== *)

Module Generator.

Local Open Scope js_scope.
Local Open Scope io_scope.

Section WithHost.
Context `{Host}.

(** [generateId]. *)
Definition generateId : IO Id :=
  t <- Date_now ;;
  r <- Math_random ;;
  ret (t, r).

(** [getDateRangeFromTimeRange]: the pair [(from, to)]. *)
Definition getDateRangeFromTimeRange (timeRange : TimeRange) : IO (Date * Date) :=
  now <- Date_now ;;
  let end_ := endOfDay now in
  let start :=
    if String.eqb timeRange "24h" then startOfDay (subDays end_ 1)
    else if String.eqb timeRange "7d" then startOfDay (subDays end_ 7)
    else if String.eqb timeRange "30d" then startOfDay (subDays end_ 30)
    else if String.eqb timeRange "90d" then startOfDay (subDays end_ 90)
    else if String.eqb timeRange "1y" then startOfDay (subDays end_ 365)
    else if String.eqb timeRange "all" then startOfDay (subDays end_ 730)
    else startOfDay (subDays end_ 30) in
  ret (start, end_).

(** The jitter [1 + (Math.random () - 0.5) * 2 * magnitude]. *)
Definition volatility (magnitude : JS.number) : IO JS.number :=
  r <- Math_random ;;
  ret (n1 + (r - n0_5) * n2 * magnitude).

(** [generateMetricPoint (baseDate, index, totalPoints)]. *)
Definition generateMetricPoint (baseDate : Date) (index totalPoints : nat)
  : IO Metric :=
  let date := baseDate in
  let dayProgress := JS.ofNat index / JS.ofNat totalPoints in
  let isWeekendDay := isWeekend date in
  let month := JS.ofZ (getMonth date) in
  let seasonalFactor :=
    n1 + Math_sin (((month - n5) / n12) * Math_PI * n2)
         * DATA_GENERATION.seasonalAmplitude in
  let weekendFactor :=
    if isWeekendDay then DATA_GENERATION.weekendBoost else n1 in
  let growthFactor :=
    Math_pow (n1 + DATA_GENERATION.revenueGrowth / n30) (JS.ofNat index) in
  revenueVolatility <- volatility DATA_GENERATION.revenueVolatility ;;
  usersVolatility <- volatility DATA_GENERATION.usersVolatility ;;
  engagementVolatility <- volatility DATA_GENERATION.engagementVolatility ;;
  let revenue :=
    JS.Math_round
      (DATA_GENERATION.baseRevenue * growthFactor * seasonalFactor
       * weekendFactor * revenueVolatility) in
  let activeUsers :=
    JS.Math_round
      (DATA_GENERATION.baseUsers
       * Math_pow (n1 + DATA_GENERATION.usersGrowth / n30) (JS.ofNat index)
       * seasonalFactor * weekendFactor * usersVolatility) in
  let engagement :=
    JS.Math_max n40
      (JS.Math_min n90
         (DATA_GENERATION.baseEngagement
          * (n1 + Math_sin (dayProgress * Math_PI * n4) * n0_1)
          * engagementVolatility)) in
  i <- generateId ;;
  ret {| id := i;
         timestamp := date;
         revenue := revenue;
         activeUsers := activeUsers;
         engagementRate := JS.toFixed2 engagement |}.

(** The sampling policy of [generateMetrics]: the interval in hours and the
    number of points. *)
Definition samplingPolicy (timeRange : TimeRange) : Z * nat :=
  if String.eqb timeRange "24h" then (1, 24%nat)
  else if String.eqb timeRange "7d" then (24, 7%nat)
  else if String.eqb timeRange "30d" then (24, 30%nat)
  else if String.eqb timeRange "90d" then ((24 * 3)%Z, 30%nat)
  else if String.eqb timeRange "1y" then ((24 * 7)%Z, 52%nat)
  else if String.eqb timeRange "all" then ((24 * 14)%Z, 52%nat)
  else (24, 30%nat).

(** The loop [while (currentDate <= to && index < totalPoints)].  Each
    iteration increments [index], so [totalPoints - index] iterations are
    enough; [fuel] bounds their number. *)
Fixpoint generateLoop (fuel : nat) (to : Date) (interval : Z) (totalPoints : nat)
    (currentDate : Date) (index : nat) (metrics : list Metric)
  : IO (list Metric) :=
  match fuel with
  | O => ret metrics
  | S fuel' =>
      if (currentDate <=? to)%Z && (index <? totalPoints)%nat then
        m <- generateMetricPoint currentDate index totalPoints ;;
        generateLoop fuel' to interval totalPoints
          (addHours currentDate interval) (S index) (metrics ++ [m])
      else ret metrics
  end.

(** [generateMetrics (timeRange)]. *)
Definition generateMetrics (timeRange : TimeRange) : IO (list Metric) :=
  range <- getDateRangeFromTimeRange timeRange ;;
  let '(from, to) := range in
  let '(interval, totalPoints) := samplingPolicy timeRange in
  generateLoop totalPoints to interval totalPoints (startOfDay from) 0 [].

(** [generateNewMetric ()]. *)
Definition generateNewMetric : IO Metric :=
  now <- Date_now ;;
  generateMetricPoint now 0 1.

End WithHost.

End Generator.

(* ================================================================== *)
(** * History endpoint ([GET /api/metrics]) *)
(* ================================================================== *)

Module MetricsRoute.

Local Open Scope io_scope.

Record Bounds := mkBounds { start : Date; end_ : Date }.

Record MetricsResponse := mkMetricsResponse {
  data : list Metric;
  summary : Summary;
  timeRange : Bounds
}.

Inductive Body :=
| ErrorBody (error : string)
| MetricsBody (response : MetricsResponse).

Record Response := mkResponse { status : Z; body : Body }.

Definition validRanges : list TimeRange :=
  ["24h"; "7d"; "30d"; "90d"; "1y"; "all"]%string.

(** [validRanges.includes (timeRange)]. *)
Definition includes (l : list string) (x : string) : bool :=
  existsb (String.eqb x) l.

(** [searchParams.get ("timeRange") || "30d"]: [null] and the empty string
    are falsy. *)
Definition orDefault (param : option string) (dflt : string) : string :=
  match param with
  | None => dflt
  | Some EmptyString => dflt
  | Some s => s
  end.

Section WithHost.
Context `{Host}.

(** The handler; [param] is the result of [searchParams.get ("timeRange")].
    An exception inside the [try] block is answered with status 500. *)
Definition GET (param : option string) : IO Response :=
  let timeRange := orDefault param "30d" in
  if negb (includes validRanges timeRange) then
    ret (mkResponse 400 (ErrorBody "Invalid time range parameter"))
  else
    metrics <- Generator.generateMetrics timeRange ;;
    match Stats.calculateSummary metrics with
    | None => ret (mkResponse 500 (ErrorBody "Internal server error"))
    | Some summary =>
        now <- Date_now ;;
        let timeRangeBounds :=
          {| start := match nth_error metrics 0 with
                      | Some m => timestamp m
                      | None => now
                      end;
             end_ := match nth_error metrics (List.length metrics - 1) with
                     | Some m => timestamp m
                     | None => now
                     end |} in
        ret (mkResponse 200
               (MetricsBody (mkMetricsResponse metrics summary timeRangeBounds)))
    end.

End WithHost.

End MetricsRoute.

(* ================================================================== *)
(** * Push transport ([GET /api/stream]) *)
(* ================================================================== *)

Module StreamRoute.

Local Open Scope io_scope.

(** A chunk written to the stream: a [data:] record or the [:heartbeat]
    comment. *)
Inductive Frame :=
| FrameData (message : SSEMessage)
| FrameHeartbeat.

(** The stream controller, the two interval timers and the abort listener
    of one subscriber: the frames written to the stream, the calls of
    [controller.close ()], the timers that are set, whether the abort event
    was dispatched, and whether the consumer of the stream cancelled it. *)
Record Transport := mkTransport {
  queue : list Frame;
  closeCalls : nat;
  dataInterval : bool;
  heartbeatInterval : bool;
  abortDispatched : bool;
  cancelled : bool
}.

(** [controller.enqueue (chunk)] raises a [TypeError] ([None]) on a stream
    that is no longer readable: closed by the controller or cancelled by
    its consumer. *)
Definition enqueue (f : Frame) (t : Transport) : option Transport :=
  if (0 <? closeCalls t)%nat || cancelled t then None
  else Some (mkTransport (queue t ++ [f]) (closeCalls t) (dataInterval t)
               (heartbeatInterval t) (abortDispatched t) (cancelled t)).

Section WithHost.
Context `{Host}.

(** The body of [start (controller)]. *)
Definition start : IO Transport :=
  now <- Date_now ;;
  ret (mkTransport [FrameData (MsgConnection "connected" now)] 0 true true false
         false).

(** The callback of the data timer; the [TypeError] of [enqueue] is caught
    and logged. *)
Definition onDataInterval (t : Transport) : IO Transport :=
  metric <- Generator.generateNewMetric ;;
  now <- Date_now ;;
  match enqueue (FrameData (MsgMetric metric now)) t with
  | Some t' => ret t'
  | None => ret t
  end.

(** The callback of the heartbeat timer; an exception ends the callback. *)
Definition onHeartbeatInterval (t : Transport) : IO Transport :=
  match enqueue FrameHeartbeat t with
  | Some t' => ret t'
  | None => ret t
  end.

(** The listener of the [abort] event of [request.signal]: both timers
    are cleared, then [controller.close ()] is called (it raises on a stream
    that its consumer cancelled, when the timers are already cleared). *)
Definition onAbort (t : Transport) : IO Transport :=
  ret (mkTransport (queue t) (S (closeCalls t)) false false true (cancelled t)).

(** The consumer of the stream cancels it.  The underlying source given to
    [new ReadableStream] has no [cancel] method: the stream is closed and
    nothing of the transport is told, so that the timers stay set. *)
Definition onCancel (t : Transport) : IO Transport :=
  ret (mkTransport (queue t) (closeCalls t) (dataInterval t)
         (heartbeatInterval t) (abortDispatched t) true).

(** ** The event loop of one subscriber *)

Inductive Event := DataTick | HeartbeatTick | Abort | Cancel.

(** A timer fires only while it is set; an abort signal dispatches its
    event once; a stream is cancelled while it is readable. *)
Definition enabled (t : Transport) (ev : Event) : bool :=
  match ev with
  | DataTick => dataInterval t
  | HeartbeatTick => heartbeatInterval t
  | Abort => negb (abortDispatched t)
  | Cancel => negb (cancelled t) && (closeCalls t =? 0)%nat
  end.

Definition handler (ev : Event) : Transport -> IO Transport :=
  match ev with
  | DataTick => onDataInterval
  | HeartbeatTick => onHeartbeatInterval
  | Abort => onAbort
  | Cancel => onCancel
  end.

(** One turn of the event loop at time [at_]. *)
Definition turn (ev : Event) (at_ : Date) (s : Transport * World)
  : option (Transport * World) :=
  let '(t, w) := s in
  if enabled t ev then Some (handler ev t (mkWorld (draws w) at_)) else None.

Fixpoint run (evs : list (Event * Date)) (s : Transport * World)
  : option (Transport * World) :=
  match evs with
  | [] => Some s
  | (ev, at_) :: evs' =>
      match turn ev at_ s with
      | Some s' => run evs' s'
      | None => None
      end
  end.

End WithHost.

End StreamRoute.

(* ================================================================== *)
(** * Stream consumer (the [useMetrics] hook) *)
(* ================================================================== *)

Module UseMetrics.

(** The state of one mounted hook: its React state, its refs, the part of
    the runtime it owns (event sources not yet closed, timeouts neither
    fired nor cleared) and the calls made to the caller's callbacks. *)
Record Hook := mkHook {
  metrics : list Metric;
  summary : option Summary;
  loading : Loading.t;
  error : option string;
  connectionStatus : Status.t;
  eventSourceRef : option nat;
  reconnectTimeoutRef : option nat;
  reconnectAttemptsRef : nat;
  isMountedRef : bool;
  openSources : list nat;
  pendingTimeouts : list (nat * Z);
  nextHandle : nat;
  onErrorCalls : list string;
  onConnectionChangeCalls : list Status.t
}.

Definition initial : Hook :=
  mkHook [] None Loading.idle None Status.disconnected None None 0 true
         [] [] 0 [] [].

(** ** State and ref updates *)

Definition setMetrics (f : list Metric -> list Metric) (h : Hook) : Hook :=
  mkHook (f (metrics h)) (summary h) (loading h) (error h) (connectionStatus h)
    (eventSourceRef h) (reconnectTimeoutRef h) (reconnectAttemptsRef h)
    (isMountedRef h) (openSources h) (pendingTimeouts h) (nextHandle h)
    (onErrorCalls h) (onConnectionChangeCalls h).

Definition setSummary (s : option Summary) (h : Hook) : Hook :=
  mkHook (metrics h) s (loading h) (error h) (connectionStatus h)
    (eventSourceRef h) (reconnectTimeoutRef h) (reconnectAttemptsRef h)
    (isMountedRef h) (openSources h) (pendingTimeouts h) (nextHandle h)
    (onErrorCalls h) (onConnectionChangeCalls h).

Definition setLoading (l : Loading.t) (h : Hook) : Hook :=
  mkHook (metrics h) (summary h) l (error h) (connectionStatus h)
    (eventSourceRef h) (reconnectTimeoutRef h) (reconnectAttemptsRef h)
    (isMountedRef h) (openSources h) (pendingTimeouts h) (nextHandle h)
    (onErrorCalls h) (onConnectionChangeCalls h).

Definition setError (e : option string) (h : Hook) : Hook :=
  mkHook (metrics h) (summary h) (loading h) e (connectionStatus h)
    (eventSourceRef h) (reconnectTimeoutRef h) (reconnectAttemptsRef h)
    (isMountedRef h) (openSources h) (pendingTimeouts h) (nextHandle h)
    (onErrorCalls h) (onConnectionChangeCalls h).

(** [onError?.(error)]. *)
Definition onError (e : string) (h : Hook) : Hook :=
  mkHook (metrics h) (summary h) (loading h) (error h) (connectionStatus h)
    (eventSourceRef h) (reconnectTimeoutRef h) (reconnectAttemptsRef h)
    (isMountedRef h) (openSources h) (pendingTimeouts h) (nextHandle h)
    (onErrorCalls h ++ [e]) (onConnectionChangeCalls h).

(** [updateConnectionStatus (status)]. *)
Definition updateConnectionStatus (st : Status.t) (h : Hook) : Hook :=
  mkHook (metrics h) (summary h) (loading h) (error h) st
    (eventSourceRef h) (reconnectTimeoutRef h) (reconnectAttemptsRef h)
    (isMountedRef h) (openSources h) (pendingTimeouts h) (nextHandle h)
    (onErrorCalls h) (onConnectionChangeCalls h ++ [st]).

Definition setEventSourceRef (r : option nat) (h : Hook) : Hook :=
  mkHook (metrics h) (summary h) (loading h) (error h) (connectionStatus h)
    r (reconnectTimeoutRef h) (reconnectAttemptsRef h)
    (isMountedRef h) (openSources h) (pendingTimeouts h) (nextHandle h)
    (onErrorCalls h) (onConnectionChangeCalls h).

Definition setReconnectTimeoutRef (r : option nat) (h : Hook) : Hook :=
  mkHook (metrics h) (summary h) (loading h) (error h) (connectionStatus h)
    (eventSourceRef h) r (reconnectAttemptsRef h)
    (isMountedRef h) (openSources h) (pendingTimeouts h) (nextHandle h)
    (onErrorCalls h) (onConnectionChangeCalls h).

Definition setReconnectAttempts (n : nat) (h : Hook) : Hook :=
  mkHook (metrics h) (summary h) (loading h) (error h) (connectionStatus h)
    (eventSourceRef h) (reconnectTimeoutRef h) n
    (isMountedRef h) (openSources h) (pendingTimeouts h) (nextHandle h)
    (onErrorCalls h) (onConnectionChangeCalls h).

Definition setIsMounted (b : bool) (h : Hook) : Hook :=
  mkHook (metrics h) (summary h) (loading h) (error h) (connectionStatus h)
    (eventSourceRef h) (reconnectTimeoutRef h) (reconnectAttemptsRef h)
    b (openSources h) (pendingTimeouts h) (nextHandle h)
    (onErrorCalls h) (onConnectionChangeCalls h).

(** ** The runtime objects *)

(** [new EventSource (url)]: a fresh source, open until closed.  The
    constructor is given a constant, well-formed URL and does not raise. *)
Definition newEventSource (h : Hook) : nat * Hook :=
  (nextHandle h,
   mkHook (metrics h) (summary h) (loading h) (error h) (connectionStatus h)
     (eventSourceRef h) (reconnectTimeoutRef h) (reconnectAttemptsRef h)
     (isMountedRef h) (nextHandle h :: openSources h) (pendingTimeouts h)
     (S (nextHandle h)) (onErrorCalls h) (onConnectionChangeCalls h)).

(** [source.close ()]: no event of the source is delivered afterwards. *)
Definition closeSource (src : nat) (h : Hook) : Hook :=
  mkHook (metrics h) (summary h) (loading h) (error h) (connectionStatus h)
    (eventSourceRef h) (reconnectTimeoutRef h) (reconnectAttemptsRef h)
    (isMountedRef h) (filter (fun i => negb (i =? src)%nat) (openSources h))
    (pendingTimeouts h) (nextHandle h)
    (onErrorCalls h) (onConnectionChangeCalls h).

(** [setTimeout (callback, delay)], its result being the timer handle. *)
Definition setTimeout (delay : Z) (h : Hook) : nat * Hook :=
  (nextHandle h,
   mkHook (metrics h) (summary h) (loading h) (error h) (connectionStatus h)
     (eventSourceRef h) (reconnectTimeoutRef h) (reconnectAttemptsRef h)
     (isMountedRef h) (openSources h) ((nextHandle h, delay) :: pendingTimeouts h)
     (S (nextHandle h)) (onErrorCalls h) (onConnectionChangeCalls h)).

(** [clearTimeout (timer)], also what the runtime does to a timer that
    fires. *)
Definition clearTimeout (timer : nat) (h : Hook) : Hook :=
  mkHook (metrics h) (summary h) (loading h) (error h) (connectionStatus h)
    (eventSourceRef h) (reconnectTimeoutRef h) (reconnectAttemptsRef h)
    (isMountedRef h) (openSources h)
    (filter (fun p => negb (fst p =? timer)%nat) (pendingTimeouts h))
    (nextHandle h) (onErrorCalls h) (onConnectionChangeCalls h).

(** ** The callbacks of the hook *)

(** The completion of [fetchMetrics] after [response.json ()] resolved. *)
Definition fetchResolved (data : list Metric) (s : Summary) (h : Hook) : Hook :=
  if negb (isMountedRef h) then h
  else setLoading Loading.success (setSummary (Some s) (setMetrics (fun _ => data) h)).

(** The [catch] branch of [fetchMetrics], with the message of the error. *)
Definition fetchFailed (message : string) (h : Hook) : Hook :=
  if negb (isMountedRef h) then h
  else onError message (setLoading Loading.error (setError (Some message) h)).

(** The start of [fetchMetrics]. *)
Definition fetchStart (h : Hook) : Hook :=
  setError None (setLoading Loading.loading h).

(** [connectSSE]: closes the source of the ref, opens a new one. *)
Definition connectSSE (h : Hook) : Hook :=
  let h1 := match eventSourceRef h with
            | Some src => closeSource src h
            | None => h
            end in
  let '(src, h2) := newEventSource h1 in
  setEventSourceRef (Some src) h2.

(** [eventSource.onopen]. *)
Definition onopen (h : Hook) : Hook :=
  if negb (isMountedRef h) then h
  else setReconnectAttempts 0 (updateConnectionStatus Status.connected h).

(** [eventSource.onmessage]; [parsed] is the outcome of
    [JSON.parse (event.data)], [None] when it raises (the error is caught
    and logged). *)
Definition onmessage (parsed : option SSEMessage) (h : Hook) : Hook :=
  if negb (isMountedRef h) then h
  else
    match parsed with
    | Some (MsgMetric newMetric _) =>
        setMetrics
          (fun prev => JSArray.slice (prev ++ [newMetric]) (JS.ofZ (-50)) None) h
    | Some _ => h
    | None => h
    end.

(** The delay of the next reconnection,
    [SSE_CONFIG.reconnectInterval * Math.pow (2, reconnectAttemptsRef.current)];
    the power of two of a small integer is exact. *)
Definition reconnectDelay (attempts : nat) : Z :=
  SSE_CONFIG.reconnectInterval * 2 ^ Z.of_nat attempts.

(** [eventSource.onerror]. *)
Definition onerror (h : Hook) : Hook :=
  if negb (isMountedRef h) then h
  else
    let h1 := match eventSourceRef h with
              | Some src => closeSource src h
              | None => h
              end in
    let h2 := updateConnectionStatus Status.disconnected h1 in
    if (reconnectAttemptsRef h2 <? SSE_CONFIG.maxReconnectAttempts)%nat then
      let delay := reconnectDelay (reconnectAttemptsRef h2) in
      let h3 := updateConnectionStatus Status.reconnecting h2 in
      let '(timer, h4) := setTimeout delay h3 in
      setReconnectTimeoutRef (Some timer) h4
    else
      let h3 := updateConnectionStatus Status.error h2 in
      onError ERROR_MESSAGES.STREAM_DISCONNECTED
        (setError (Some ERROR_MESSAGES.STREAM_DISCONNECTED) h3).

(** The callback of the reconnection timeout. *)
Definition onReconnectTimeout (h : Hook) : Hook :=
  connectSSE (setReconnectAttempts (S (reconnectAttemptsRef h)) h).

(** [disconnect]. *)
Definition disconnect (h : Hook) : Hook :=
  let h1 := match eventSourceRef h with
            | Some src => setEventSourceRef None (closeSource src h)
            | None => h
            end in
  let h2 := match reconnectTimeoutRef h1 with
            | Some timer => setReconnectTimeoutRef None (clearTimeout timer h1)
            | None => h1
            end in
  setReconnectAttempts 0 (updateConnectionStatus Status.disconnected h2).

(** The effects of the first render, in their order: the initial fetch,
    the real-time connection, the mount flag. *)
Definition mount (enableRealTime : bool) : Hook :=
  let h1 := fetchStart initial in
  let h2 := if enableRealTime then connectSSE h1 else disconnect h1 in
  setIsMounted true h2.

(** ** Events *)

Inductive Event :=
| EsOpen (src : nat)
| EsMessage (src : nat) (parsed : option SSEMessage)
| EsError (src : nat)
| TimeoutFired (timer : nat)
| FetchStarted
| FetchResolved (data : list Metric) (s : Summary)
| FetchFailed (message : string)
| RealTimeChanged (enableRealTime : bool)
| DisconnectCalled
| Unmounted.

(** The events of a source reach its handlers while it is open; a timeout
    fires while it is pending. *)
Definition enabled (h : Hook) (ev : Event) : bool :=
  match ev with
  | EsOpen src | EsMessage src _ | EsError src =>
      existsb (Nat.eqb src) (openSources h)
  | TimeoutFired timer =>
      existsb (fun p => (fst p =? timer)%nat) (pendingTimeouts h)
  | _ => true
  end.

(** Events that come from the runtime rather than from the caller. *)
Definition internal (ev : Event) : bool :=
  match ev with
  | EsOpen _ | EsMessage _ _ | EsError _ | TimeoutFired _ => true
  | _ => false
  end.

Definition handle (ev : Event) (h : Hook) : Hook :=
  match ev with
  | EsOpen _ => onopen h
  | EsMessage _ parsed => onmessage parsed h
  | EsError _ => onerror h
  | TimeoutFired timer => onReconnectTimeout (clearTimeout timer h)
  | FetchStarted => fetchStart h
  | FetchResolved data s => fetchResolved data s h
  | FetchFailed message => fetchFailed message h
  | RealTimeChanged enableRealTime =>
      (* cleanup of the previous effect, then the effect *)
      let h1 := disconnect h in
      if enableRealTime then connectSSE h1 else disconnect h1
  | DisconnectCalled => disconnect h
  | Unmounted =>
      (* the cleanups of the connection effect and of the mount effect *)
      disconnect (setIsMounted false (disconnect h))
  end.

Inductive step : Hook -> Event -> Hook -> Prop :=
| step_intro h ev : enabled h ev = true -> step h ev (handle ev h).

(** The states of the hook: the one that the first render returns to the
    caller, before any effect has run, the one that the effects of the
    first render leave, and those that an event leads to. *)
Inductive reachable : Hook -> Prop :=
| reach_initial : reachable initial
| reach_mount enableRealTime : reachable (mount enableRealTime)
| reach_step h ev h' : reachable h -> step h ev h' -> reachable h'.

(** Runs a list of events; [None] when one of them is not enabled. *)
Fixpoint run (evs : list Event) (h : Hook) : option Hook :=
  match evs with
  | [] => Some h
  | ev :: evs' => if enabled h ev then run evs' (handle ev h) else None
  end.

End UseMetrics.

(* ================================================================== *)
(** * Numeric helpers ([src/lib/utils.ts]) *)
(* ================================================================== *)

Module Numeric.

Local Open Scope js_scope.
Import JSArray.

(** [Math.sqrt], correctly rounded. *)
Definition Math_sqrt : JS.number -> JS.number := SFsqrt JS.prec JS.emax.

(** [clamp (value, min, max)]. *)
Definition clamp (value min max : JS.number) : JS.number :=
  JS.Math_min (JS.Math_max value min) max.

(** [lerp (start, end, t)]. *)
Definition lerp (start end_ t : JS.number) : JS.number :=
  start + (end_ - start) * t.

(** [mapRange (value, inMin, inMax, outMin, outMax)]. *)
Definition mapRange (value inMin inMax outMin outMax : JS.number) : JS.number :=
  ((value - inMin) * (outMax - outMin)) / (inMax - inMin) + outMin.

(** [average (numbers)]. *)
Definition average (numbers : list JS.number) : JS.number :=
  if (List.length numbers =? 0)%nat then n0
  else reduce (fun sum num => sum + num) n0 numbers / length numbers.

(** [standardDeviation (numbers)]. *)
Definition standardDeviation `{Host} (numbers : list JS.number) : JS.number :=
  let avg := average numbers in
  let squareDiffs := map (fun value => Math_pow (value - avg) n2) numbers in
  let avgSquareDiff := average squareDiffs in
  Math_sqrt avgSquareDiff.

(** The number of elements at which an array is full.  In the language it
    is [2 ^ 32 - 1], the largest array length; an engine may give up
    earlier. *)
Class ArrayLimit := {
  maxArrayLength : Z;
  maxArrayLength_range : (0 <= maxArrayLength <= 4294967295)%Z
}.

(** The limit of the language. *)
Definition languageLimit : ArrayLimit :=
  {| maxArrayLength := 4294967295;
     maxArrayLength_range := ltac:(lia) |}.

Section WithLimit.
Context `{ArrayLimit}.

(** [result.push (i)]: on an array that is full the new length is not an
    array length, and [push] raises [RangeError: Invalid array length]
    ([None]). *)
Definition push (x : JS.number) (result : list JS.number)
  : option (list JS.number) :=
  if (Z.of_nat (List.length result) <? maxArrayLength)%Z
  then Some (result ++ [x])
  else None.

(** How a call of [range] ends: it returns its array, or [push] raises; or
    the loop is still running when the fuel is spent. *)
Inductive Outcome :=
| Returned (result : list JS.number)
| RangeError
| Running.

(** The loop [for (let i = start; i < end; i += step) result.push (i)] of
    [range]; [fuel] bounds the number of its tests. *)
Fixpoint rangeLoop (fuel : nat) (i end_ step : JS.number)
    (result : list JS.number) : Outcome :=
  match fuel with
  | O => Running
  | S fuel' =>
      if i <? end_ then
        match push i result with
        | Some result' => rangeLoop fuel' (i + step) end_ step result'
        | None => RangeError
        end
      else Returned result
  end.

(** [range (start, end, step)]; the default of [step] is 1. *)
Definition range (fuel : nat) (start end_ : JS.number)
    (step : option JS.number) : Outcome :=
  rangeLoop fuel start end_
    (match step with Some s => s | None => n1 end) [].

End WithLimit.

End Numeric.

(* ================================================================== *)
(** * Random picks ([shuffle], [randomElement] of [src/lib/utils.ts]) *)
(* ================================================================== *)

Module Sampling.

Local Open Scope js_scope.
Local Open Scope io_scope.
Import JSArray.

(** [array[index]] for a number [index]: the element at an integer index
    within the array, [undefined] ([None]) for any other number. *)
Definition elementAt {A} (array : list A) (index : JS.number) : option A :=
  match index with
  | S754_zero _ => nth_error array 0
  | S754_finite false m e =>
      if (0 <=? e)%Z then nth_error array (Z.to_nat (Zpos m * 2 ^ e))
      else if (Zpos m mod 2 ^ (- e) =? 0)%Z
           then nth_error array (Z.to_nat (Zpos m / 2 ^ (- e)))
           else None
  | _ => None
  end.

(** [array[k] = v] inside the array. *)
Fixpoint update {A} (array : list A) (k : nat) (v : A) : list A :=
  match array, k with
  | [], _ => []
  | _ :: rest, O => v :: rest
  | x :: rest, S k' => x :: update rest k' v
  end.

(** [[array[i], array[j]] = [array[j], array[i]]]: both elements are read,
    then both are written.  [None] when one of the indices is outside the
    array, where [undefined] would enter it. *)
Definition swap {A} (array : list A) (i : nat) (j : JS.number)
  : option (list A) :=
  match elementAt array j, nth_error array i with
  | Some aj, Some ai =>
      Some (update (update array i aj) (Z.to_nat (JS.toInteger j)) ai)
  | _, _ => None
  end.

Section WithHost.
Context `{Host}.

(** The loop [for (let i = newArray.length - 1; i > 0; i--)] of [shuffle],
    by recursion on [i]. *)
Fixpoint shuffleLoop {A} (i : nat) (newArray : list A) : IO (option (list A)) :=
  match i with
  | O => ret (Some newArray)
  | S i' =>
      r <- Math_random ;;
      let j := JS.Math_floor (r * (JS.ofNat i + n1)) in
      match swap newArray i j with
      | Some newArray' => shuffleLoop i' newArray'
      | None => ret None
      end
  end.

(** [shuffle (array)]. *)
Definition shuffle {A} (array : list A) : IO (option (list A)) :=
  let newArray := array in
  shuffleLoop (List.length newArray - 1) newArray.

(** [randomElement (array)]. *)
Definition randomElement {A} (array : list A) : IO (option A) :=
  r <- Math_random ;;
  ret (elementAt array (JS.Math_floor (r * length array))).

End WithHost.

End Sampling.

(* ================================================================== *)
(** * [debounce] and [throttle] ([src/lib/utils.ts]) *)
(* ================================================================== *)

(** The closure that [debounce (func, wait)] returns, with the part of the
    runtime that it owns: its variable [timeout], the timeouts that it set
    and that have neither fired nor been cleared, each with its delay and
    with the arguments that its callback [later] captured, and the calls
    made to [func].  [func] is a parameter: a call of it is recorded, and
    it does not call the closure. *)
Module Debounce.

Section WithArgs.
Context {Args : Type}.

Record Closure := mkClosure {
  wait : Z;
  timeout : option nat;
  pendingTimeouts : list (nat * Z * Args);
  nextHandle : nat;
  funcCalls : list Args
}.

(** [debounce (func, wait)]: [let timeout = null].  Timer handles are
    positive, hence truthy. *)
Definition debounce (wait : Z) : Closure := mkClosure wait None [] 1 [].

Definition clearTimeout (timer : nat) (c : Closure) : Closure :=
  mkClosure (wait c) (timeout c)
    (filter (fun p => negb (fst (fst p) =? timer)%nat) (pendingTimeouts c))
    (nextHandle c) (funcCalls c).

(** [executedFunction (...args)]. *)
Definition executedFunction (args : Args) (c : Closure) : Closure :=
  let c1 := match timeout c with
            | Some timer => clearTimeout timer c
            | None => c
            end in
  mkClosure (wait c1) (Some (nextHandle c1))
    ((nextHandle c1, wait c1, args) :: pendingTimeouts c1)
    (S (nextHandle c1)) (funcCalls c1).

(** The callback [later] of a timeout, with the arguments it captured. *)
Definition later (args : Args) (c : Closure) : Closure :=
  mkClosure (wait c) None (pendingTimeouts c) (nextHandle c)
    (funcCalls c ++ [args]).

Inductive Event :=
| Called (args : Args)
| TimeoutFired (timer : nat).

(** The arguments captured by a pending timeout. *)
Definition captured (timer : nat) (c : Closure) : option Args :=
  match find (fun p => (fst (fst p) =? timer)%nat) (pendingTimeouts c) with
  | Some p => Some (snd p)
  | None => None
  end.

(** A call is always possible; a timeout fires while it is pending, and is
    then no longer pending. *)
Definition handle (ev : Event) (c : Closure) : option Closure :=
  match ev with
  | Called args => Some (executedFunction args c)
  | TimeoutFired timer =>
      match captured timer c with
      | Some args => Some (later args (clearTimeout timer c))
      | None => None
      end
  end.

Fixpoint run (evs : list (Event)) (c : Closure) : option Closure :=
  match evs with
  | [] => Some c
  | ev :: evs' =>
      match handle ev c with
      | Some c' => run evs' c'
      | None => None
      end
  end.

End WithArgs.

Arguments Closure : clear implicits.
Arguments Event : clear implicits.

End Debounce.

(** The closure that [throttle (func, limit)] returns, with the timeouts
    that it set and the calls made to [func].  [func] is a parameter: a call
    of it is recorded, it returns or raises, and it does not call the
    closure. *)
Module Throttle.

(** How a call of [func] ends. *)
Inductive Completion := Returns | Throws.

Section WithArgs.
Context {Args : Type}.

Record Closure := mkClosure {
  limit : Z;
  inThrottle : bool;
  pendingTimeouts : list (nat * Z);
  nextHandle : nat;
  funcCalls : list Args
}.

(** [throttle (func, limit)]: [let inThrottle = false]. *)
Definition throttle (limit : Z) : Closure := mkClosure limit false [] 1 [].

(** [func (...args)]. *)
Definition callFunc (args : Args) (c : Closure) : Closure :=
  mkClosure (limit c) (inThrottle c) (pendingTimeouts c) (nextHandle c)
    (funcCalls c ++ [args]).

(** [executedFunction (...args)]: [func] is called first, the gate is
    closed and the timeout is set when it has returned.  An exception of
    [func] leaves [executedFunction] before that. *)
Definition executedFunction (args : Args) (completion : Completion)
    (c : Closure) : Closure :=
  if negb (inThrottle c) then
    let c1 := callFunc args c in
    match completion with
    | Throws => c1
    | Returns =>
        mkClosure (limit c1) true
          ((nextHandle c1, limit c1) :: pendingTimeouts c1)
          (S (nextHandle c1)) (funcCalls c1)
    end
  else c.

(** The callback of the timeout, [inThrottle = false]; the runtime has
    removed the timeout that fires. *)
Definition onTimeout (timer : nat) (c : Closure) : Closure :=
  mkClosure (limit c) false
    (filter (fun p => negb (fst p =? timer)%nat) (pendingTimeouts c))
    (nextHandle c) (funcCalls c).

(** A call of the closure, with the way in which [func] ends if it is
    called; the firing of a timeout. *)
Inductive Event :=
| Called (args : Args) (completion : Completion)
| TimeoutFired (timer : nat).

Definition handle (ev : Event) (c : Closure) : option Closure :=
  match ev with
  | Called args completion => Some (executedFunction args completion c)
  | TimeoutFired timer =>
      if existsb (fun p => (fst p =? timer)%nat) (pendingTimeouts c)
      then Some (onTimeout timer c)
      else None
  end.

Fixpoint run (evs : list (Event)) (c : Closure) : option Closure :=
  match evs with
  | [] => Some c
  | ev :: evs' =>
      match handle ev c with
      | Some c' => run evs' c'
      | None => None
      end
  end.

End WithArgs.

Arguments Closure : clear implicits.
Arguments Event : clear implicits.

End Throttle.

(* ================================================================== *)
(** * Number formatting ([formatNumber] of [src/lib/utils.ts]) *)
(* ================================================================== *)

Module Format.

Local Open Scope string_scope.

(** [Number.prototype.toString] on the finite numbers of magnitude [1e21]
    and more, which are printed with an exponent; the pipeline leaves it to
    the engine. *)
Class Printer := {
  Number_toString : JS.number -> string
}.

(** The decimal digits of a natural number. *)
Definition digits (n : Z) : string :=
  NilZero.string_of_uint (N.to_uint (Z.to_N n)).

Fixpoint zeros (k : nat) : string :=
  match k with
  | O => ""
  | S k' => String "0" (zeros k')
  end.

(** The digits of [n] with a decimal point before the last [f] of them,
    padded with zeros up to [f + 1] digits. *)
Definition pointed (n : Z) (f : nat) : string :=
  let m := digits n in
  match f with
  | O => m
  | _ =>
      let m := zeros (S f - String.length m) ++ m in
      let k := String.length m in
      substring 0 (k - f) m ++ "." ++ substring (k - f) f m
  end.

(** [x.toFixed (f)], for [0 <= f <= 100].  Below [1e21] the result is the
    decimal writing of the integer [n] for which [n / 10^f] is nearest to
    [|x|], the larger one on a tie, after the sign of a negative [x]. *)
Definition toFixed `{Printer} (x : JS.number) (f : nat) : string :=
  match x with
  | S754_nan => "NaN"
  | S754_infinity s => if s then "-Infinity" else "Infinity"
  | S754_zero _ => pointed 0 f
  | S754_finite s m e =>
      let scale := 10 ^ Z.of_nat f in
      let big := if (0 <=? e)%Z then (10 ^ 21 <=? Zpos m * 2 ^ e)%Z
                 else (10 ^ 21 * 2 ^ (- e) <=? Zpos m)%Z in
      if big then Number_toString x
      else
        let n := if (0 <=? e)%Z then Zpos m * 2 ^ e * scale
                 else (2 * Zpos m * scale + 2 ^ (- e)) / 2 ^ (- e + 1) in
        (if s then "-" else "") ++ pointed n f
  end.

Local Open Scope js_scope.

Definition n1e3 : JS.number := Eval vm_compute in JS.ofZ (10 ^ 3).
Definition n1e6 : JS.number := Eval vm_compute in JS.ofZ (10 ^ 6).
Definition n1e9 : JS.number := Eval vm_compute in JS.ofZ (10 ^ 9).

(** [formatNumber (num)]. *)
Definition formatNumber `{Printer} (num : JS.number) : string :=
  if num >=? n1e9 then (toFixed (num / n1e9) 1 ++ "B")%string
  else if num >=? n1e6 then (toFixed (num / n1e6) 1 ++ "M")%string
  else if num >=? n1e3 then (toFixed (num / n1e3) 1 ++ "K")%string
  else toFixed num 0.

(** [formatPercentage (value, decimals)], for a whole number of decimals;
    the default of [decimals] is 2, and [toFixed] raises a [RangeError]
    ([None]) above 100. *)
Definition formatPercentage `{Printer} (value : JS.number) (decimals : option nat)
  : option string :=
  let d := match decimals with Some d => d | None => 2%nat end in
  if (d <=? 100)%nat then Some (toFixed (value * n100) d ++ "%")%string
  else None.

End Format.

(* ================================================================== *)
(** * Metric cards ([generateMetricCards] of [src/lib/data-generator.ts]) *)
(* ================================================================== *)

Module Cards.

Local Open Scope js_scope.
Import JSArray Format.

Inductive Trend := up | down | neutral.

(** The icons of lucide-react that the cards refer to. *)
Inductive Icon := DollarSign | Users | Target | Zap.

(** The [value] of a card is a number or a string. *)
Inductive CardValue :=
| NumberValue (n : JS.number)
| StringValue (s : string).

Record MetricCard := mkMetricCard {
  id : string;
  title : string;
  value : CardValue;
  change : JS.number;
  trend : Trend;
  sparkline : list JS.number;
  icon : Icon;
  color : string
}.

Definition n10 : JS.number := Eval vm_compute in JS.ofZ 10.

(** [generateMetricCards (metrics)]; [None] is the [TypeError] of
    [calculateSummary]. *)
Definition generateMetricCards `{Printer} (metrics : list Metric)
  : option (list MetricCard) :=
  match Stats.calculateSummary metrics with
  | None => None
  | Some summary =>
      let sparklineCount := JS.Math_min n10 (length metrics) in
      let recentMetrics := slice metrics (JS.neg sparklineCount) None in
      Some
        [ {| id := "revenue";
             title := "Total Revenue";
             value := NumberValue (totalRevenue summary);
             change := revenueChange summary;
             trend := if revenueChange summary >? n0 then up
                      else if revenueChange summary <? n0 then down
                      else neutral;
             sparkline := map revenue recentMetrics;
             icon := DollarSign;
             color := "chart-revenue" |};
          {| id := "users";
             title := "Active Users";
             value := NumberValue (totalUsers summary);
             change := usersChange summary;
             trend := if usersChange summary >? n0 then up
                      else if usersChange summary <? n0 then down
                      else neutral;
             sparkline := map activeUsers recentMetrics;
             icon := Users;
             color := "chart-users" |};
          {| id := "engagement";
             title := "Engagement Rate";
             value := StringValue (toFixed (avgEngagement summary) 1 ++ "%");
             change := engagementChange summary;
             trend := if engagementChange summary >? n0 then up
                      else if engagementChange summary <? n0 then down
                      else neutral;
             sparkline := map engagementRate recentMetrics;
             icon := Target;
             color := "chart-engagement" |};
          {| id := "response";
             title := "Avg Response Time";
             value := StringValue "124ms";
             change := JS.neg (JS.dec 83 1);
             trend := up;
             sparkline := map JS.ofZ [150; 145; 138; 142; 135; 128; 125; 122;
                                      126; 124];
             icon := Zap;
             color := "primary-500" |} ]
  end.

End Cards.

(* ================================================================== *)
(** * The ranges of the selector ([TIME_RANGES] of [src/lib/constants.ts]) *)
(* ================================================================== *)

(** [TIME_RANGES] of [src/lib/constants.ts]: the ranges that the selector
    of the dashboard offers. *)
Module TimeRanges.

Record TimeRangeConfig := mkTimeRangeConfig {
  value : TimeRange;
  label : string;
  days : Z
}.

Definition TIME_RANGES : list TimeRangeConfig :=
  [ mkTimeRangeConfig "24h" "24 Hours" 1;
    mkTimeRangeConfig "7d" "7 Days" 7;
    mkTimeRangeConfig "30d" "30 Days" 30;
    mkTimeRangeConfig "90d" "90 Days" 90;
    mkTimeRangeConfig "1y" "1 Year" 365;
    mkTimeRangeConfig "all" "All Time" 730 ]%string.

End TimeRanges.

(* ================================================================== *)
(** * The vocabulary of the specification: lists and numbers *)
(* ================================================================== *)

Module ListSpec.

(** The last [k] elements of a list. *)
Definition lastPoints {A} (k : nat) (l : list A) : list A :=
  skipn (List.length l - k) l.

End ListSpec.

Module JSSpec.

Import JS.

(** The result of rounding a non-negative mantissa is a zero, a finite
    number or an infinity, of the requested sign. *)
Inductive rounded (s : bool) : number -> Prop :=
| rounded_zero : rounded s (S754_zero s)
| rounded_finite m e : rounded s (S754_finite s m e)
| rounded_infinity : rounded s (S754_infinity s).

Definition sign_of (x : number) : bool :=
  match x with
  | S754_zero s | S754_infinity s | S754_finite s _ _ => s
  | S754_nan => false
  end.

(** [mag_le k x]: [x] is a zero or a well-formed finite number with
    [|x| <= 2 ^ k]; [mag_lt k x] is the strict bound. *)
Definition mag_le (k : Z) (x : number) : bool :=
  match x with
  | S754_zero _ => true
  | S754_finite _ m e => bounded prec emax m e && (Zpos m <=? 2 ^ (k - e))
  | _ => false
  end.

Definition mag_lt (k : Z) (x : number) : bool :=
  match x with
  | S754_zero _ => true
  | S754_finite _ m e => bounded prec emax m e && (Zpos m <? 2 ^ (k - e))
  | _ => false
  end.

(** A zero or a finite, well-formed number of sign [s] and of magnitude at
    most [2 ^ k]. *)
Definition bounded_as (s : bool) (k : Z) (x : number) : Prop :=
  match x with
  | S754_zero s' => s' = s
  | S754_finite s' m e =>
      s' = s /\ bounded prec emax m e = true /\ Zpos m <= 2 ^ (k - e)
  | _ => False
  end.

(** Two numbers with the same representation. *)
Definition same (x y : number) : bool :=
  match x, y with
  | S754_zero s1, S754_zero s2 => Bool.eqb s1 s2
  | S754_infinity s1, S754_infinity s2 => Bool.eqb s1 s2
  | S754_nan, S754_nan => true
  | S754_finite s1 m1 e1, S754_finite s2 m2 e2 =>
      Bool.eqb s1 s2 && (m1 =? m2)%positive && (e1 =? e2)
  | _, _ => false
  end.

(** A well-formed number in [[0, 1)], and one in [[0, 2 ^ k]]. *)
Definition unitInterval (r : number) : bool := mag_lt 0 r && negb (sign_of r).
Definition upTo (k : Z) (x : number) : bool := mag_le k x && negb (sign_of x).

End JSSpec.

(* ================================================================== *)
(** * A sample host *)
(* ================================================================== *)

(** A host on which the pipeline can be run: the calendar of UTC, the
    sines of the arguments that the generator computes (as a table of
    doubles), powers by repeated multiplication and a periodic random
    source. *)
Module Sample.

Definition MILLISECONDS_IN_DAY : Z := 86400000.

Definition utcStartOfDay (d : Date) : Date := d - d mod MILLISECONDS_IN_DAY.
Definition utcEndOfDay (d : Date) : Date :=
  utcStartOfDay d + MILLISECONDS_IN_DAY - 1.
Definition utcSubDays (d : Date) (amount : Z) : Date :=
  d - amount * MILLISECONDS_IN_DAY.

(** The first of January 1970 was a Thursday. *)
Definition utcIsWeekend (d : Date) : bool :=
  let day := (d / MILLISECONDS_IN_DAY + 4) mod 7 in
  (day =? 0) || (day =? 6).

(** The month, 0 to 11, of the civil date of a day count. *)
Definition utcGetMonth (d : Date) : Z :=
  let z := d / MILLISECONDS_IN_DAY + 719468 in
  let doe := z mod 146097 in
  let yoe := (doe - doe / 1460 + doe / 36524 - doe / 146096) / 365 in
  let doy := doe - (365 * yoe + yoe / 4 - yoe / 100) in
  let mp := (5 * doy + 2) / 153 in
  (mp + 2) mod 12.

Fixpoint lookup (x : JS.number) (table : list (JS.number * JS.number))
    (dflt : JS.number) : JS.number :=
  match table with
  | [] => dflt
  | (a, v) :: table' => if JSSpec.same a x then v else lookup x table' dflt
  end.

Definition sinTable : list (JS.number * JS.number) :=
  [
   (S754_finite true 5895198126690367 (-51),
    S754_finite true 9007199254740991 (-54));
   (S754_finite true 4716158501352293 (-51),
    S754_finite true 7800463371553963 (-53));
   (S754_finite true 7074237752028440 (-52),
    S754_finite true 4503599627370496 (-52));
   (S754_finite true 4716158501352293 (-52),
    S754_finite true 7800463371553962 (-53));
   (S754_finite true 4716158501352293 (-53),
    S754_finite true 9007199254740991 (-54));
   (S754_finite false 4716158501352293 (-53),
    S754_finite false 9007199254740991 (-54));
   (S754_finite false 4716158501352293 (-52),
    S754_finite false 7800463371553962 (-53));
   (S754_finite false 7074237752028440 (-52),
    S754_finite false 4503599627370496 (-52));
   (S754_finite false 4716158501352293 (-51),
    S754_finite false 7800463371553963 (-53));
   (S754_finite false 5895198126690367 (-51),
    S754_finite false 9007199254740991 (-54));
   (S754_finite false 7074237752028440 (-51),
    S754_finite false 4967757600021511 (-105));
   (S754_finite false 8253277377366514 (-51),
    S754_finite true 4503599627370497 (-53));
   (S754_finite false 4716158501352293 (-50),
    S754_finite true 7800463371553960 (-53));
   (S754_finite false 5305678314021330 (-50),
    S754_finite true 4503599627370496 (-52));
   (S754_finite false 5895198126690367 (-50),
    S754_finite true 7800463371553962 (-53));
   (S754_finite false 6484717939359403 (-50),
    S754_finite true 4503599627370500 (-53));
   (S754_finite false 7074237752028440 (-50),
    S754_finite true 4967757600021511 (-104));
   (S754_finite false 7663757564697476 (-50),
    S754_finite false 9007199254740979 (-54));
   (S754_finite false 8253277377366514 (-50),
    S754_finite false 7800463371553964 (-53));
   (S754_finite false 8842797190035550 (-50),
    S754_finite false 4503599627370496 (-52));
   (S754_finite false 4716158501352293 (-49),
    S754_finite false 7800463371553967 (-53));
   (S754_finite false 5010918407686812 (-49),
    S754_finite false 9007199254740988 (-54));
   (S754_finite false 5305678314021330 (-49),
    S754_finite false 7451636400032266 (-104));
   (S754_finite false 5600438220355848 (-49),
    S754_finite true 9007199254740977 (-54));
   (S754_finite false 5895198126690367 (-49),
    S754_finite true 7800463371553963 (-53));
   (S754_finite false 6189958033024885 (-49),
    S754_finite true 4503599627370496 (-52));
   (S754_finite false 6484717939359403 (-49),
    S754_finite true 7800463371553967 (-53));
   (S754_finite false 6779477845693922 (-49),
    S754_finite true 9007199254740990 (-54))
  ].

Definition sin (x : JS.number) : JS.number := lookup x sinTable n0.

Definition pow (b y : JS.number) : JS.number :=
  Nat.iter (Z.to_nat (JS.toInteger y)) (fun acc => JS.mul acc b) n1.

Definition randomTable : list JS.number :=
  [S754_finite false 5833652476131950 (-54);
   S754_finite false 5434914267804272 (-55);
   S754_finite false 5863096500449791 (-53);
   S754_finite false 5219584538304768 (-56);
   S754_finite false 4826795989820320 (-53);
   S754_finite false 6587665879764162 (-54);
   S754_finite false 8358525952104288 (-57);
   S754_finite false 4570574757812695 (-53)].

Definition random (k : nat) : JS.number := nth (k mod 8) randomTable n0.

#[export] Instance host : Host := {|
  startOfDay := utcStartOfDay;
  endOfDay := utcEndOfDay;
  subDays := utcSubDays;
  isWeekend := utcIsWeekend;
  getMonth := utcGetMonth;
  Math_sin := sin;
  Math_pow := pow;
  random_source := random
|}.

(** Noon of the first of November 2026, before any random draw. *)
Definition world : World := mkWorld 0 1793534400000.

End Sample.

(* ================================================================== *)
(** * The vocabulary of the specification: the components *)
(* ================================================================== *)

Module UtilsSpec.

(** The number 1e308. *)
Definition n1e308 : JS.number := Eval vm_compute in JS.ratio (10 ^ 308) 1.

End UtilsSpec.

Module StatsSpec.

Import JS.
Local Open Scope js_scope.

(** The sum of a list of numbers, accumulated from the left from 0, and
    its arithmetic mean. *)
Definition total (xs : list number) : number := fold_left add xs n0.
Definition mean (xs : list number) : number := total xs / ofNat (List.length xs).

(** The fixture of the specification: three points with the revenues 100,
    200 and 300. *)
Definition fixture3 (p1 p2 p3 : Metric) : Prop :=
  revenue p1 = ofZ 100 /\ revenue p2 = ofZ 200 /\ revenue p3 = ofZ 300.

(** A sequence of one point. *)
Definition onePoint : list Metric :=
  [mkMetric (0, n0) 0 (ofZ 100) (ofZ 5) (ofZ 50)].

(** [Math.floor (n * 0.2)] for a length [n]. *)
Definition splitIndexOfLength (n : nat) : number :=
  Math_floor (ofNat n * n0_2).

End StatsSpec.

Module GeneratorSpec.

Import JS JSSpec.
Local Open Scope js_scope.

(** The bases of the two growth factors. *)
Definition revenueBase : number := n1 + DATA_GENERATION.revenueGrowth / n30.
Definition usersBase : number := n1 + DATA_GENERATION.usersGrowth / n30.

(** What the generator needs of its host: [startOfDay] does not move a
    date forward and a day has at least 23 hours; months are numbered from
    0 to 11; the sine of a finite number is a well-formed number of
    magnitude at most 1; the growth factors of the 24 points of a day are
    well-formed numbers between 0 and 2; a random draw is a well-formed
    number in [[0, 1)]. *)
Class HostOk `{Host} : Prop := {
  startOfDay_le : forall d, (startOfDay d <= d)%Z;
  subDays_one : forall d, (subDays d 1 <= d - 23 * MILLISECONDS_IN_HOUR)%Z;
  getMonth_range : forall d, (0 <= getMonth d <= 11)%Z;
  sin_range : forall x, isFinite x = true -> mag_le 0 (Math_sin x) = true;
  pow_range : forall i, (i < 24)%nat ->
    upTo 1 (Math_pow revenueBase (ofNat i)) = true
    /\ upTo 1 (Math_pow usersBase (ofNat i)) = true;
  random_range : forall k, unitInterval (random_source k) = true
}.

(** The bounds of C5 on one point. *)
Definition inRange (m : Metric) : Prop :=
  (revenue m >=? n0) = true
  /\ (activeUsers m >=? n0) = true
  /\ (n40 <=? engagementRate m) = true
  /\ (engagementRate m <=? n90) = true.

(** The first sampling date of a range of one day. *)
Definition firstDate `{Host} (w : World) : Date :=
  startOfDay (startOfDay (subDays (endOfDay (time w)) 1)).

End GeneratorSpec.

Module MetricsRouteSpec.

Import MetricsRoute.

(** A request is rejected when it carries a non-empty [timeRange] that is
    not one of the six ranges. *)
Definition rejected (param : option string) : Prop :=
  exists s, param = Some s /\ s <> ""%string /\ ~ In s validRanges.

End MetricsRouteSpec.

Module StreamRouteSpec.

Import StreamRoute.

(** Before the abort event both timers are set and [controller.close] has
    not been called; after it both are cleared and it was called once. *)
Definition Inv (t : Transport) : Prop :=
  if abortDispatched t
  then closeCalls t = 1%nat /\ dataInterval t = false
       /\ heartbeatInterval t = false
  else closeCalls t = 0%nat /\ dataInterval t = true
       /\ heartbeatInterval t = true.

(** An execution on the sample host: a data tick, a heartbeat, the abort. *)
Definition sampleTicks : list (Event * Date) :=
  [(DataTick, 1793534405000); (HeartbeatTick, 1793534430000)].

End StreamRouteSpec.

Module UseMetricsSpec.

Import UseMetrics.


(** What holds of the runtime objects of the hook in every state: a source
    that is open is the one of [eventSourceRef], a timeout that is pending
    is the one of [reconnectTimeoutRef], no timeout is pending while a
    source is open, and the retry counter stays within its bound. *)
Record Inv (h : Hook) : Prop := mkInv {
  inv_sources : Forall (fun src => eventSourceRef h = Some src) (openSources h);
  inv_timers : Forall (fun p => reconnectTimeoutRef h = Some (fst p))
                 (pendingTimeouts h);
  inv_exclusive : openSources h = [] \/ pendingTimeouts h = [];
  inv_attempts : (reconnectAttemptsRef h <= SSE_CONFIG.maxReconnectAttempts)%nat;
  inv_pending : pendingTimeouts h <> [] ->
                (reconnectAttemptsRef h < SSE_CONFIG.maxReconnectAttempts)%nat
}.

(** The events by which the caller acts on the connection: [disconnect],
    a change of [enableRealTime], which runs the connection effect again,
    and the unmount. *)
Definition callerConnection (ev : Event) : bool :=
  match ev with
  | RealTimeChanged _ | DisconnectCalled | Unmounted => true
  | _ => false
  end.

(** The state [error] of the connection with nothing of it left in the
    runtime. *)
Definition Exhausted (h : Hook) : Prop :=
  connectionStatus h = Status.error
  /\ pendingTimeouts h = [] /\ openSources h = [].

(** The consecutive faults of a connection that never opens, each followed
    by the firing of the timeout it scheduled. *)
Definition failures : list Event :=
  [EsError 0; TimeoutFired 1; EsError 2; TimeoutFired 3; EsError 4;
   TimeoutFired 5; EsError 6; TimeoutFired 7; EsError 8; TimeoutFired 9]%nat.

(** The state of the hook when the five retries have failed to open and
    the sixth source, of handle 10, is connecting. *)
Definition exhausted : Hook :=
  Eval vm_compute in
    match run failures (mount true) with
    | Some h => h
    | None => initial
    end.

(** A window of 50 points: the 50 points of a history fetch. *)
Definition aPoint (k : nat) : Metric :=
  mkMetric (0, n0) (Z.of_nat k) (JS.ofZ 100) (JS.ofZ 5) (JS.ofZ 50).

Definition fiftyPoints : list Metric := map aPoint (seq 0 50).

Definition fullWindow : Hook :=
  fetchResolved fiftyPoints Stats.zeroSummary (mount true).


End UseMetricsSpec.

(* ================================================================== *)
(** * The vocabulary of the further properties *)
(* ================================================================== *)

Module OrderSpec.

Import JS.

(** The place on the line of a number that is not [NaN], after a scaling by
    [2 ^ c] that makes it an integer: its class ([-1] for the negative
    infinity, [1] for the positive one, [0] for a finite number) and its
    scaled value. *)
Definition place (c : Z) (x : number) : Z * Z :=
  match val x with
  | XNaN => (0, 0)
  | XInf s => (if s then -1 else 1, 0)
  | XFin M e => (0, M * 2 ^ (e + c))
  end.

Definition fits (c : Z) (x : number) : Prop :=
  match val x with
  | XFin _ e => 0 <= e + c
  | _ => True
  end.

Definition lex (p q : Z * Z) : comparison :=
  match fst p ?= fst q with
  | Eq => snd p ?= snd q
  | r => r
  end.

End OrderSpec.

Module IntegerSpec.

Import JS.

(** The double that holds a positive integer below [2 ^ 53]: the integer,
    shifted to 53 binary digits. *)
Definition double (s : bool) (z : Z) : number :=
  S754_finite s (Z.to_pos (z * 2 ^ (53 - Zdigits2 z))) (Zdigits2 z - 53).

End IntegerSpec.

Module IndexSpec.

Import JS.

(** [x] is a zero or a positive finite number whose value, scaled by
    [2 ^ (- E)], is below [B]. *)
Definition valueBelow (B E : Z) (x : number) : Prop :=
  match x with
  | S754_zero _ => True
  | S754_finite false q E' => E <= E' /\ Zpos q * 2 ^ (E' - E) < B
  | _ => False
  end.

End IndexSpec.

Module NumericSpec.

(** The number of the integers [a], [a + s], [a + 2 s], ... below [b]. *)
Definition stepsBelow (a b s : Z) : nat := Z.to_nat ((b - a + s - 1) / s).

(** The integers themselves, as numbers. *)
Definition integersFrom (a s : Z) (count : nat) : list JS.number :=
  map (fun j => JS.ofZ (a + Z.of_nat j * s)) (seq 0 count).

(** The outcome, after [fuel] tests, of a loop that never leaves the range:
    it fills the array, then [push] raises. *)
Definition stuck `{Numeric.ArrayLimit} (fuel : nat) (result : list JS.number)
  : Numeric.Outcome :=
  if (Z.of_nat (List.length result) + Z.of_nat fuel <=? Numeric.maxArrayLength)%Z
  then Numeric.Running else Numeric.RangeError.

(** The number 1e16, above which the doubles are more than 1 apart. *)
Definition n1e16 : JS.number := Eval vm_compute in JS.ofZ (10 ^ 16).

End NumericSpec.

Module SamplingSpec.

(** A host whose random source gives well-formed numbers of [[0, 1)]. *)
Definition randomOk `{Host} : Prop :=
  forall k, JSSpec.unitInterval (random_source k) = true.

(** An array of five elements. *)
Definition letters : list string := ["a"; "b"; "c"; "d"; "e"]%string.

End SamplingSpec.

Module TimingSpec.

Section WithArgs.
Context {Args : Type}.

(** What a debounced function does, said without timers: a call replaces
    the arguments that wait, and the firing of the timeout passes the
    waiting arguments to [func].  [None]: a timeout fires while nothing
    waits. *)
Fixpoint debounced (evs : list (Debounce.Event Args)) (waiting : option Args)
  : option (list Args * option Args) :=
  match evs with
  | [] => Some ([], waiting)
  | Debounce.Called args :: evs' => debounced evs' (Some args)
  | Debounce.TimeoutFired _ :: evs' =>
      match waiting with
      | Some args =>
          match debounced evs' None with
          | Some (calls, w) => Some (args :: calls, w)
          | None => None
          end
      | None => None
      end
  end.

(** What a throttled function does: a call goes through to [func] when the
    gate is open, and closes it if [func] returns; the firing of the
    timeout opens it. *)
Fixpoint throttled (evs : list (Throttle.Event Args)) (closed : bool)
  : list Args * bool :=
  match evs with
  | [] => ([], closed)
  | Throttle.Called args completion :: evs' =>
      if closed then throttled evs' true
      else
        let '(calls, c) :=
          throttled evs' match completion with
                         | Throttle.Returns => true
                         | Throttle.Throws => false
                         end in
        (args :: calls, c)
  | Throttle.TimeoutFired _ :: evs' => throttled evs' false
  end.

(** The arguments that wait in a debounced closure. *)
Definition waitingArgs (c : Debounce.Closure Args) : option Args :=
  match Debounce.pendingTimeouts c with
  | p :: _ => Some (snd p)
  | [] => None
  end.

(** At most one timeout is pending: the one of the variable [timeout], set
    with the delay of the closure. *)
Definition DebounceInv (c : Debounce.Closure Args) : Prop :=
  match Debounce.timeout c with
  | Some timer =>
      exists args,
        Debounce.pendingTimeouts c = [(timer, Debounce.wait c, args)]
  | None => Debounce.pendingTimeouts c = []
  end.

(** A timeout is pending exactly while the gate is closed. *)
Definition ThrottleInv (c : Throttle.Closure Args) : Prop :=
  if Throttle.inThrottle c
  then exists timer,
         Throttle.pendingTimeouts c = [(timer, Throttle.limit c)]
  else Throttle.pendingTimeouts c = [].

End WithArgs.

(** A burst of three calls and the timeout of the last one. *)
Definition burst : list (Debounce.Event nat) :=
  [Debounce.Called 10%nat; Debounce.Called 20%nat;
   Debounce.Called 30%nat; Debounce.TimeoutFired 3].

(** Three calls, the timeout of the first one, a fourth call. *)
Definition presses : list (Throttle.Event nat) :=
  [Throttle.Called 10%nat Throttle.Returns;
   Throttle.Called 20%nat Throttle.Returns;
   Throttle.Called 30%nat Throttle.Returns; Throttle.TimeoutFired 1;
   Throttle.Called 40%nat Throttle.Returns].

(** The calls of a list of arguments, each with the way [func] would end. *)
Definition calls {Args : Type} (l : list (Args * Throttle.Completion))
  : list (Throttle.Event Args) :=
  map (fun p => Throttle.Called (fst p) (snd p)) l.

End TimingSpec.

Module FormatSpec.

(** An engine whose exponent notation is not looked at. *)
#[export] Instance plain : Format.Printer := {|
  Format.Number_toString := fun _ => "1e+21"%string
|}.

End FormatSpec.

Module CardsSpec.

Import Cards.

(** The three cards that are computed from the metrics. *)
Definition computed (cards : list MetricCard) : list MetricCard := firstn 3 cards.

(** Four points, the cards of which show no trend. *)
Definition fourPoints : list Metric := map UseMetricsSpec.aPoint (seq 0 4).

End CardsSpec.

Module RangesSpec.

Import JS JSSpec GeneratorSpec.
Local Open Scope js_scope.

(** The number of days that [getDateRangeFromTimeRange] goes back. *)
Definition daysBack (timeRange : TimeRange) : Z :=
  if String.eqb timeRange "24h" then 1
  else if String.eqb timeRange "7d" then 7
  else if String.eqb timeRange "30d" then 30
  else if String.eqb timeRange "90d" then 90
  else if String.eqb timeRange "1y" then 365
  else if String.eqb timeRange "all" then 730
  else 30.

(** The first sampling date of a range. *)
Definition rangeStart `{Host} (timeRange : TimeRange) (w : World) : Date :=
  startOfDay (startOfDay (subDays (endOfDay (time w)) (daysBack timeRange))).

(** What the generator needs of its host for the longer ranges, besides
    [HostOk]: going back [n] days goes back at least [24 n - 1] hours (one
    hour may be lost to a change of the clocks), and the growth factors of
    the 52 points of the longest ranges are well-formed numbers between 0
    and 2. *)
Class RangeHostOk `{Host} : Prop := {
  range_host_ok :: HostOk;
  subDays_many : forall d n, (0 < n)%Z ->
    (subDays d n <= d - (24 * n - 1) * MILLISECONDS_IN_HOUR)%Z;
  pow_range_52 : forall i, (i < 52)%nat ->
    upTo 1 (Math_pow revenueBase (ofNat i)) = true
    /\ upTo 1 (Math_pow usersBase (ofNat i)) = true
}.

(** The numbers of points that the sampling policy asks for. *)
Definition pointCounts : list nat := [1; 7; 24; 30; 52]%nat.

End RangesSpec.

Module StreamQueueSpec.

Import StreamRoute GeneratorSpec.

(** The ticks of the two timers. *)
Definition isTick (ev : Event) : bool :=
  match ev with
  | DataTick | HeartbeatTick => true
  | Abort | Cancel => false
  end.

(** The frame that a tick of a timer writes: the data timer a metric
    message whose point is within the bounds of the generator, the
    heartbeat timer the heartbeat comment. *)
Definition frameOfTick (tick : Event * Date) (f : Frame) : Prop :=
  match fst tick with
  | DataTick => exists m at_, f = FrameData (MsgMetric m at_) /\ inRange m
  | HeartbeatTick => f = FrameHeartbeat
  | Abort | Cancel => False
  end.

End StreamQueueSpec.

Module HookSpec.

Import UseMetrics.

(** The caller has been told the current connection status and every
    failure that the hook holds. *)
Definition Notified (h : Hook) : Prop :=
  connectionStatus h = last (onConnectionChangeCalls h) Status.disconnected
  /\ (forall e, error h = Some e -> In e (onErrorCalls h)).

(** What a connection status says of the runtime objects of the hook. *)
Definition StatusOk (h : Hook) : Prop :=
  match connectionStatus h with
  | Status.connected =>
      openSources h <> [] /\ pendingTimeouts h = []
      /\ reconnectAttemptsRef h = 0%nat
  | Status.reconnecting => openSources h <> [] \/ pendingTimeouts h <> []
  | Status.error => openSources h = [] /\ pendingTimeouts h = []
  | Status.disconnected => True
  end.

(** What the loading state says of the data of the hook: while it is
    [idle] no history has been stored, [success] comes with a summary and
    [error] with a failure. *)
Definition LoadingOk (h : Hook) : Prop :=
  match loading h with
  | Loading.idle => summary h = None
  | Loading.loading => True
  | Loading.success => summary h <> None
  | Loading.error => error h <> None
  end.

(** The metric messages of a source, in their order of arrival. *)
Definition metricMessages (src : nat) (points : list (Metric * Date))
  : list Event :=
  map (fun p => EsMessage src (Some (MsgMetric (fst p) (snd p)))) points.

End HookSpec.

(* ================================================================== *)
(** * Facts about numbers *)
(* ================================================================== *)

Module JSFacts.

Import JS JSSpec.

(** ** Rounding never produces [NaN] *)

Lemma iter_pos_invariant {A} (P : A -> Prop) (f : A -> A) :
  (forall x, P x -> P (f x)) ->
  forall n x, P x -> P (iter_pos f n x).
Proof.
  intros Hf; induction n as [n IH | n IH | ]; intros x Hx; simpl; auto.
Qed.

Lemma shr_1_nonneg mrs : 0 <= shr_m mrs -> 0 <= shr_m (shr_1 mrs).
Proof.
  destruct mrs as [m r s]; simpl.
  destruct m as [ | [p | p | ] | p ]; simpl; lia.
Qed.

Lemma shr_nonneg mrs e n :
  0 <= shr_m mrs -> 0 <= shr_m (fst (shr mrs e n)).
Proof.
  intros Hm; destruct n; simpl; auto.
  apply iter_pos_invariant; auto using shr_1_nonneg.
Qed.

Lemma shr_record_of_loc_m m l : shr_m (shr_record_of_loc m l) = m.
Proof. destruct l as [ | [ | | ] ]; reflexivity. Qed.

Lemma shr_fexp_nonneg m e l :
  0 <= m -> 0 <= shr_m (fst (shr_fexp prec emax m e l)).
Proof.
  intros Hm; unfold shr_fexp; apply shr_nonneg.
  now rewrite shr_record_of_loc_m.
Qed.

Lemma round_nearest_even_nonneg m l : 0 <= m -> 0 <= round_nearest_even m l.
Proof.
  intros Hm; destruct l as [ | [ | | ] ]; simpl; try lia.
  destruct (Z.even m); lia.
Qed.

Lemma binary_round_aux_rounded s m e l :
  0 <= m -> rounded s (binary_round_aux prec emax s m e l).
Proof.
  intros Hm; unfold binary_round_aux.
  pose proof (shr_fexp_nonneg m e l Hm) as H1.
  destruct (shr_fexp prec emax m e l) as [mrs' e']; simpl in H1.
  pose proof (shr_fexp_nonneg _ e' loc_Exact
                (round_nearest_even_nonneg _ (loc_of_shr_record mrs') H1)) as H2.
  destruct (shr_fexp prec emax _ e' loc_Exact) as [mrs'' e'']; simpl in H2.
  destruct (shr_m mrs'') as [ | p | p ]; try lia.
  - constructor.
  - destruct (e'' <=? emax - prec); constructor.
Qed.

Lemma binary_round_rounded s m e : rounded s (binary_round prec emax s m e).
Proof.
  unfold binary_round.
  destruct (shl_align m e _) as [mz ez].
  apply binary_round_aux_rounded; lia.
Qed.

Lemma rounded_not_nan s x : rounded s x -> isNaN x = false.
Proof. now destruct 1. Qed.

Lemma binary_normalize_not_nan m e sz :
  isNaN (binary_normalize prec emax m e sz) = false.
Proof.
  destruct m; simpl; auto; eapply rounded_not_nan, binary_round_rounded.
Qed.

(** Subtraction of finite numbers is not [NaN]. *)
Lemma sub_finite_not_nan x y :
  isFinite x = true -> isFinite y = true -> isNaN (sub x y) = false.
Proof.
  destruct x as [sx | sx | | sx mx ex], y as [sy | sy | | sy my ey];
    simpl; try discriminate; intros _ _.
  - destruct sx, sy; reflexivity.
  - reflexivity.
  - reflexivity.
  - apply binary_normalize_not_nan.
Qed.

(** Division by a finite non-zero number keeps a number a number. *)
Lemma div_finite_not_nan x sy my ey :
  isNaN x = false -> isNaN (div x (S754_finite sy my ey)) = false.
Proof.
  destruct x as [sx | sx | | sx mx ex]; simpl; try discriminate; auto.
  intros _.
  unfold SFdiv_core_binary.
  set (m' := match _ with Z0 => Zpos mx | Zpos _ => _ | Zneg _ => 0 end).
  assert (Hm' : 0 <= m').
  { subst m'. destruct (_ - _ - _); try lia. apply Z.shiftl_nonneg; lia. }
  pose proof (Z_div_mod m' (Zpos my) eq_refl) as Hdiv.
  destruct (Z.div_eucl m' (Zpos my)) as [q r].
  eapply rounded_not_nan, binary_round_aux_rounded.
  destruct Hdiv as [Heq Hr]. nia.
Qed.

(** Multiplication by a finite non-zero number keeps a number a number. *)
Lemma mul_finite_not_nan x sy my ey :
  isNaN x = false -> isNaN (mul x (S754_finite sy my ey)) = false.
Proof.
  destruct x as [sx | sx | | sx mx ex]; simpl; try discriminate; auto.
  intros _. eapply rounded_not_nan, binary_round_aux_rounded; lia.
Qed.

(** ** Digits *)

Lemma digits2_pos_spec (p : positive) :
  2 ^ (Zpos (digits2_pos p) - 1) <= Zpos p < 2 ^ Zpos (digits2_pos p).
Proof.
  induction p as [p IH | p IH | ]; cbn [digits2_pos].
  - rewrite Pos2Z.inj_succ.
    replace (Z.succ (Zpos (digits2_pos p)) - 1) with (Z.succ (Zpos (digits2_pos p) - 1)) by lia.
    rewrite !Z.pow_succ_r by lia. lia.
  - rewrite Pos2Z.inj_succ.
    replace (Z.succ (Zpos (digits2_pos p)) - 1) with (Z.succ (Zpos (digits2_pos p) - 1)) by lia.
    rewrite !Z.pow_succ_r by lia. lia.
  - simpl. lia.
Qed.

Lemma pow2_lt_mono_inv (a b : Z) : 0 <= b -> 2 ^ a < 2 ^ b -> a < b.
Proof.
  intros Hb H. destruct (Z_lt_le_dec a b) as [Hlt | Hle]; [exact Hlt | ].
  assert (2 ^ b <= 2 ^ a) by (apply Z.pow_le_mono_r; lia). lia.
Qed.

(** A positive number below [2 ^ a] has at most [a] digits, and a number
    from [2 ^ a] on has more. *)
Lemma digits_le (p : positive) (a : Z) :
  Zpos p < 2 ^ a -> Zpos (digits2_pos p) <= a.
Proof.
  intros H. pose proof (digits2_pos_spec p) as [Hlo _].
  assert (Ha : 0 <= a).
  { destruct (Z_lt_le_dec a 0) as [Hn | ]; [ | lia].
    rewrite Z.pow_neg_r in H by lia. lia. }
  assert (Hlt : 2 ^ (Zpos (digits2_pos p) - 1) < 2 ^ a) by lia.
  apply pow2_lt_mono_inv in Hlt; lia.
Qed.

Lemma digits_gt (p : positive) (a : Z) :
  2 ^ a <= Zpos p -> a < Zpos (digits2_pos p).
Proof.
  intros H. pose proof (digits2_pos_spec p) as [_ Hhi].
  apply pow2_lt_mono_inv; lia.
Qed.

(** ** Shifts *)

Lemma shr_1_m mrs : 0 <= shr_m mrs -> shr_m (shr_1 mrs) = shr_m mrs / 2.
Proof.
  destruct mrs as [m r s]; simpl.
  destruct m as [ | [p | p | ] | p ]; cbn [shr_m]; intros H; try lia.
  - reflexivity.
  - apply Z.div_unique with 1; lia.
  - apply Z.div_unique with 0; lia.
  - reflexivity.
Qed.

Lemma iter_shr_1_m (p : positive) : forall mrs,
  0 <= shr_m mrs -> shr_m (iter_pos shr_1 p mrs) = shr_m mrs / 2 ^ Zpos p.
Proof.
  assert (Hnn : forall q mrs, 0 <= shr_m mrs -> 0 <= shr_m (iter_pos shr_1 q mrs)).
  { intros q mrs. apply (iter_pos_invariant (fun x => 0 <= shr_m x)).
    apply shr_1_nonneg. }
  assert (Hp2 : forall q, 0 < 2 ^ Zpos q) by (intros; apply Z.pow_pos_nonneg; lia).
  induction p as [p IH | p IH | ]; intros mrs Hm; cbn [iter_pos].
  - rewrite IH, IH, shr_1_m by auto using shr_1_nonneg.
    pose proof (Hp2 p).
    rewrite !Z.div_div by lia.
    f_equal. replace (Zpos p~1) with (1 + Zpos p + Zpos p) by lia.
    rewrite !Z.pow_add_r by lia. change (2 ^ 1) with 2. ring.
  - rewrite IH, IH by auto.
    pose proof (Hp2 p).
    rewrite !Z.div_div by lia.
    f_equal. replace (Zpos p~0) with (Zpos p + Zpos p) by lia.
    rewrite !Z.pow_add_r by lia. ring.
  - rewrite shr_1_m by auto. reflexivity.
Qed.

(** The outcome of [shr_fexp] on a non-negative mantissa: the mantissa is
    shifted to the exponent that the format gives its magnitude, when that
    exponent is above the one it has. *)
Lemma shr_fexp_spec (m e : Z) (l : location) :
  0 <= m ->
  let n := fexp prec emax (Zdigits2 m + e) - e in
  (n <= 0 -> shr_fexp prec emax m e l = (shr_record_of_loc m l, e))
  /\ (0 < n ->
      shr_m (fst (shr_fexp prec emax m e l)) = m / 2 ^ n
      /\ snd (shr_fexp prec emax m e l) = e + n).
Proof.
  intros Hm n. unfold shr_fexp. fold n. split; intros Hn.
  - destruct n; try lia; reflexivity.
  - destruct n as [ | p | p]; try lia. cbn [shr fst snd].
    rewrite iter_shr_1_m by (rewrite shr_record_of_loc_m; exact Hm).
    now rewrite shr_record_of_loc_m.
Qed.

Lemma round_nearest_even_bounds (m : Z) (l : location) :
  m <= round_nearest_even m l <= m + 1.
Proof.
  destruct l as [ | [ | | ] ]; simpl; try lia.
  destruct (Z.even m); lia.
Qed.

(** ** Powers of two *)

Lemma pow2_pos (a : Z) : 0 <= a -> 0 < 2 ^ a.
Proof. intros; apply Z.pow_pos_nonneg; lia. Qed.

Lemma pow2_split (a n : Z) : 0 <= n <= a -> 2 ^ a = 2 ^ n * 2 ^ (a - n).
Proof. intros H. rewrite <- Z.pow_add_r by lia. f_equal; lia. Qed.

Lemma div_pow2_lt (m a n : Z) :
  0 <= n <= a -> m < 2 ^ a -> m / 2 ^ n < 2 ^ (a - n).
Proof.
  intros Hn Hm. apply Z.div_lt_upper_bound; [now apply pow2_pos | ].
  now rewrite <- pow2_split.
Qed.

Lemma div_pow2_le (m a n : Z) :
  0 <= n <= a -> m <= 2 ^ a -> m / 2 ^ n <= 2 ^ (a - n).
Proof.
  intros Hn Hm.
  rewrite (pow2_split a n Hn) in Hm.
  apply Z.div_le_upper_bound; [now apply pow2_pos | exact Hm].
Qed.

(** The exponent of a bound is not negative, for a positive number. *)
Lemma bound_exponent (m a : Z) : 0 < m -> m <= 2 ^ a -> 0 <= a.
Proof.
  intros Hm H. destruct (Z_lt_le_dec a 0) as [Hn | ]; [ | lia].
  rewrite Z.pow_neg_r in H by lia. lia.
Qed.

(** The digits of a shifted mantissa. *)
Lemma digits_shift (p q : positive) (n : Z) :
  0 <= n -> Zpos p / 2 ^ n = Zpos q ->
  Zpos (digits2_pos q) = Zpos (digits2_pos p) - n.
Proof.
  intros Hn Hq.
  pose proof (digits2_pos_spec p) as [Hlo Hhi].
  set (d := Zpos (digits2_pos p)) in *.
  assert (Hpn : 2 ^ n <= Zpos p).
  { destruct (Z_lt_le_dec (Zpos p) (2 ^ n)) as [Hlt | ]; [ | lia].
    rewrite Z.div_small in Hq by lia. lia. }
  assert (Hd : n < d) by (now apply digits_gt).
  apply Z.le_antisymm.
  - apply digits_le. rewrite <- Hq. apply div_pow2_lt; lia.
  - assert (H : d - n - 1 < Zpos (digits2_pos q)); [ | lia].
    apply digits_gt. rewrite <- Hq.
    apply Z.div_le_lower_bound; [now apply pow2_pos | ].
    rewrite <- Z.pow_add_r by lia.
    replace (n + (d - n - 1)) with (d - 1) by lia. exact Hlo.
Qed.

(** ** Rounding within a bound *)

Lemma fexp_eq (x : Z) : fexp prec emax x = Z.max (x - 53) (-1074).
Proof. reflexivity. Qed.

Lemma digits_mono (p q : positive) :
  Zpos p <= Zpos q -> Zpos (digits2_pos p) <= Zpos (digits2_pos q).
Proof.
  intros H. pose proof (digits2_pos_spec p) as [Hlo _].
  assert (Zpos (digits2_pos p) - 1 < Zpos (digits2_pos q)); [ | lia].
  apply digits_gt. lia.
Qed.

Lemma digits_bound (q : positive) (a : Z) :
  Zpos q <= 2 ^ a -> Zpos (digits2_pos q) <= a + 1.
Proof.
  intros H. assert (Ha : 0 <= a) by (apply (bound_exponent (Zpos q)); lia).
  apply digits_le. rewrite Z.pow_add_r by lia. change (2 ^ 1) with 2. lia.
Qed.

(** The second shift of [binary_round_aux], which renormalises a rounded
    mantissa, and the final test of the exponent. *)
Lemma second_shift (s : bool) (q : positive) (e1 k : Z) :
  e1 <= fexp prec emax (Zpos (digits2_pos q) + e1) ->
  Zpos q <= 2 ^ (k - e1) ->
  k <= 1023 ->
  bounded_as s k
    (let '(mrs2, e2) := shr_fexp prec emax (Zpos q) e1 loc_Exact in
     match shr_m mrs2 with
     | Z0 => S754_zero s
     | Zpos m => if e2 <=? emax - prec then S754_finite s m e2
                 else S754_infinity s
     | Zneg _ => S754_nan
     end).
Proof.
  intros Hn Hq Hk.
  set (dq := Zpos (digits2_pos q)) in *.
  assert (Hdq : dq <= k - e1 + 1) by (now apply digits_bound).
  destruct (shr_fexp_spec (Zpos q) e1 loc_Exact ltac:(lia)) as [H0 Hpos].
  cbn [Zdigits2] in H0, Hpos. fold dq in H0, Hpos.
  rewrite fexp_eq in Hn, H0, Hpos.
  destruct (Z_le_gt_dec (Z.max (dq + e1 - 53) (-1074) - e1) 0) as [Hz | Hz].
  - (* no shift *)
    rewrite (H0 Hz). cbn [shr_record_of_loc shr_m].
    change (emax - prec) with 971.
    assert (He : (e1 <=? 971) = true) by (apply Z.leb_le; lia).
    rewrite He. cbn [bounded_as]. split; [reflexivity | split; [ | exact Hq]].
    unfold bounded, canonical_mantissa. fold dq. rewrite fexp_eq.
    change (emax - prec) with 971. rewrite He, andb_true_r.
    apply Z.eqb_eq. lia.
  - (* a shift, after a carry *)
    destruct (Hpos ltac:(lia)) as [Hm2 He2].
    destruct (shr_fexp prec emax (Zpos q) e1 loc_Exact) as [mrs2 e2].
    cbn [fst snd] in Hm2, He2.
    set (n2 := Z.max (dq + e1 - 53) (-1074) - e1) in *.
    assert (Hdiv : 0 <= Zpos q / 2 ^ n2) by (apply Z.div_pos; [lia | apply pow2_pos; lia]).
    destruct (shr_m mrs2) as [ | m2 | m2]; [reflexivity | | lia].
    assert (Hd2 : Zpos (digits2_pos m2) = dq - n2)
      by (apply (digits_shift q m2 n2); [lia | now symmetry]).
    change (emax - prec) with 971.
    assert (He : (e2 <=? 971) = true) by (apply Z.leb_le; lia).
    rewrite He. cbn [bounded_as]. split; [reflexivity | split].
    + unfold bounded, canonical_mantissa. rewrite Hd2, fexp_eq.
      change (emax - prec) with 971. rewrite He, andb_true_r.
      apply Z.eqb_eq. lia.
    + rewrite Hm2.
      assert (Hn2 : n2 <= k - e1).
      { destruct (Z_lt_le_dec (k - e1) n2) as [Hlt | ]; [ | lia].
        assert (Hk0 : 0 <= k - e1) by (apply (bound_exponent (Zpos q)); lia).
        assert (2 ^ (k - e1) < 2 ^ n2) by (apply Z.pow_lt_mono_r; lia).
        rewrite Z.div_small in Hm2 by lia. lia. }
      replace (k - e2) with (k - e1 - n2) by lia.
      apply div_pow2_le; lia.
Qed.

(** Rounding a mantissa that has at least the precision of the format: the
    result is a zero or a well-formed finite number, within every bound
    [2 ^ k] that the exact value is below. *)
Lemma round_core (s : bool) (m : positive) (e k : Z) :
  e <= fexp prec emax (Zpos (digits2_pos m) + e) ->
  Zpos m < 2 ^ (k - e) ->
  -1074 <= k <= 1023 ->
  bounded_as s k (binary_round_aux prec emax s (Zpos m) e loc_Exact).
Proof.
  intros Hn Hm Hk.
  unfold binary_round_aux.
  set (d := Zpos (digits2_pos m)) in *.
  assert (Hd : d <= k - e) by (now apply digits_le).
  destruct (shr_fexp_spec (Zpos m) e loc_Exact ltac:(lia)) as [H0 Hpos].
  cbn [Zdigits2] in H0, Hpos. fold d in H0, Hpos.
  rewrite fexp_eq in Hn, H0, Hpos.
  set (fe := Z.max (d + e - 53) (-1074)) in *.
  destruct (Z_le_gt_dec (fe - e) 0) as [Hz | Hz].
  - (* the mantissa is at its exponent already: nothing is rounded *)
    rewrite (H0 Hz). cbn [shr_record_of_loc shr_m loc_of_shr_record round_nearest_even].
    apply second_shift; [fold d; rewrite fexp_eq; fold fe; lia | lia | lia].
  - destruct (Hpos ltac:(lia)) as [Hm1 He1].
    destruct (shr_fexp prec emax (Zpos m) e loc_Exact) as [mrs1 e1].
    cbn [fst snd] in Hm1, He1.
    set (n := fe - e) in *.
    pose proof (round_nearest_even_bounds (shr_m mrs1) (loc_of_shr_record mrs1))
      as Hr.
    set (m1' := round_nearest_even (shr_m mrs1) (loc_of_shr_record mrs1)) in *.
    assert (Hm1nn : 0 <= Zpos m / 2 ^ n)
      by (apply Z.div_pos; [lia | apply pow2_pos; lia]).
    assert (Hkfe : n <= k - e) by lia.
    assert (Hm1lt : Zpos m / 2 ^ n < 2 ^ (k - e - n)) by (apply div_pow2_lt; lia).
    replace (k - e - n) with (k - e1) in Hm1lt by lia.
    destruct m1' as [ | q | q] eqn:Hq; [ | | lia].
    + (* rounded to zero *)
      assert (Hs : shr_fexp prec emax 0 e1 loc_Exact
                   = (shr_record_of_loc 0 loc_Exact, e1)).
      { apply shr_fexp_spec; [lia | ]. cbn [Zdigits2]. rewrite fexp_eq. lia. }
      rewrite Hs. reflexivity.
    + apply second_shift; [ | lia | lia].
      rewrite fexp_eq.
      assert (Hdq : d + e <= Zpos (digits2_pos q) + e1); [ | lia].
      destruct (shr_m mrs1) as [ | q1 | q1] eqn:Hq1; [ | | lia].
      * (* the shift left nothing: the value is below the least exponent *)
        assert (Hlt : Zpos m < 2 ^ n).
        { destruct (Z_lt_le_dec (Zpos m) (2 ^ n)) as [ | Hge]; [assumption | ].
          assert (1 <= Zpos m / 2 ^ n); [ | lia].
          apply Z.div_le_lower_bound; [apply pow2_pos; lia | lia]. }
        apply digits_le in Hlt. fold d in Hlt.
        pose proof (Pos2Z.is_pos (digits2_pos q)). lia.
      * assert (Hd1 : Zpos (digits2_pos q1) = d - n)
          by (apply (digits_shift m q1 n); [lia | now symmetry]).
        assert (Hmono : Zpos (digits2_pos q1) <= Zpos (digits2_pos q))
          by (apply digits_mono; lia).
        lia.
Qed.

(** ** Magnitudes *)

Lemma bounded_as_mag s k x :
  bounded_as s k x -> mag_le k x = true /\ sign_of x = s.
Proof.
  destruct x as [s' | s' | | s' m e]; cbn [bounded_as mag_le sign_of].
  - intros Hs; split; [reflexivity | exact Hs].
  - intros [].
  - intros [].
  - intros (Hs & Hb & Hm). split; [ | exact Hs].
    apply andb_true_iff. split; [exact Hb | now apply Z.leb_le].
Qed.

Lemma mag_le_weaken k k' x : k <= k' -> mag_le k x = true -> mag_le k' x = true.
Proof.
  intros Hk. destruct x as [s | s | | s m e]; simpl; auto.
  rewrite !andb_true_iff, !Z.leb_le. intros [Hb Hm]. split; [exact Hb | ].
  assert (0 <= k - e) by (apply (bound_exponent (Zpos m)); lia).
  assert (2 ^ (k - e) <= 2 ^ (k' - e)) by (apply Z.pow_le_mono_r; lia). lia.
Qed.

Lemma mag_le_lt k x : mag_le k x = true -> mag_lt (k + 1) x = true.
Proof.
  destruct x as [s | s | | s m e]; simpl; auto.
  rewrite !andb_true_iff, Z.leb_le, Z.ltb_lt. intros [Hb Hm]. split; [exact Hb | ].
  assert (0 <= k - e) by (apply (bound_exponent (Zpos m)); lia).
  replace (k + 1 - e) with (k - e + 1) by lia.
  rewrite Z.pow_add_r by lia. change (2 ^ 1) with 2. lia.
Qed.

(** ** Multiplication *)

Lemma canonical_cases (m : positive) (e : Z) :
  bounded prec emax m e = true ->
  (Zpos (digits2_pos m) = 53 /\ -1074 <= e <= 971)
  \/ (Zpos (digits2_pos m) <= 53 /\ e = -1074).
Proof.
  unfold bounded, canonical_mantissa. rewrite andb_true_iff, Z.eqb_eq, Z.leb_le.
  rewrite fexp_eq. change (emax - prec) with 971. lia.
Qed.

Lemma digits_mul (p q : positive) :
  Zpos (digits2_pos p) + Zpos (digits2_pos q) - 1
  <= Zpos (digits2_pos (p * q)).
Proof.
  pose proof (digits2_pos_spec p) as [Hp _].
  pose proof (digits2_pos_spec q) as [Hq _].
  pose proof (Pos2Z.is_pos (digits2_pos p)).
  pose proof (Pos2Z.is_pos (digits2_pos q)).
  assert (H1 : Zpos (digits2_pos p) + Zpos (digits2_pos q) - 2
               < Zpos (digits2_pos (p * q))); [ | lia].
  apply digits_gt. rewrite Pos2Z.inj_mul.
  replace (Zpos (digits2_pos p) + Zpos (digits2_pos q) - 2)
    with ((Zpos (digits2_pos p) - 1) + (Zpos (digits2_pos q) - 1)) by lia.
  rewrite Z.pow_add_r by lia.
  apply Z.mul_le_mono_nonneg; try lia; apply Z.pow_nonneg; lia.
Qed.

(** The product of a number of magnitude at most [2 ^ a] and a number of
    magnitude below [2 ^ b]. *)
Lemma mul_mag (a b : Z) (x y : number) :
  mag_le a x = true -> mag_lt b y = true ->
  -1074 <= a + b <= 1023 ->
  mag_le (a + b) (mul x y) = true
  /\ sign_of (mul x y) = xorb (sign_of x) (sign_of y).
Proof.
  intros Hx Hy Hk.
  destruct x as [sx | sx | | sx mx ex], y as [sy | sy | | sy my ey];
    simpl in Hx, Hy; try discriminate; try (split; reflexivity).
  apply andb_true_iff in Hx as [Hbx Hmx], Hy as [Hby Hmy].
  apply Z.leb_le in Hmx. apply Z.ltb_lt in Hmy.
  apply bounded_as_mag. unfold mul; cbn [SFmul].
  assert (Hax : 0 <= a - ex) by (apply (bound_exponent (Zpos mx)); lia).
  assert (Hbe : 0 <= b - ey) by (apply (bound_exponent (Zpos my)); lia).
  apply round_core; [ | | exact Hk].
  - rewrite fexp_eq. pose proof (digits_mul mx my).
    destruct (canonical_cases mx ex Hbx), (canonical_cases my ey Hby); lia.
  - rewrite Pos2Z.inj_mul.
    replace (a + b - (ex + ey)) with ((a - ex) + (b - ey)) by lia.
    rewrite Z.pow_add_r by lia.
    apply Z.le_lt_trans with (2 ^ (a - ex) * Zpos my);
      [apply Z.mul_le_mono_nonneg_r | apply Z.mul_lt_mono_pos_l]; lia.
Qed.

(** ** Addition and subtraction *)

Lemma pos_iter_xO (m d : positive) :
  Zpos (Pos.iter xO m d) = Zpos m * 2 ^ Zpos d.
Proof.
  induction d as [ | d IH] using Pos.peano_ind.
  - simpl. lia.
  - rewrite Pos.iter_succ, Pos2Z.inj_xO, IH, Pos2Z.inj_succ, Z.pow_succ_r by lia.
    ring.
Qed.

Lemma shl_align_fst (mx : positive) (ex ez : Z) :
  ez <= ex -> Zpos (fst (shl_align mx ex ez)) = Zpos mx * 2 ^ (ex - ez).
Proof.
  intros H. unfold shl_align.
  destruct (ez - ex) as [ | d | d] eqn:Hd; try lia; cbn [fst].
  - replace (ex - ez) with 0 by lia. simpl. lia.
  - rewrite pos_iter_xO. f_equal. f_equal. lia.
Qed.

Lemma shl_align_snd (mx : positive) (ex ez : Z) :
  snd (shl_align mx ex ez) = Z.min ex ez.
Proof.
  unfold shl_align.
  destruct (ez - ex) as [ | d | d] eqn:Hd; cbn [snd]; lia.
Qed.

Lemma digits_shl (p q : positive) (j : Z) :
  0 <= j -> Zpos q = Zpos p * 2 ^ j ->
  Zpos (digits2_pos q) = Zpos (digits2_pos p) + j.
Proof.
  intros Hj Hq. pose proof (digits2_pos_spec p) as [Hlo Hhi].
  pose proof (Pos2Z.is_pos (digits2_pos p)).
  pose proof (pow2_pos j Hj).
  apply Z.le_antisymm.
  - apply digits_le. rewrite Hq, Z.pow_add_r by lia.
    apply Z.mul_lt_mono_pos_r; lia.
  - assert (Zpos (digits2_pos p) + j - 1 < Zpos (digits2_pos q)); [ | lia].
    apply digits_gt. rewrite Hq.
    replace (Zpos (digits2_pos p) + j - 1) with (Zpos (digits2_pos p) - 1 + j) by lia.
    rewrite Z.pow_add_r by lia.
    apply Z.mul_le_mono_nonneg_r; lia.
Qed.

(** [binary_round] brings the mantissa to the precision of the format
    before it rounds. *)
Lemma binary_round_bounded (s : bool) (m : positive) (e k : Z) :
  Zpos m < 2 ^ (k - e) ->
  -1074 <= k <= 1023 ->
  bounded_as s k (binary_round prec emax s m e).
Proof.
  intros Hm Hk. unfold binary_round. rewrite fexp_eq.
  set (fe := Z.max (Zpos (digits2_pos m) + e - 53) (-1074)).
  assert (Hke : 0 <= k - e) by (apply (bound_exponent (Zpos m)); lia).
  pose proof (shl_align_snd m e fe) as Hsnd.
  destruct (Z_le_gt_dec fe e) as [Hle | Hgt].
  - pose proof (shl_align_fst m e fe Hle) as Hfst.
    destruct (shl_align m e fe) as [mz ez]. cbn [fst snd] in Hfst, Hsnd.
    assert (Hez : ez = fe) by lia. clear Hsnd. subst ez.
    assert (Hd : Zpos (digits2_pos mz) = Zpos (digits2_pos m) + (e - fe))
      by (apply (digits_shl m mz); [lia | exact Hfst]).
    apply round_core; [ | | exact Hk].
    + rewrite Hd, fexp_eq. lia.
    + rewrite Hfst. replace (k - fe) with ((k - e) + (e - fe)) by lia.
      rewrite Z.pow_add_r by lia.
      apply Z.mul_lt_mono_pos_r; [apply pow2_pos; lia | exact Hm].
  - assert (Hsh : shl_align m e fe = (m, e)).
    { unfold shl_align. destruct (fe - e) eqn:Hd; try lia; reflexivity. }
    rewrite Hsh. apply round_core; [rewrite fexp_eq; lia | exact Hm | exact Hk].
Qed.

Lemma binary_normalize_bounded (S e k : Z) :
  Z.abs S < 2 ^ (k - e) ->
  -1074 <= k <= 1023 ->
  bounded_as (S <? 0) k (binary_normalize prec emax S e false).
Proof.
  intros HS Hk. destruct S as [ | p | p]; cbn [binary_normalize].
  - reflexivity.
  - apply binary_round_bounded; [exact HS | exact Hk].
  - apply binary_round_bounded; [exact HS | exact Hk].
Qed.

(** The sum and the difference of two finite numbers, as the rounding of
    the exact sum of their aligned mantissas. *)
Lemma add_finite sx mx ex sy my ey :
  add (S754_finite sx mx ex) (S754_finite sy my ey)
  = binary_normalize prec emax
      (cond_Zopp sx (Zpos mx * 2 ^ (ex - Z.min ex ey))
       + cond_Zopp sy (Zpos my * 2 ^ (ey - Z.min ex ey)))
      (Z.min ex ey) false.
Proof.
  unfold add; cbn [SFadd]; cbv zeta.
  rewrite !shl_align_fst by lia. reflexivity.
Qed.

Lemma sub_finite sx mx ex sy my ey :
  sub (S754_finite sx mx ex) (S754_finite sy my ey)
  = binary_normalize prec emax
      (cond_Zopp sx (Zpos mx * 2 ^ (ex - Z.min ex ey))
       - cond_Zopp sy (Zpos my * 2 ^ (ey - Z.min ex ey)))
      (Z.min ex ey) false.
Proof.
  unfold sub; cbn [SFsub]; cbv zeta.
  rewrite !shl_align_fst by lia. reflexivity.
Qed.

(** ** The shapes of the generator *)

Lemma pow2_double (a : Z) : 0 <= a -> 2 ^ (a + 1) = 2 * 2 ^ a.
Proof. intros; rewrite Z.pow_add_r by lia; change (2 ^ 1) with 2; ring. Qed.

(** [1 + u] for [|u| <= 1/2] is a well-formed number between 1/2 and
    3/2. *)
Lemma one_plus (u : number) :
  mag_le (-1) u = true ->
  mag_le 1 (add n1 u) = true /\ sign_of (add n1 u) = false.
Proof.
  intros Hu. destruct u as [s | s | | s m e]; try discriminate Hu.
  - split; reflexivity.
  - cbn [mag_le] in Hu. apply andb_true_iff in Hu as [Hb Hm].
    apply Z.leb_le in Hm.
    assert (He : 0 <= -1 - e) by (apply (bound_exponent (Zpos m)); lia).
    unfold n1. rewrite add_finite.
    set (ez := Z.min (-52) e).
    set (P := 2 ^ (-1 - ez)).
    assert (HP : 0 < P) by (apply pow2_pos; lia).
    assert (H1 : 4503599627370496 * 2 ^ (-52 - ez) = 2 * P).
    { change 4503599627370496 with (2 ^ 52). rewrite <- Z.pow_add_r by lia.
      replace (52 + (-52 - ez)) with (-1 - ez + 1) by lia.
      now rewrite pow2_double by lia. }
    assert (H2 : Zpos m * 2 ^ (e - ez) <= P).
    { unfold P. replace (-1 - ez) with ((-1 - e) + (e - ez)) by lia.
      rewrite Z.pow_add_r by lia.
      apply Z.mul_le_mono_nonneg_r; [apply Z.pow_nonneg; lia | exact Hm]. }
    assert (H3 : 0 < Zpos m * 2 ^ (e - ez))
      by (apply Z.mul_pos_pos; [lia | apply pow2_pos; lia]).
    assert (H4 : 2 ^ (1 - ez) = 4 * P).
    { unfold P. replace (1 - ez) with (-1 - ez + 1 + 1) by lia.
      rewrite !pow2_double by lia. ring. }
    cbn [cond_Zopp]. rewrite H1.
    set (T := cond_Zopp s (Zpos m * 2 ^ (e - ez))).
    assert (HT : - P <= T <= P) by (unfold T; destruct s; cbn [cond_Zopp]; lia).
    replace false with (2 * P + T <? 0) at 3 by (apply Z.ltb_ge; lia).
    apply bounded_as_mag, binary_normalize_bounded; [ | lia].
    rewrite H4. lia.
Qed.

(** [r - 0.5] for [0 <= r < 1] is a well-formed number of magnitude at most
    1/2. *)
Lemma minus_half (r : number) :
  mag_lt 0 r = true -> sign_of r = false ->
  mag_le (-1) (sub r n0_5) = true.
Proof.
  intros Hr Hs. destruct r as [s | s | | s m e]; try discriminate Hr.
  - reflexivity.
  - cbn [mag_lt] in Hr. apply andb_true_iff in Hr as [Hb Hm].
    apply Z.ltb_lt in Hm. cbn [sign_of] in Hs. subst s.
    assert (He : 0 <= 0 - e) by (apply (bound_exponent (Zpos m)); lia).
    unfold n0_5. rewrite sub_finite.
    set (ez := Z.min e (-53)).
    set (P := 2 ^ (-1 - ez)).
    assert (HP : 0 < P) by (apply pow2_pos; lia).
    assert (H1 : 4503599627370496 * 2 ^ (-53 - ez) = P).
    { change 4503599627370496 with (2 ^ 52). rewrite <- Z.pow_add_r by lia.
      unfold P. f_equal. lia. }
    assert (H2 : Zpos m * 2 ^ (e - ez) < 2 * P).
    { unfold P. rewrite <- pow2_double by lia.
      replace (-1 - ez + 1) with ((0 - e) + (e - ez)) by lia.
      rewrite Z.pow_add_r by lia.
      apply Z.mul_lt_mono_pos_r; [apply pow2_pos; lia | exact Hm]. }
    assert (H3 : 0 < Zpos m * 2 ^ (e - ez))
      by (apply Z.mul_pos_pos; [lia | apply pow2_pos; lia]).
    cbn [cond_Zopp]. rewrite H1.
    eapply proj1, bounded_as_mag, binary_normalize_bounded; [ | lia].
    fold P. lia.
Qed.

Lemma jitter (r c : number) :
  mag_lt 0 r = true -> sign_of r = false -> mag_lt (-2) c = true ->
  let v := add n1 (mul (mul (sub r n0_5) n2) c) in
  mag_le 1 v = true /\ sign_of v = false.
Proof.
  intros Hr Hs Hc v. subst v. apply one_plus.
  change (-1) with (1 + -2).
  apply mul_mag; [ | exact Hc | lia].
  change 1 with (-1 + 2) at 1.
  apply mul_mag; [now apply minus_half | reflexivity | lia].
Qed.

Lemma swing (t c : number) :
  mag_le 0 t = true -> mag_lt (-1) c = true ->
  let s := add n1 (mul t c) in
  mag_le 1 s = true /\ sign_of s = false.
Proof.
  intros Ht Hc s. subst s. apply one_plus.
  change (-1) with (0 + -1). apply mul_mag; [exact Ht | exact Hc | lia].
Qed.

(** The product of two non-negative numbers. *)
Lemma mul_nonneg (a b : Z) (x y : number) :
  mag_le a x = true -> sign_of x = false ->
  mag_le b y = true -> sign_of y = false ->
  -1074 <= a + (b + 1) <= 1023 ->
  mag_le (a + (b + 1)) (mul x y) = true /\ sign_of (mul x y) = false.
Proof.
  intros Hx Hsx Hy Hsy Hk.
  destruct (mul_mag a (b + 1) x y Hx (mag_le_lt b y Hy) Hk) as [Hm Hs].
  split; [exact Hm | now rewrite Hs, Hsx, Hsy].
Qed.

Lemma mag_le_not_nan k x : mag_le k x = true -> isNaN x = false.
Proof. destruct x; simpl; auto; discriminate. Qed.

(** ** Comparisons *)

Lemma dy_compare_scale (M1 e1 M2 e2 c : Z) :
  0 <= e1 + c -> 0 <= e2 + c ->
  dy_compare M1 e1 M2 e2 = (M1 * 2 ^ (e1 + c) ?= M2 * 2 ^ (e2 + c)).
Proof.
  intros H1 H2. unfold dy_compare.
  remember (Z.min e1 e2) as e0 eqn:He0.
  replace (e1 + c) with ((e1 - e0) + (e0 + c)) by lia.
  replace (e2 + c) with ((e2 - e0) + (e0 + c)) by lia.
  rewrite (Z.pow_add_r 2 (e1 - e0)), (Z.pow_add_r 2 (e2 - e0)) by lia.
  rewrite !Z.mul_assoc.
  apply Zmult_compare_compat_r. apply Z.lt_gt, pow2_pos; lia.
Qed.

Lemma compare_antisym (x y : number) :
  compare y x = option_map CompOpp (compare x y).
Proof.
  unfold compare.
  destruct (val x) as [ | s1 | M1 e1], (val y) as [ | s2 | M2 e2]; simpl; auto.
  - destruct s1, s2; reflexivity.
  - destruct s1; reflexivity.
  - destruct s2; reflexivity.
  - unfold dy_compare. rewrite (Z.min_comm e2 e1).
    now rewrite <- Z.compare_antisym.
Qed.

Lemma compare_some (x y : number) :
  isNaN x = false -> isNaN y = false -> exists c, compare x y = Some c.
Proof.
  unfold compare.
  destruct x as [ | | | ], y as [ | | | ]; simpl; try discriminate; eauto.
Qed.

Lemma leb_of_gt (x y : number) : compare x y = Some Gt -> leb y x = true.
Proof.
  intros H. unfold leb. rewrite (compare_antisym x y), H. reflexivity.
Qed.

(** A number that is not [NaN] and has no sign is at least 0. *)
Lemma geb_zero (x : number) :
  isNaN x = false -> sign_of x = false -> geb x n0 = true.
Proof.
  destruct x as [s | s | | s m e]; simpl; try discriminate; intros _ ->; auto.
  unfold geb, leb, compare; simpl.
  rewrite (dy_compare_scale 0 0 (Zpos m) e (Z.max 0 (- e))) by lia.
  assert (0 < Zpos m * 2 ^ (e + Z.max 0 (- e)))
    by (apply Z.mul_pos_pos; [lia | apply pow2_pos; lia]).
  assert (Hc : (0 * 2 ^ (0 + Z.max 0 (- e)) ?= Zpos m * 2 ^ (e + Z.max 0 (- e)))
               = Lt) by (apply Z.compare_lt_iff; lia).
  rewrite Hc. reflexivity.
Qed.

Lemma Math_round_nonneg (x : number) :
  isNaN x = false -> sign_of x = false -> geb (Math_round x) n0 = true.
Proof.
  intros Hn Hs. destruct x as [s | s | | s m e]; try (now apply geb_zero).
  cbn [sign_of] in Hs; subst s. cbn [Math_round cond_Zopp].
  destruct (0 <=? e) eqn:He; [now apply geb_zero | ].
  apply Z.leb_gt in He.
  assert (Hz : 0 <= (2 * Zpos m + 2 ^ (- e)) / 2 ^ (- e + 1)).
  { apply Z.div_pos; [ | apply pow2_pos; lia].
    pose proof (pow2_pos (- e)); lia. }
  destruct ((2 * Zpos m + 2 ^ (- e)) / 2 ^ (- e + 1)) as [ | z | z]; try lia.
  - reflexivity.
  - change (Zpos z =? 0) with false; cbv iota.
    unfold ofZ, binary_normalize.
    pose proof (binary_round_rounded false z 0) as Hr.
    apply geb_zero; [now apply (rounded_not_nan false) | now destruct Hr].
Qed.

(** ** The clamp of the engagement rate *)

(** [Math.max (40, Math.min (90, x))] is between 40 and 90 when [x] is a
    number. *)
Lemma clamp_40_90 (x : number) :
  isNaN x = false ->
  let y := Math_max n40 (Math_min n90 x) in
  leb n40 y = true /\ leb y n90 = true.
Proof.
  intros Hx.
  assert (Hmin : isNaN (Math_min n90 x) = false /\ leb (Math_min n90 x) n90 = true).
  { unfold Math_min.
    destruct (compare_some n90 x eq_refl Hx) as [c Hc]. rewrite Hc.
    destruct c.
    - destruct x as [[ | ] | | | ]; split; reflexivity.
    - split; reflexivity.
    - split; [exact Hx | now apply leb_of_gt]. }
  destruct Hmin as [Hz Hle]. set (z := Math_min n90 x) in *.
  cbv zeta. unfold Math_max.
  destruct (compare_some n40 z eq_refl Hz) as [c Hc]. rewrite Hc.
  destruct c; cbv iota.
  - split; reflexivity.
  - split; [ | exact Hle]. unfold leb. now rewrite Hc.
  - split; reflexivity.
Qed.

Lemma ratio_table (p : positive) :
  4000 <= Zpos p <= 9000 ->
  leb n40 (ratio p 100) && leb (ratio p 100) n90 = true.
Proof.
  intros Hp.
  set (check := fun i : nat =>
         let q := Z.to_pos (4000 + Z.of_nat i) in
         leb n40 (ratio q 100) && leb (ratio q 100) n90).
  assert (Hall : forallb check (seq 0 (Z.to_nat 5001)) = true)
    by (vm_compute; reflexivity).
  rewrite forallb_forall in Hall.
  specialize (Hall (Z.to_nat (Zpos p - 4000))).
  unfold check in Hall.
  replace (Z.to_pos (4000 + Z.of_nat (Z.to_nat (Zpos p - 4000)))) with p in Hall
    by lia.
  apply Hall. apply in_seq. lia.
Qed.

Lemma leb_finite s1 m1 e1 s2 m2 e2 (c : Z) :
  0 <= e1 + c -> 0 <= e2 + c ->
  leb (S754_finite s1 m1 e1) (S754_finite s2 m2 e2) = true ->
  cond_Zopp s1 (Zpos m1) * 2 ^ (e1 + c) <= cond_Zopp s2 (Zpos m2) * 2 ^ (e2 + c).
Proof.
  intros H1 H2. unfold leb, compare; cbn [val].
  rewrite (dy_compare_scale _ _ _ _ c H1 H2).
  destruct (_ ?= _) eqn:Hc; try discriminate; intros _.
  - apply Z.compare_eq_iff in Hc. rewrite Hc. apply Z.le_refl.
  - apply Z.compare_lt_iff in Hc. now apply Z.lt_le_incl.
Qed.

(** Printing a number between 40 and 90 with two decimals and reading it
    back gives a number between 40 and 90. *)
Lemma toFixed2_40_90 (x : number) :
  leb n40 x = true -> leb x n90 = true ->
  leb n40 (toFixed2 x) = true /\ leb (toFixed2 x) n90 = true.
Proof.
  intros H40 H90.
  destruct x as [s | s | | s m e]; try (split; assumption).
  cbn [toFixed2].
  destruct (0 <=? e) eqn:He; [split; assumption | ].
  apply Z.leb_gt in He.
  pose proof (pow2_pos (- e) ltac:(lia)) as HK.
  apply (leb_finite _ _ _ _ _ _ (47 - e)) in H40; [ | lia | lia].
  apply (leb_finite _ _ _ _ _ _ (46 - e)) in H90; [ | lia | lia].
  replace (-47 + (47 - e)) with (- e) in H40 by lia.
  replace (e + (47 - e)) with 47 in H40 by lia.
  replace (-46 + (46 - e)) with (- e) in H90 by lia.
  replace (e + (46 - e)) with 46 in H90 by lia.
  change (2 ^ 47) with 140737488355328 in H40.
  change (2 ^ 46) with 70368744177664 in H90.
  destruct s; cbn [cond_Zopp] in H40, H90; [lia | ].
  rewrite pow2_double by lia.
  set (K := 2 ^ (- e)) in *.
  assert (Hn : 4000 <= (200 * Zpos m + K) / (2 * K) <= 9000).
  { split.
    - apply Z.div_le_lower_bound; lia.
    - assert ((200 * Zpos m + K) / (2 * K) < 9001); [ | lia].
      apply Z.div_lt_upper_bound; lia. }
  destruct ((200 * Zpos m + K) / (2 * K)) as [ | p | p]; try lia.
  pose proof (ratio_table p Hn) as Ht.
  apply andb_true_iff in Ht. exact Ht.
Qed.

End JSFacts.

(* ================================================================== *)
(** * Facts about [calculateChange] *)
(* ================================================================== *)

Module UtilsFacts.

Import JS JSSpec JSFacts Utils UtilsSpec.
Local Open Scope js_scope.

(** The documented example: [calculateChange (100, 150)] is [50]. *)
Example calculateChange_100_150 :
  calculateChange n100 (ofZ 150) = ofZ 50.
Proof. reflexivity. Qed.

Lemma eqb_zero_false_finite x :
  isFinite x = true -> (x === n0) = false ->
  exists s m e, x = S754_finite s m e.
Proof.
  destruct x as [s | s | | s m e]; try discriminate; eauto.
Qed.

Lemma calculateChange_nonfinite (oldValue newValue : number) :
  isFinite oldValue = false -> calculateChange oldValue newValue = NaN.
Proof.
  intros Ho. unfold calculateChange.
  destruct oldValue as [s | s | | s m e]; try discriminate Ho.
  - destruct newValue as [s' | s' | | s' m' e']; destruct s; try destruct s';
      reflexivity.
  - destruct newValue as [s' | s' | | s' m' e']; reflexivity.
Qed.

(** C10, as the code has it.  [calculateChange] is a total function of two
    numbers.  When [oldValue] is zero it is 100 for a positive [newValue]
    and 0 otherwise; in every other case, [NaN] included, it is
    [((newValue - oldValue) / oldValue) * 100] in double arithmetic.  For
    two finite arguments the result is never [NaN], but it is an infinity
    for some of them; for an [oldValue] that is [NaN] or an infinity the
    result is [NaN], whatever [newValue] is. *)
Theorem calculateChange_cases (oldValue newValue : number) :
  calculateChange oldValue newValue
  = (if oldValue === n0 then (if newValue >? n0 then n100 else n0)
     else ((newValue - oldValue) / oldValue) * n100)
  /\ implb (isFinite oldValue && isFinite newValue)
           (negb (isNaN (calculateChange oldValue newValue))) = true
  /\ (isFinite oldValue = false -> calculateChange oldValue newValue = NaN)
  /\ (exists o n, isFinite o = true /\ isFinite n = true
                  /\ calculateChange o n = Infinity).
Proof.
  split; [reflexivity | split; [ | split]].
  - destruct (isFinite oldValue) eqn:Ho; [ | reflexivity].
    destruct (isFinite newValue) eqn:Hn; [ | reflexivity].
    simpl. apply negb_true_iff.
    unfold calculateChange.
    destruct (oldValue === n0) eqn:Hz.
    + destruct (newValue >? n0); reflexivity.
    + destruct (eqb_zero_false_finite _ Ho Hz) as (s & m & e & ->).
      apply mul_finite_not_nan, div_finite_not_nan, sub_finite_not_nan; auto.
  - apply calculateChange_nonfinite.
  - exists n1, n1e308. repeat split; reflexivity.
Qed.

(** C10 does not hold as stated: the result is [NaN] for a [NaN] or
    infinite [oldValue], and it overflows to an infinity for finite
    arguments that are far apart. *)
Lemma calculateChange_not_always_finite :
  calculateChange NaN n1 = NaN
  /\ calculateChange Infinity n1 = NaN
  /\ isFinite n1 = true /\ isFinite n1e308 = true
  /\ calculateChange n1 n1e308 = Infinity
  /\ ~ (forall oldValue newValue,
          isFinite (calculateChange oldValue newValue) = true).
Proof.
  repeat split; try reflexivity.
  intros H. specialize (H NaN n1). discriminate H.
Qed.

End UtilsFacts.

(* ================================================================== *)
(** * Facts about [calculateSummary] *)
(* ================================================================== *)

Module StatsFacts.

Import JS JSSpec JSArray Stats ListSpec StatsSpec.
Local Open Scope js_scope.

Lemma fold_left_map_add (f : Metric -> number) (ms : list Metric) acc :
  fold_left (fun sum m => sum + f m) ms acc = fold_left add (map f ms) acc.
Proof. revert acc; induction ms as [ | m ms IH]; intros acc; simpl; auto. Qed.

Lemma nth_error_length_cons {A} (d x : A) (l : list A) :
  nth_error (x :: l) (List.length l) = Some (last (x :: l) d).
Proof.
  revert x; induction l as [ | y l IH]; intros x; [reflexivity | ].
  cbn [List.length nth_error]; rewrite (IH y). reflexivity.
Qed.

Lemma nth_error_last {A} (x : A) (l : list A) :
  nth_error (x :: l) (S (List.length l) - 1) = Some (last (x :: l) x).
Proof.
  rewrite Nat.sub_succ, Nat.sub_0_r.
  apply nth_error_length_cons.
Qed.

(** [calculateSummary] returns on every input. *)
Lemma calculateSummary_total (metrics : list Metric) :
  exists s, calculateSummary metrics = Some s.
Proof.
  destruct metrics as [ | m ms]; [now eexists | ].
  unfold calculateSummary.
  cbn [List.length Nat.eqb].
  rewrite nth_error_last. now eexists.
Qed.

(** C7.  On the empty sequence [calculateSummary] returns, without
    raising, the summary whose six fields are 0. *)
Theorem calculateSummary_empty :
  calculateSummary [] = Some (mkSummary n0 n0 n0 n0 n0 n0).
Proof. reflexivity. Qed.

(** C6.  On a non-empty sequence [calculateSummary] returns a summary whose
    [totalRevenue] is the sum of the revenues, whose [totalUsers] is the
    [activeUsers] of the last point and whose [avgEngagement] is the mean
    of the engagement rates; three points with revenues 100, 200 and 300
    have the total revenue 600. *)
Theorem calculateSummary_totals (m : Metric) (ms : list Metric) :
  exists s,
    calculateSummary (m :: ms) = Some s
    /\ totalRevenue s = total (map revenue (m :: ms))
    /\ totalUsers s = activeUsers (last (m :: ms) m)
    /\ avgEngagement s = mean (map engagementRate (m :: ms))
    /\ (forall p2 p3, fixture3 m p2 p3 -> ms = [p2; p3] ->
        totalRevenue s = ofZ 600).
Proof.
  unfold calculateSummary.
  cbn [List.length Nat.eqb].
  rewrite nth_error_last.
  eexists; split; [reflexivity | ]; cbn [totalRevenue totalUsers avgEngagement].
  unfold reduce, mean, total, length.
  rewrite !fold_left_map_add, length_map.
  repeat split; auto.
  intros p2 p3 (H1 & H2 & H3) ->; simpl.
  rewrite H1, H2, H3. reflexivity.
Qed.

(** ** The two segments *)

Lemma sub_nan_r (x : number) : x - NaN = NaN.
Proof. destruct x; reflexivity. Qed.

(** With an empty first segment the change is [((l - NaN) / NaN) * 100]. *)
Lemma changeBy_empty_first (f : Metric -> number) (metrics : list Metric) :
  firstSegment metrics = [] -> changeBy f metrics = NaN.
Proof.
  intros Hf. unfold changeBy. rewrite Hf.
  change (avgBy f []) with NaN. now rewrite sub_nan_r.
Qed.

(** C1 on the sequences of one to four points.  There [splitIndex] is 0 and
    the first segment is empty, but [slice (-0)] is [slice (0)]: the last
    segment is the whole sequence, not its last 0 points.  Every change
    field is [NaN]. *)
Theorem lastSegment_short (metrics : list Metric) :
  (0 < List.length metrics < 5)%nat ->
  splitIndex metrics = n0
  /\ firstSegment metrics = []
  /\ lastSegment metrics = metrics
  /\ lastSegment metrics <> lastPoints 0 metrics
  /\ forall f, changeBy f metrics = NaN.
Proof.
  intros Hlen.
  assert (Hfirst : firstSegment metrics = []).
  { destruct metrics as [ | a [ | b [ | c [ | d [ | e l]]]]]; simpl in Hlen;
      try lia; reflexivity. }
  split; [ | split; [exact Hfirst | split; [ | split]]].
  - destruct metrics as [ | a [ | b [ | c [ | d [ | e l]]]]]; simpl in Hlen;
      try lia; reflexivity.
  - destruct metrics as [ | a [ | b [ | c [ | d [ | e l]]]]]; simpl in Hlen;
      try lia; reflexivity.
  - destruct metrics as [ | a [ | b [ | c [ | d [ | e l]]]]]; simpl in Hlen;
      try lia; discriminate.
  - intros f. now apply changeBy_empty_first.
Qed.

Lemma lastSegment_short_witness :
  (0 < List.length onePoint < 5)%nat
  /\ splitIndex onePoint = n0
  /\ firstSegment onePoint = []
  /\ lastSegment onePoint = onePoint
  /\ lastSegment onePoint <> lastPoints 0 onePoint
  /\ forall f, changeBy f onePoint = NaN.
Proof.
  split; [simpl; lia | apply (lastSegment_short onePoint); simpl; lia].
Defined.

Lemma same_eq (x y : number) : same x y = true -> x = y.
Proof.
  destruct x as [s1 | s1 | | s1 m1 e1], y as [s2 | s2 | | s2 m2 e2];
    try discriminate; cbn [same].
  - intros H; apply eqb_prop in H; now subst.
  - intros H; apply eqb_prop in H; now subst.
  - reflexivity.
  - rewrite !andb_true_iff. intros [[Hs Hm] He].
    apply eqb_prop in Hs. apply Pos.eqb_eq in Hm. apply Z.eqb_eq in He.
    now subst.
Qed.

(** From five points on (and up to 60, which covers every range of the
    generator) the segments are as C1 says: [splitIndex] is the fifth of
    the length, rounded down, the first segment is the first [splitIndex]
    points and the last segment the last [splitIndex] points. *)
Lemma segments_from_5 (metrics : list Metric) :
  let n := List.length metrics in
  let k := (n / 5)%nat in
  (5 <= n <= 60)%nat ->
  splitIndex metrics = ofNat k
  /\ firstSegment metrics = firstn k metrics
  /\ lastSegment metrics = lastPoints k metrics.
Proof.
  intros n k Hn.
  set (check := fun n : nat =>
         let len := Z.of_nat n in
         let k := Z.of_nat (n / 5) in
         same (splitIndexOfLength n) (ofNat (n / 5))
         && (relIndex n0 len =? 0)%Z
         && (relIndex (splitIndexOfLength n) len =? k)%Z
         && (relIndex (neg (splitIndexOfLength n)) len
             =? (if (k =? 0)%Z then 0 else len - k))%Z).
  assert (Hall : forallb check (seq 0 61) = true) by (vm_compute; reflexivity).
  rewrite forallb_forall in Hall.
  specialize (Hall n ltac:(apply in_seq; lia)). unfold check in Hall; cbv zeta in Hall.
  fold k in Hall.
  apply andb_true_iff in Hall as [Hall H4].
  apply andb_true_iff in Hall as [Hall H3].
  apply andb_true_iff in Hall as [H1 H2].
  apply Z.eqb_eq in H2, H3, H4.
  assert (Hk : (1 <= k <= n)%nat).
  { unfold k. split.
    - apply (Nat.div_le_lower_bound n 5 1); lia.
    - apply Nat.Div0.div_le_upper_bound; lia. }
  replace (Z.of_nat k =? 0)%Z with false in H4 by (symmetry; apply Z.eqb_neq; lia).
  assert (Hsplit : splitIndex metrics = splitIndexOfLength n) by reflexivity.
  split; [ | split].
  - rewrite Hsplit. now apply same_eq.
  - unfold firstSegment, slice. rewrite Hsplit. fold n. rewrite H2, H3.
    replace (Z.to_nat (Z.max (Z.of_nat k - 0) 0)) with k by lia.
    reflexivity.
  - unfold lastSegment, slice, lastPoints. rewrite Hsplit. fold n. rewrite H4.
    replace (Z.to_nat (Z.of_nat n - Z.of_nat k)) with (n - k)%nat by lia.
    apply firstn_all2. rewrite length_skipn. fold n. lia.
Qed.

End StatsFacts.

(* ================================================================== *)
(** * Facts about the generator *)
(* ================================================================== *)

Module GeneratorFacts.

Import JS JSSpec JSFacts Generator GeneratorSpec.
Local Open Scope js_scope.

Lemma upTo_inv k x : upTo k x = true -> mag_le k x = true /\ sign_of x = false.
Proof.
  unfold upTo. rewrite andb_true_iff, negb_true_iff. tauto.
Qed.

(** The rounded product of five non-negative factors is at least 0. *)
Lemma amount_nonneg (base g s w v : number) :
  upTo 16 base = true -> upTo 1 g = true ->
  mag_le 1 s = true /\ sign_of s = false ->
  upTo 1 w = true ->
  mag_le 1 v = true /\ sign_of v = false ->
  (Math_round (base * g * s * w * v) >=? n0) = true.
Proof.
  intros Hb Hg [Hs Hss] Hw [Hv Hsv].
  apply upTo_inv in Hb as [Hb Hsb], Hg as [Hg Hsg], Hw as [Hw Hsw].
  destruct (mul_nonneg 16 1 base g Hb Hsb Hg Hsg ltac:(lia)) as [H1 S1].
  destruct (mul_nonneg _ 1 _ s H1 S1 Hs Hss ltac:(lia)) as [H2 S2].
  destruct (mul_nonneg _ 1 _ w H2 S2 Hw Hsw ltac:(lia)) as [H3 S3].
  destruct (mul_nonneg _ 1 _ v H3 S3 Hv Hsv ltac:(lia)) as [H4 S4].
  apply Math_round_nonneg; [ | exact S4].
  eapply mag_le_not_nan; exact H4.
Qed.

(** The clamped and printed engagement rate is between 40 and 90. *)
Lemma rate_clamped (base a v : number) :
  mag_le 7 base = true -> mag_le 1 a = true -> mag_le 1 v = true ->
  let e := toFixed2 (Math_max n40 (Math_min n90 (base * a * v))) in
  (n40 <=? e) = true /\ (e <=? n90) = true.
Proof.
  intros Hb Ha Hv.
  destruct (mul_mag 7 2 base a Hb (mag_le_lt 1 a Ha) ltac:(lia)) as [H1 _].
  destruct (mul_mag _ 2 _ v H1 (mag_le_lt 1 v Hv) ltac:(lia)) as [H2 _].
  apply mag_le_not_nan in H2.
  destruct (clamp_40_90 _ H2) as [Hlo Hhi].
  now apply toFixed2_40_90.
Qed.

Section WithHost.
Context {host : Host} {host_ok : HostOk}.

(** The arguments of [Math.sin] in a point are finite. *)
Lemma season_finite (month : Z) :
  (0 <= month <= 11)%Z ->
  isFinite (((ofZ month - n5) / n12) * Math_PI * n2) = true.
Proof.
  intros Hm.
  assert (Hall : forallb (fun k => isFinite (((ofZ (Z.of_nat k) - n5) / n12)
                                               * Math_PI * n2))
                   (seq 0 12) = true) by (vm_compute; reflexivity).
  rewrite forallb_forall in Hall.
  specialize (Hall (Z.to_nat month)). rewrite Z2Nat.id in Hall by lia.
  apply Hall, in_seq. lia.
Qed.

Lemma progress_finite (index : nat) :
  (index < 24)%nat ->
  isFinite ((ofNat index / ofNat 24) * Math_PI * n4) = true.
Proof.
  intros Hi.
  assert (Hall : forallb (fun k => isFinite ((ofNat k / ofNat 24) * Math_PI * n4))
                   (seq 0 24) = true) by (vm_compute; reflexivity).
  rewrite forallb_forall in Hall. apply Hall, in_seq. lia.
Qed.

Lemma volatility_eq (magnitude : number) (w : World) :
  volatility magnitude w
  = (n1 + (random_source (draws w) - n0_5) * n2 * magnitude,
     mkWorld (S (draws w)) (time w)).
Proof. reflexivity. Qed.

Lemma volatility_range (magnitude : number) (w : World) :
  mag_lt (-2) magnitude = true ->
  mag_le 1 (fst (volatility magnitude w)) = true
  /\ sign_of (fst (volatility magnitude w)) = false.
Proof.
  intros Hc. rewrite volatility_eq; cbn [fst].
  pose proof (random_range (draws w)) as Hr. unfold unitInterval in Hr.
  apply andb_true_iff in Hr as [Hr Hs]. apply negb_true_iff in Hs.
  now apply jitter.
Qed.

(** The date and the bounds of one point of a day. *)
Lemma generateMetricPoint_bounds (baseDate : Date) (index : nat) (w : World) :
  (index < 24)%nat ->
  let m := fst (generateMetricPoint baseDate index 24 w) in
  timestamp m = baseDate
  /\ inRange m.
Proof.
  intros Hi.
  unfold generateMetricPoint, bind.
  destruct (volatility DATA_GENERATION.revenueVolatility w) as [rv w1] eqn:E1.
  destruct (volatility DATA_GENERATION.usersVolatility w1) as [uv w2] eqn:E2.
  destruct (volatility DATA_GENERATION.engagementVolatility w2) as [ev w3] eqn:E3.
  destruct (generateId w3) as [i w4].
  cbn [ret fst timestamp revenue activeUsers engagementRate].
  pose proof (volatility_range DATA_GENERATION.revenueVolatility w eq_refl) as Hrv.
  pose proof (volatility_range DATA_GENERATION.usersVolatility w1 eq_refl) as Huv.
  pose proof (volatility_range DATA_GENERATION.engagementVolatility w2 eq_refl) as Hev.
  rewrite E1 in Hrv. rewrite E2 in Huv. rewrite E3 in Hev. cbn [fst] in Hrv, Huv, Hev.
  pose proof (season_finite (getMonth baseDate) (getMonth_range baseDate)) as Hsf.
  pose proof (swing _ DATA_GENERATION.seasonalAmplitude (sin_range _ Hsf) eq_refl)
    as Hseason.
  pose proof (swing _ n0_1 (sin_range _ (progress_finite index Hi)) eq_refl)
    as [Hprog _].
  destruct (pow_range index Hi) as [Hpr Hpu].
  assert (Hw : upTo 1 (if isWeekend baseDate then DATA_GENERATION.weekendBoost else n1)
               = true) by (destruct (isWeekend baseDate); reflexivity).
  split; [reflexivity | ].
  split; [apply amount_nonneg; auto | ].
  split; [apply amount_nonneg; auto | ].
  apply rate_clamped; [reflexivity | exact Hprog | apply Hev].
Qed.

(** The loop of [generateMetrics] when every sampling date is within the
    range: it appends one point for each remaining index, at the dates
    [currentDate + j * interval] hours. *)
Lemma generateLoop_points (to : Date) (interval : Z) (totalPoints : nat) :
  forall (fuel : nat) (currentDate : Date) (index : nat) (acc : list Metric)
         (w : World),
  (index + fuel = totalPoints)%nat ->
  (forall j, (j < fuel)%nat ->
             (addHours currentDate (Z.of_nat j * interval) <= to)%Z) ->
  exists points,
    fst (generateLoop fuel to interval totalPoints currentDate index acc w)
    = acc ++ points
    /\ List.length points = fuel
    /\ forall j, (j < fuel)%nat ->
        exists wj,
          nth_error points j
          = Some (fst (generateMetricPoint
                         (addHours currentDate (Z.of_nat j * interval))
                         (index + j) totalPoints wj)).
Proof.
  induction fuel as [ | fuel IH]; intros currentDate index acc w Hfuel Hto.
  - exists []. cbn [generateLoop ret fst]. rewrite app_nil_r.
    repeat split. intros j Hj; lia.
  - cbn [generateLoop].
    assert (Hle : (currentDate <=? to)%Z = true).
    { apply Z.leb_le. specialize (Hto 0%nat ltac:(lia)).
      unfold addHours in Hto. simpl in Hto. lia. }
    assert (Hlt : (index <? totalPoints)%nat = true) by (apply Nat.ltb_lt; lia).
    rewrite Hle, Hlt. cbn [andb]. unfold bind.
    destruct (generateMetricPoint currentDate index totalPoints w) as [m w1] eqn:Em.
    destruct (IH (addHours currentDate interval) (S index) (acc ++ [m]) w1)
      as (points & Heq & Hlen & Hnth).
    + lia.
    + intros j Hj. specialize (Hto (S j) ltac:(lia)).
      unfold addHours in *. rewrite Nat2Z.inj_succ in Hto. lia.
    + exists (m :: points). rewrite Heq, <- app_assoc. cbn [app].
      split; [reflexivity | split; [simpl; lia | ]].
      intros [ | j] Hj.
      * exists w. cbn [nth_error]. rewrite Nat.add_0_r.
        replace (addHours currentDate (Z.of_nat 0 * interval)) with currentDate
          by (unfold addHours; simpl; lia).
        now rewrite Em.
      * destruct (Hnth j ltac:(lia)) as [wj Hj']. exists wj.
        cbn [nth_error]. rewrite Hj'.
        replace (addHours (addHours currentDate interval) (Z.of_nat j * interval))
          with (addHours currentDate (Z.of_nat (S j) * interval))
          by (unfold addHours; rewrite Nat2Z.inj_succ; lia).
        now replace (S index + j)%nat with (index + S j)%nat by lia.
Qed.

(** C5.  On a host whose calendar, [Math.sin], [Math.pow] and random source
    behave as specified, [generateMetrics ("24h")] returns exactly 24
    points; their timestamps start at the start of the previous day and
    ascend in steps of exactly one hour; and every point has
    [revenue >= 0], [activeUsers >= 0] and
    [40 <= engagementRate <= 90]. *)
Theorem generateMetrics_24h (w : World) :
  let metrics := fst (generateMetrics "24h"%string w) in
  List.length metrics = 24%nat
  /\ (forall j, (j < 24)%nat ->
       option_map timestamp (nth_error metrics j)
       = Some (firstDate w + Z.of_nat j * 3600000)%Z)
  /\ Forall inRange metrics.
Proof.
  cbv zeta. unfold generateMetrics, getDateRangeFromTimeRange, bind, Date_now, ret.
  cbn [String.eqb Ascii.eqb Bool.eqb samplingPolicy fst snd].
  set (to := endOfDay (time w)).
  set (from := startOfDay (subDays to 1)).
  destruct (generateLoop_points to 1 24 24 (startOfDay from) 0 [] w eq_refl)
    as (points & Heq & Hlen & Hnth).
  { intros j Hj. unfold addHours, MILLISECONDS_IN_HOUR.
    pose proof (startOfDay_le from) as H1.
    pose proof (startOfDay_le (subDays to 1)) as H2. fold from in H2.
    pose proof (subDays_one to) as H3. unfold MILLISECONDS_IN_HOUR in H3.
    lia. }
  rewrite Heq. cbn [app].
  split; [exact Hlen | split].
  - intros j Hj. destruct (Hnth j Hj) as [wj ->]. cbn [option_map].
    destruct (generateMetricPoint_bounds
                (addHours (startOfDay from) (Z.of_nat j * 1)) (0 + j) wj Hj)
      as [Ht _].
    rewrite Ht. unfold addHours, MILLISECONDS_IN_HOUR, firstDate.
    fold to. fold from. f_equal. lia.
  - apply Forall_forall. intros m Hin.
    apply In_nth_error in Hin as [j Hj].
    assert (Hjlt : (j < 24)%nat).
    { rewrite <- Hlen. apply nth_error_Some. rewrite Hj. discriminate. }
    destruct (Hnth j Hjlt) as [wj Hwj]. rewrite Hwj in Hj. injection Hj as <-.
    apply (generateMetricPoint_bounds _ (0 + j) wj Hjlt).
Qed.

End WithHost.

(** ** The sample host *)

Lemma lookup_forall (P : number -> bool) (table : list (number * number))
    (dflt x : number) :
  forallb (fun av => P (snd av)) table = true -> P dflt = true ->
  P (Sample.lookup x table dflt) = true.
Proof.
  intros Ht Hd. induction table as [ | [a v] table IH]; [exact Hd | ].
  cbn [forallb snd] in Ht. apply andb_true_iff in Ht as [Hv Ht].
  cbn [Sample.lookup]. destruct (same a x); auto.
Qed.

#[export] Instance sample_ok : HostOk (H := Sample.host).
Proof.
  constructor; cbn [startOfDay subDays getMonth Math_sin Math_pow random_source
                    Sample.host].
  - intros d. unfold Sample.utcStartOfDay.
    pose proof (Z.mod_pos_bound d Sample.MILLISECONDS_IN_DAY eq_refl). lia.
  - intros d. unfold Sample.utcSubDays, Sample.MILLISECONDS_IN_DAY,
      MILLISECONDS_IN_HOUR. lia.
  - intros d. unfold Sample.utcGetMonth. cbv zeta.
    match goal with |- context [?a mod 12] =>
      pose proof (Z.mod_pos_bound a 12 eq_refl) end. lia.
  - intros x _. unfold Sample.sin. apply lookup_forall; reflexivity.
  - intros i Hi.
    assert (Hall : forallb (fun k => upTo 1 (Sample.pow revenueBase (ofNat k))
                                     && upTo 1 (Sample.pow usersBase (ofNat k)))
                     (seq 0 24) = true) by (vm_compute; reflexivity).
    rewrite forallb_forall in Hall.
    apply andb_true_iff, Hall, in_seq. lia.
  - intros k. unfold Sample.random.
    assert (Hall : forallb (fun j => unitInterval (nth j Sample.randomTable n0))
                     (seq 0 8) = true) by (vm_compute; reflexivity).
    rewrite forallb_forall in Hall. apply Hall, in_seq.
    pose proof (Nat.mod_upper_bound k 8). lia.
Qed.

Lemma generateMetrics_24h_witness :
  List.length (fst (generateMetrics (H := Sample.host) "24h"%string Sample.world))
  = 24%nat
  /\ Forall inRange
       (fst (generateMetrics (H := Sample.host) "24h"%string Sample.world)).
Proof.
  destruct (generateMetrics_24h (host := Sample.host) (host_ok := sample_ok)
              Sample.world) as (Hlen & _ & Hall).
  split; [exact Hlen | exact Hall].
Defined.

End GeneratorFacts.

(* ================================================================== *)
(** * Facts about the history endpoint *)
(* ================================================================== *)

Module MetricsRouteFacts.

Import MetricsRoute MetricsRouteSpec.
Local Open Scope string_scope.

Lemma includes_In (l : list string) (x : string) :
  includes l x = true <-> In x l.
Proof.
  unfold includes. rewrite existsb_exists. split.
  - intros (y & Hin & Heq). apply String.eqb_eq in Heq. now subst.
  - intros Hin. exists x. split; [exact Hin | apply String.eqb_refl].
Qed.

Lemma orDefault_rejected (param : option string) :
  includes validRanges (orDefault param "30d") = false <-> rejected param.
Proof.
  rewrite <- not_true_iff_false, includes_In. unfold rejected. split.
  - intros Hn. destruct param as [[ | c s] | ]; simpl in Hn.
    + elim Hn. simpl; tauto.
    + exists (String c s). repeat split; auto. discriminate.
    + elim Hn. simpl; tauto.
  - intros (s & -> & Hne & Hn). destruct s; [now elim Hne | exact Hn].
Qed.

Section WithHost.
Context `{Host}.

(** The handler, with its monadic steps written out. *)
Lemma GET_eq (param : option string) (w : World) :
  GET param w
  = let timeRange := orDefault param "30d" in
    if negb (includes validRanges timeRange) then
      (mkResponse 400 (ErrorBody "Invalid time range parameter"), w)
    else
      let '(metrics, w') := Generator.generateMetrics timeRange w in
      match Stats.calculateSummary metrics with
      | None => (mkResponse 500 (ErrorBody "Internal server error"), w')
      | Some summary =>
          (mkResponse 200
             (MetricsBody
                (mkMetricsResponse metrics summary
                   {| start := match nth_error metrics 0 with
                               | Some m => timestamp m
                               | None => time w'
                               end;
                      end_ := match nth_error metrics (List.length metrics - 1) with
                              | Some m => timestamp m
                              | None => time w'
                              end |})), w')
      end.
Proof.
  unfold GET; cbv zeta.
  destruct (negb (includes validRanges (orDefault param "30d"))); [reflexivity | ].
  unfold bind at 1.
  destruct (Generator.generateMetrics (orDefault param "30d") w) as [ms w'].
  destruct (Stats.calculateSummary ms); reflexivity.
Qed.

(** C8, as the code has it.  The endpoint answers 400, with an error body,
    if and only if the request carries a non-empty [timeRange] that is not
    one of 24h, 7d, 30d, 90d, 1y and all; a missing or empty [timeRange]
    stands for 30d.  Every other request is answered 200 with the generated
    data, their summary and the timestamps of the first and last point
    (the current time when there is no point). *)
Theorem GET_status (param : option string) (w : World) :
  let r := fst (GET param w) in
  (status r = 400 <-> rejected param)
  /\ match body r with
     | ErrorBody _ => status r = 400
     | MetricsBody resp =>
         status r = 200
         /\ data resp = fst (Generator.generateMetrics (orDefault param "30d") w)
         /\ Stats.calculateSummary (data resp) = Some (summary resp)
         /\ start (timeRange resp)
            = match data resp with
              | m :: _ => timestamp m
              | [] => time (snd (Generator.generateMetrics (orDefault param "30d") w))
              end
         /\ end_ (timeRange resp)
            = match data resp with
              | m :: ms => timestamp (last ms m)
              | [] => time (snd (Generator.generateMetrics (orDefault param "30d") w))
              end
     end.
Proof.
  cbv zeta. rewrite <- orDefault_rejected. rewrite GET_eq. cbv zeta.
  destruct (includes validRanges (orDefault param "30d")) eqn:Hinc; simpl negb;
    cbv iota.
  2: { simpl. split; [split; reflexivity | reflexivity]. }
  destruct (Generator.generateMetrics (orDefault param "30d") w) as [ms w'].
  destruct (StatsFacts.calculateSummary_total ms) as [sm Hsm]. rewrite Hsm.
  simpl.
  split; [split; discriminate | ].
  repeat split; auto.
  - destruct ms; reflexivity.
  - destruct ms as [ | m ms]; [reflexivity | ].
    cbn [List.length]. rewrite Nat.sub_succ, Nat.sub_0_r.
    rewrite (StatsFacts.nth_error_length_cons m).
    destruct ms; reflexivity.
Qed.

End WithHost.

(** C8 does not hold as stated: for the request [?timeRange=], whose value
    is the empty string and so none of the six ranges, the sample host
    answers 200 with the 30 points of the range 30d. *)
Lemma GET_empty_timeRange :
  ~ In "" validRanges
  /\ status (fst (GET (H := Sample.host) (Some "") Sample.world)) = 200
  /\ match body (fst (GET (H := Sample.host) (Some "") Sample.world)) with
     | MetricsBody resp => List.length (data resp) = 30%nat
     | ErrorBody _ => False
     end.
Proof.
  split; [ | split].
  - simpl. intuition discriminate.
  - vm_compute. reflexivity.
  - vm_compute. reflexivity.
Qed.

End MetricsRouteFacts.

(* ================================================================== *)
(** * Facts about the push transport *)
(* ================================================================== *)

Module StreamRouteFacts.

Import StreamRoute StreamRouteSpec.

Section WithHost.
Context `{Host}.

Lemma start_inv (w : World) : Inv (fst (start w)).
Proof. repeat split. Qed.

(** The callbacks of the timers write frames and nothing else. *)
Lemma enqueue_flags f t t' :
  enqueue f t = Some t' ->
  closeCalls t' = closeCalls t /\ dataInterval t' = dataInterval t
  /\ heartbeatInterval t' = heartbeatInterval t
  /\ abortDispatched t' = abortDispatched t.
Proof.
  unfold enqueue. destruct ((0 <? closeCalls t)%nat || cancelled t);
    [discriminate | ].
  intros Heq; injection Heq as <-. repeat split.
Qed.

Lemma tick_flags ev t w :
  ev <> Abort -> ev <> Cancel ->
  let t' := fst (handler ev t w) in
  closeCalls t' = closeCalls t /\ dataInterval t' = dataInterval t
  /\ heartbeatInterval t' = heartbeatInterval t
  /\ abortDispatched t' = abortDispatched t.
Proof.
  intros Hev Hev'. destruct ev; [ | | now elim Hev | now elim Hev'];
    cbn [handler].
  - unfold onDataInterval, bind.
    destruct (Generator.generateNewMetric w) as [m w1].
    unfold Date_now.
    destruct (enqueue _ t) as [t1 | ] eqn:He; simpl.
    + eapply enqueue_flags; eauto.
    + repeat split.
  - unfold onHeartbeatInterval.
    destruct (enqueue _ t) as [t1 | ] eqn:He; simpl.
    + eapply enqueue_flags; eauto.
    + repeat split.
Qed.

Lemma turn_inv ev at_ s s' :
  Inv (fst s) -> turn ev at_ s = Some s' -> Inv (fst s').
Proof.
  destruct s as [t w]; unfold turn; cbn [fst].
  destruct (enabled t ev) eqn:Hen; [ | discriminate].
  intros HI Ht; injection Ht as <-.
  destruct ev.
  - destruct (tick_flags DataTick t (mkWorld (draws w) at_)) as (Hc & Hd & Hh & Ha);
      [discriminate | discriminate | ].
    unfold Inv in *. now rewrite Hc, Hd, Hh, Ha.
  - destruct (tick_flags HeartbeatTick t (mkWorld (draws w) at_))
      as (Hc & Hd & Hh & Ha); [discriminate | discriminate | ].
    unfold Inv in *. now rewrite Hc, Hd, Hh, Ha.
  - simpl in Hen. apply negb_true_iff in Hen.
    unfold Inv in *. rewrite Hen in HI. destruct HI as (Hc & _ & _).
    simpl. now rewrite Hc.
  - exact HI.
Qed.

Lemma run_inv evs s s' :
  Inv (fst s) -> run evs s = Some s' -> Inv (fst s').
Proof.
  revert s; induction evs as [ | [ev at_] evs IH]; intros s HI Hrun; simpl in Hrun.
  - now injection Hrun as <-.
  - destruct (turn ev at_ s) as [s1 | ] eqn:Ht; [ | discriminate].
    eapply IH; [ | exact Hrun]. eapply turn_inv; eauto.
Qed.

Lemma run_app evs1 evs2 s s' :
  run (evs1 ++ evs2) s = Some s' ->
  exists s1, run evs1 s = Some s1 /\ run evs2 s1 = Some s'.
Proof.
  revert s; induction evs1 as [ | [ev at_] evs1 IH]; intros s Hrun; simpl in *.
  - eauto.
  - destruct (turn ev at_ s) as [s1 | ]; [ | discriminate]. eauto.
Qed.

(** After the abort event no event of the transport is enabled. *)
Lemma aborted_stuck t ev :
  Inv t -> abortDispatched t = true -> enabled t ev = false.
Proof.
  unfold Inv. intros HI Ha. rewrite Ha in HI. destruct HI as (Hc & Hd & Hh).
  destruct ev; simpl; rewrite ?Hd, ?Hh, ?Ha, ?Hc; try reflexivity.
  apply andb_false_r.
Qed.

Lemma turn_abort at_ t w s' :
  turn Abort at_ (t, w) = Some s' ->
  abortDispatched t = false
  /\ s' = (mkTransport (queue t) (S (closeCalls t)) false false true
             (cancelled t),
           mkWorld (draws w) at_).
Proof.
  unfold turn; cbn [enabled handler].
  destruct (abortDispatched t); [discriminate | ].
  intros Heq; injection Heq as <-. split; reflexivity.
Qed.

(** C9.  In an execution of the transport in which the abort event is
    dispatched, the listener clears both timers and closes the stream, for
    the first and only time; no callback of a timer runs afterwards, so
    the frames written to the stream are those written before the abort. *)
Theorem no_frame_after_abort
    (before after : list (Event * Date)) (at_ : Date) (w : World)
    (final : Transport * World) :
  run (before ++ (Abort, at_) :: after) (start w) = Some final ->
  exists s,
    run before (start w) = Some s
    /\ closeCalls (fst s) = 0%nat
    /\ after = []
    /\ queue (fst final) = queue (fst s)
    /\ closeCalls (fst final) = 1%nat
    /\ dataInterval (fst final) = false
    /\ heartbeatInterval (fst final) = false
    /\ forall ev, enabled (fst final) ev = false.
Proof.
  intros Hrun. apply run_app in Hrun as (s & Hbefore & Hrest).
  exists s. split; [exact Hbefore | ].
  pose proof (run_inv before (start w) s (start_inv w) Hbefore) as HI.
  cbn [run] in Hrest.
  destruct (turn Abort at_ s) as [s1 | ] eqn:Hturn; [ | discriminate].
  destruct s as [t ws].
  apply turn_abort in Hturn as [Ha ->]. cbn [fst] in *.
  unfold Inv in HI. rewrite Ha in HI. destruct HI as (Hc & Hd & Hh).
  set (t' := mkTransport (queue t) (S (closeCalls t)) false false true
               (cancelled t)) in *.
  assert (HI' : Inv t') by (unfold Inv, t'; simpl; rewrite Hc; auto).
  assert (Hafter : after = []).
  { destruct after as [ | [ev at'] after]; [reflexivity | ].
    cbn [run turn] in Hrest.
    rewrite (aborted_stuck t' ev HI' eq_refl) in Hrest. discriminate. }
  subst after. cbn [run] in Hrest. injection Hrest as <-. cbn [fst].
  repeat split; auto.
  - unfold t'; simpl. now rewrite Hc.
  - intros ev. apply (aborted_stuck t' ev HI' eq_refl).
Qed.

End WithHost.

Lemma no_frame_after_abort_witness :
  exists final,
    run (H := Sample.host) (sampleTicks ++ [(Abort, 1793534431000)])
      (start Sample.world) = Some final
    /\ List.length (queue (fst final)) = 3%nat
    /\ closeCalls (fst final) = 1%nat
    /\ forall ev, enabled (fst final) ev = false.
Proof.
  destruct (run (H := Sample.host) (sampleTicks ++ [(Abort, 1793534431000)])
              (start Sample.world)) as [final | ] eqn:Hrun;
    [ | vm_compute in Hrun; discriminate Hrun].
  exists final. split; [reflexivity | ].
  destruct (no_frame_after_abort (H := Sample.host) sampleTicks []
              1793534431000 Sample.world final Hrun)
    as (s & Hs & _ & _ & Hq & Hc & _ & _ & Hstuck).
  repeat split; auto.
  rewrite Hq. vm_compute in Hs. injection Hs as <-. reflexivity.
Defined.

End StreamRouteFacts.

(* ================================================================== *)
(** * Facts about the stream consumer *)
(* ================================================================== *)

Module UseMetricsFacts.

Import UseMetrics ListSpec UseMetricsSpec.

(** Evaluation of the updates of a hook whose fields are known. *)
Ltac hook_eval :=
  cbv beta iota zeta delta
    [onopen onerror onReconnectTimeout disconnect connectSSE mount initial
     fetchStart fetchResolved fetchFailed newEventSource setTimeout
     clearTimeout closeSource setMetrics setSummary setLoading setError
     onError updateConnectionStatus setEventSourceRef setReconnectTimeoutRef
     setReconnectAttempts setIsMounted
     metrics summary loading error connectionStatus eventSourceRef
     reconnectTimeoutRef reconnectAttemptsRef isMountedRef openSources
     pendingTimeouts nextHandle onErrorCalls onConnectionChangeCalls
     fst snd negb].

Ltac hook_eval_all :=
  cbv beta iota zeta delta
    [onopen onerror onReconnectTimeout disconnect connectSSE mount initial
     fetchStart fetchResolved fetchFailed newEventSource setTimeout
     clearTimeout closeSource setMetrics setSummary setLoading setError
     onError updateConnectionStatus setEventSourceRef setReconnectTimeoutRef
     setReconnectAttempts setIsMounted
     metrics summary loading error connectionStatus eventSourceRef
     reconnectTimeoutRef reconnectAttemptsRef isMountedRef openSources
     pendingTimeouts nextHandle onErrorCalls onConnectionChangeCalls] in *.

Ltac destruct_hook h :=
  destruct h as [ms sm ld er cs esr rtr att mounted srcs tmo nh oec occ];
  hook_eval_all.

(** ** The window *)

Lemma slice_minus_50 {A} (l : list A) :
  JSArray.slice l (JS.ofZ (-50)) None = lastPoints 50 l.
Proof.
  unfold JSArray.slice, JSArray.relIndex, lastPoints.
  change (JS.ofZ (-50)) with (S754_finite true 7036874417766400 (-47)).
  change (JS.toInteger (S754_finite true 7036874417766400 (-47))) with (-50).
  cbv iota.
  change (-50 <? 0) with true; cbv iota.
  replace (Z.to_nat (Z.max (Z.of_nat (List.length l) + -50) 0))
    with (List.length l - 50)%nat by lia.
  apply firstn_all2. rewrite length_skipn. lia.
Qed.



(** What a metric message does to the window of a mounted hook. *)
Lemma onmessage_metric (h : Hook) (m : Metric) (t : Date) :
  isMountedRef h = true ->
  metrics (onmessage (Some (MsgMetric m t)) h) = lastPoints 50 (metrics h ++ [m]).
Proof.
  intros Hm. unfold onmessage. rewrite Hm.
  destruct_hook h. apply slice_minus_50.
Qed.



Lemma metrics_disconnect h : metrics (disconnect h) = metrics h.
Proof. destruct_hook h. destruct esr, rtr; reflexivity. Qed.






(** ** Reconnection *)

Lemma filter_sources_ref (src : nat) (l : list nat) :
  Forall (fun i => Some src = Some i) l ->
  filter (fun i => negb (i =? src)%nat) l = [].
Proof.
  induction 1 as [ | i l Hi _ IH]; [reflexivity | ].
  injection Hi as <-. simpl. now rewrite Nat.eqb_refl.
Qed.

Lemma filter_timers_ref (timer : nat) (l : list (nat * Z)) :
  Forall (fun p => Some timer = Some (fst p)) l ->
  filter (fun p => negb (fst p =? timer)%nat) l = [].
Proof.
  induction 1 as [ | p l Hp _ IH]; [reflexivity | ].
  injection Hp as Hp. simpl. now rewrite <- Hp, Nat.eqb_refl.
Qed.

Lemma Forall_ref_none {A B} (f : A -> B) (l : list A) :
  Forall (fun x => None = Some (f x)) l -> l = [].
Proof. destruct 1; [reflexivity | discriminate]. Qed.

Lemma enabled_source (h : Hook) (src : nat) :
  existsb (Nat.eqb src) (openSources h) = true -> Inv h ->
  eventSourceRef h = Some src /\ pendingTimeouts h = [].
Proof.
  intros Hen HI. apply existsb_exists in Hen as (i & Hin & Heq).
  apply Nat.eqb_eq in Heq; subst i.
  split.
  - pose proof (inv_sources h HI) as Hs.
    rewrite Forall_forall in Hs. now apply Hs.
  - destruct (inv_exclusive h HI) as [He | He]; [ | exact He].
    rewrite He in Hin. destruct Hin.
Qed.

Lemma enabled_timer (h : Hook) (timer : nat) :
  existsb (fun p => (fst p =? timer)%nat) (pendingTimeouts h) = true -> Inv h ->
  reconnectTimeoutRef h = Some timer /\ openSources h = []
  /\ (reconnectAttemptsRef h < SSE_CONFIG.maxReconnectAttempts)%nat.
Proof.
  intros Hen HI. apply existsb_exists in Hen as (p & Hin & Heq).
  apply Nat.eqb_eq in Heq; subst timer.
  repeat split.
  - pose proof (inv_timers h HI) as Ht.
    rewrite Forall_forall in Ht. now apply Ht.
  - destruct (inv_exclusive h HI) as [He | He]; [exact He | ].
    rewrite He in Hin. destruct Hin.
  - apply (inv_pending h HI). intros He. rewrite He in Hin. destruct Hin.
Qed.

(** After [disconnect] nothing of the hook is left in the runtime. *)
Lemma disconnect_clean (h : Hook) :
  Inv h ->
  openSources (disconnect h) = [] /\ pendingTimeouts (disconnect h) = []
  /\ reconnectAttemptsRef (disconnect h) = 0%nat
  /\ eventSourceRef (disconnect h) = None
  /\ reconnectTimeoutRef (disconnect h) = None.
Proof.
  intros [Hs Ht _ _ _]. destruct_hook h.
  destruct esr as [src | ], rtr as [timer | ]; hook_eval; repeat split;
    try (apply filter_sources_ref; exact Hs);
    try (apply filter_timers_ref; exact Ht);
    try (apply (Forall_ref_none (fun x => x)); exact Hs);
    try (apply (Forall_ref_none fst); exact Ht).
Qed.

Lemma disconnect_inv (h : Hook) : Inv h -> Inv (disconnect h).
Proof.
  intros HI. destruct (disconnect_clean h HI) as (Ho & Hp & Ha & _ & _).
  constructor; rewrite ?Ho, ?Hp, ?Ha; auto; try lia.
  intros Hne; now elim Hne.
Qed.

Lemma setIsMounted_inv (b : bool) (h : Hook) : Inv h -> Inv (setIsMounted b h).
Proof. intros [? ? ? ? ?]; constructor; assumption. Qed.

(** [connectSSE] when no timeout is pending. *)
Lemma connectSSE_inv (h : Hook) :
  Inv h -> pendingTimeouts h = [] -> Inv (connectSSE h).
Proof.
  intros [Hs Ht He Ha Hp] Hnone. destruct_hook h. subst tmo.
  destruct esr as [src | ]; constructor; hook_eval; auto;
    try (intros Hne; now elim Hne).
  - rewrite (filter_sources_ref src) by exact Hs. repeat constructor.
  - rewrite (Forall_ref_none (fun x => x) srcs) by exact Hs. repeat constructor.
Qed.

Lemma onerror_inv (h : Hook) (src : nat) :
  Inv h -> enabled h (EsError src) = true -> Inv (onerror h).
Proof.
  intros HI Hen. destruct (enabled_source h src Hen HI) as [Hr Hnone].
  destruct HI as [Hs Ht He Ha Hp].
  destruct_hook h. subst esr tmo.
  destruct mounted; [ | now constructor].
  destruct (att <? SSE_CONFIG.maxReconnectAttempts)%nat eqn:Hlt;
    constructor; hook_eval;
    rewrite ?(filter_sources_ref src) by exact Hs; auto.
  intros _. now apply Nat.ltb_lt.
Qed.

Lemma timeout_inv (h : Hook) (timer : nat) :
  Inv h -> enabled h (TimeoutFired timer) = true ->
  Inv (handle (TimeoutFired timer) h).
Proof.
  intros HI Hen. destruct (enabled_timer h timer Hen HI) as (Hr & Hnone & Hlt).
  destruct HI as [Hs Ht He Ha Hp].
  cbn [handle]. unfold onReconnectTimeout.
  apply connectSSE_inv.
  - destruct_hook h. subst rtr srcs.
    constructor; hook_eval;
      rewrite ?(filter_timers_ref timer) by exact Ht; auto.
    intros Hne; now elim Hne.
  - destruct_hook h. subst rtr. now apply filter_timers_ref.
Qed.

Lemma handle_inv (ev : Event) (h : Hook) :
  Inv h -> enabled h ev = true -> Inv (handle ev h).
Proof.
  intros HI Hen.
  destruct ev as [src | src parsed | src | timer | | data s | msg | b | | ].
  - cbn [handle]. destruct HI as [Hs Ht He Ha Hp]. clear Hen. destruct_hook h.
    destruct mounted; constructor; hook_eval; auto;
      unfold SSE_CONFIG.maxReconnectAttempts; lia.
  - cbn [handle]. unfold onmessage.
    destruct (isMountedRef h); [ | exact HI].
    destruct parsed as [[m t | st t | st t] | ]; try exact HI.
    destruct HI as [Hs Ht He Ha Hp]. clear Hen. destruct_hook h.
    constructor; auto.
  - now apply (onerror_inv h src).
  - now apply timeout_inv.
  - destruct HI as [Hs Ht He Ha Hp]; cbn [handle]. clear Hen. destruct_hook h.
    constructor; auto.
  - cbn [handle]. destruct HI as [Hs Ht He Ha Hp]. clear Hen. destruct_hook h.
    destruct mounted; constructor; auto.
  - cbn [handle]. destruct HI as [Hs Ht He Ha Hp]. clear Hen. destruct_hook h.
    destruct mounted; constructor; auto.
  - cbn [handle]. pose proof (disconnect_inv h HI) as HI1.
    destruct b.
    + apply connectSSE_inv; [exact HI1 | ]. now apply disconnect_clean.
    + now apply disconnect_inv.
  - now apply disconnect_inv.
  - cbn [handle]. now apply disconnect_inv, setIsMounted_inv, disconnect_inv.
Qed.

Lemma mount_inv (b : bool) : Inv (mount b).
Proof.
  destruct b; constructor; hook_eval; auto; try (repeat constructor);
    unfold SSE_CONFIG.maxReconnectAttempts; try lia;
    intros Hne; try (now elim Hne); lia.
Qed.

Lemma initial_inv : Inv initial.
Proof.
  constructor; hook_eval; auto; unfold SSE_CONFIG.maxReconnectAttempts;
    try lia; intros Hne; now elim Hne.
Qed.

Lemma reachable_inv (h : Hook) : reachable h -> Inv h.
Proof.
  induction 1 as [ | b | h ev h' _ IH Hstep];
    [apply initial_inv | apply mount_inv | ].
  destruct Hstep as [h ev Hen]. now apply handle_inv.
Qed.

Lemma run_reachable (evs : list Event) (h h' : Hook) :
  reachable h -> run evs h = Some h' -> reachable h'.
Proof.
  revert h; induction evs as [ | ev evs IH]; intros h Hr Hrun; simpl in Hrun.
  - now injection Hrun as <-.
  - destruct (enabled h ev) eqn:Hen; [ | discriminate].
    apply (IH (handle ev h)); [ | exact Hrun].
    eapply reach_step; [exact Hr | now constructor].
Qed.

(** C3.  A fault of the source of a mounted hook whose retry counter [r] is
    below the maximum schedules one timeout, of delay
    [reconnectInterval * 2 ^ r] (no timeout otherwise), and leaves the
    counter as it is; the callback of the timeout increments the counter by
    exactly one.  With the interval of 3000 ms the delays of the attempts 0
    to 4 are 3000, 6000, 12000, 24000 and 48000 ms. *)
Theorem reconnect_backoff (h : Hook) :
  pendingTimeouts (onerror h)
  = (if isMountedRef h
        && (reconnectAttemptsRef h <? SSE_CONFIG.maxReconnectAttempts)%nat
     then [(nextHandle h,
            SSE_CONFIG.reconnectInterval * 2 ^ Z.of_nat (reconnectAttemptsRef h))]
     else [])
    ++ pendingTimeouts h
  /\ reconnectAttemptsRef (onerror h) = reconnectAttemptsRef h
  /\ (forall timer,
        reconnectAttemptsRef (handle (TimeoutFired timer) h)
        = S (reconnectAttemptsRef h))
  /\ SSE_CONFIG.reconnectInterval = 3000
  /\ map reconnectDelay [0; 1; 2; 3; 4]%nat = [3000; 6000; 12000; 24000; 48000].
Proof.
  repeat split.
  - destruct_hook h. destruct mounted; [ | reflexivity].
    destruct esr; hook_eval; cbn [andb];
      destruct (att <? SSE_CONFIG.maxReconnectAttempts)%nat; reflexivity.
  - destruct_hook h. destruct mounted; [ | reflexivity].
    destruct esr; hook_eval;
      destruct (att <? SSE_CONFIG.maxReconnectAttempts)%nat; reflexivity.
  - intros timer. cbn [handle]. destruct_hook h. destruct esr; reflexivity.
Qed.

(** The timeouts pending after each of these faults. *)
Example failures_delays :
  map (fun k => option_map pendingTimeouts
                  (run (firstn (2 * k + 1) failures) (mount true)))
      [0; 1; 2; 3; 4]%nat
  = [Some [(1%nat, 3000)]; Some [(3%nat, 6000)]; Some [(5%nat, 12000)];
     Some [(7%nat, 24000)]; Some [(9%nat, 48000)]].
Proof. vm_compute. reflexivity. Qed.

Lemma exhausted_reachable : reachable exhausted.
Proof.
  apply (run_reachable failures (mount true));
    [apply reach_mount | vm_compute; reflexivity].
Defined.

Lemma exhausted_stuck (h : Hook) (ev : Event) :
  Exhausted h -> internal ev = true -> enabled h ev = false.
Proof.
  intros (_ & Ht & Hs) Hev. destruct ev; try discriminate Hev; cbn [enabled];
    rewrite ?Ht, ?Hs; reflexivity.
Qed.

(** A history fetch does not touch the connection. *)
Lemma exhausted_fetch (h : Hook) (ev : Event) :
  Exhausted h -> internal ev = false -> callerConnection ev = false ->
  Exhausted (handle ev h).
Proof.
  intros (Hc & Ht & Hs) Hi Hev.
  destruct ev; try discriminate Hi; try discriminate Hev; cbn [handle];
    destruct_hook h; try (destruct mounted); repeat split; assumption.
Qed.

Lemma exhausted_run (evs : list Event) :
  forall h h',
  Exhausted h ->
  existsb callerConnection evs = false ->
  run evs h = Some h' ->
  Exhausted h' /\ existsb internal evs = false.
Proof.
  induction evs as [ | ev evs IH]; intros h h' He Hevs Hrun.
  - cbn [run] in Hrun. injection Hrun as <-. split; [exact He | reflexivity].
  - cbn [existsb] in Hevs. apply orb_false_iff in Hevs as [Hev Hevs].
    cbn [run] in Hrun.
    destruct (internal ev) eqn:Hi.
    + rewrite (exhausted_stuck h ev He Hi) in Hrun. discriminate.
    + destruct (enabled h ev); [ | discriminate].
      destruct (IH _ _ (exhausted_fetch h ev He Hi Hev) Hevs Hrun) as [He' Hint].
      split; [exact He' | ]. cbn [existsb]. now rewrite Hi.
Qed.

Lemma status_disconnect h : connectionStatus (disconnect h) = Status.disconnected.
Proof. destruct_hook h. destruct esr, rtr; reflexivity. Qed.

Lemma status_connectSSE h : connectionStatus (connectSSE h) = connectionStatus h.
Proof. destruct_hook h. destruct esr; reflexivity. Qed.

(** Every event by which the caller acts on the connection sets the status
    to [disconnected]. *)
Lemma callerConnection_status (h : Hook) (ev : Event) :
  callerConnection ev = true ->
  connectionStatus (handle ev h) = Status.disconnected.
Proof.
  intros Hev. destruct ev; try discriminate Hev; cbn [handle].
  - destruct enableRealTime.
    + rewrite status_connectSSE. apply status_disconnect.
    + apply status_disconnect.
  - apply status_disconnect.
  - apply status_disconnect.
Qed.

(** C4, as the code has it.  When a fault arrives at a mounted hook whose
    retry counter has reached [maxReconnectAttempts] (the first connection
    and every retry have failed), the connection state becomes [error],
    the failure is stored and passed to [onError], no timeout is pending
    and no source is open: no event of the runtime can reach the hook.
    The state is terminal: whatever happens next, as long as the caller
    does not act on the connection, is a history fetch, and it leaves the
    state [error] with nothing pending and nothing open.  The caller's
    [disconnect], a change of [enableRealTime] and the unmount are the
    events that leave it, for [disconnected]. *)
Theorem retries_exhausted (h : Hook) (src : nat) :
  reachable h ->
  isMountedRef h = true ->
  enabled h (EsError src) = true ->
  reconnectAttemptsRef h = SSE_CONFIG.maxReconnectAttempts ->
  let h' := handle (EsError src) h in
  connectionStatus h' = Status.error
  /\ error h' = Some ERROR_MESSAGES.STREAM_DISCONNECTED
  /\ onErrorCalls h' = onErrorCalls h ++ [ERROR_MESSAGES.STREAM_DISCONNECTED]
  /\ pendingTimeouts h' = []
  /\ openSources h' = []
  /\ (forall ev, internal ev = true -> enabled h' ev = false)
  /\ (forall evs h'',
        forallb internal evs = true -> run evs h' = Some h'' ->
        evs = [] /\ h'' = h')
  /\ (forall evs h'',
        existsb callerConnection evs = false -> run evs h' = Some h'' ->
        connectionStatus h'' = Status.error
        /\ pendingTimeouts h'' = [] /\ openSources h'' = []
        /\ existsb internal evs = false
        /\ (forall ev, internal ev = true -> enabled h'' ev = false)
        /\ (forall ev, callerConnection ev = true ->
              connectionStatus (handle ev h'') = Status.disconnected)).
Proof.
  intros Hreach Hm Hen Hmax.
  pose proof (reachable_inv h Hreach) as HI.
  destruct (enabled_source h src Hen HI) as [Hr Hnone].
  pose proof (inv_sources h HI) as Hs. clear HI Hreach Hen.
  cbn [handle]; cbv zeta.
  assert (Hfacts :
    connectionStatus (onerror h) = Status.error
    /\ error (onerror h) = Some ERROR_MESSAGES.STREAM_DISCONNECTED
    /\ onErrorCalls (onerror h)
       = onErrorCalls h ++ [ERROR_MESSAGES.STREAM_DISCONNECTED]
    /\ pendingTimeouts (onerror h) = []
    /\ openSources (onerror h) = []).
  { destruct_hook h. subst mounted att esr tmo. hook_eval.
    repeat split. now apply filter_sources_ref. }
  destruct Hfacts as (H1 & H2 & H3 & H4 & H5).
  assert (Hex : Exhausted (onerror h)) by (repeat split; assumption).
  assert (Hstuck : forall ev, internal ev = true -> enabled (onerror h) ev = false)
    by (intros ev; apply exhausted_stuck, Hex).
  assert (Hterminal : forall evs h'',
            forallb internal evs = true -> run evs (onerror h) = Some h'' ->
            evs = [] /\ h'' = onerror h).
  { intros evs h'' Hint Hrun. destruct evs as [ | ev evs].
    - split; [reflexivity | ]. cbn [run] in Hrun. congruence.
    - cbn [forallb] in Hint. apply andb_prop in Hint as [Hev _].
      cbn [run] in Hrun. rewrite (Hstuck ev Hev) in Hrun. discriminate. }
  split; [exact H1 | split; [exact H2 | split; [exact H3 | ]]].
  split; [exact H4 | split; [exact H5 | split; [exact Hstuck | ]]].
  split; [exact Hterminal | ].
  intros evs h'' Hevs Hrun.
  destruct (exhausted_run evs _ _ Hex Hevs Hrun) as [(Hc & Ht & Ho) Hint].
  split; [exact Hc | split; [exact Ht | split; [exact Ho | ]]].
  split; [exact Hint | split].
  - intros ev. apply exhausted_stuck. repeat split; assumption.
  - intros ev. apply callerConnection_status.
Qed.

(** C4 does not hold as stated.  After [maxReconnectAttempts] = 5
    consecutive failures the retry counter is 4, the state is
    [reconnecting] and the fifth retry is pending, with a delay of 48000
    ms.  And when the counter has reached 5, the fifth retry is under way:
    if its source opens, the state becomes [connected] and the counter is
    reset, without any passage through [error]. *)
Lemma five_failures_not_error :
  option_map (fun h => (connectionStatus h, reconnectAttemptsRef h,
                        pendingTimeouts h, error h))
    (run (firstn 9 failures) (mount true))
  = Some (Status.reconnecting, 4%nat, [(9%nat, 48000)], None)
  /\ (connectionStatus exhausted, reconnectAttemptsRef exhausted)
     = (Status.reconnecting, SSE_CONFIG.maxReconnectAttempts)
  /\ enabled exhausted (EsOpen 10) = true
  /\ (connectionStatus (handle (EsOpen 10) exhausted),
      reconnectAttemptsRef (handle (EsOpen 10) exhausted),
      error (handle (EsOpen 10) exhausted))
     = (Status.connected, 0%nat, None).
Proof. vm_compute. repeat split. Qed.

Lemma retries_exhausted_witness :
  connectionStatus (handle (EsError 10) exhausted) = Status.error
  /\ (forall ev, internal ev = true ->
      enabled (handle (EsError 10) exhausted) ev = false).
Proof.
  assert (H : isMountedRef exhausted = true
              /\ enabled exhausted (EsError 10) = true
              /\ reconnectAttemptsRef exhausted = SSE_CONFIG.maxReconnectAttempts)
    by (vm_compute; repeat split; reflexivity).
  destruct H as (Hm & Hen & Hmax).
  destruct (retries_exhausted exhausted 10 exhausted_reachable Hm Hen Hmax)
    as (Hs & _ & _ & _ & _ & Hstuck & _).
  split; [exact Hs | exact Hstuck].
Defined.



End UseMetricsFacts.

(* ================================================================== *)
(** * The order of numbers *)
(* ================================================================== *)

Module OrderFacts.

Import JS JSSpec JSFacts OrderSpec.

Lemma compare_place (c : Z) (x y : number) :
  isNaN x = false -> isNaN y = false -> fits c x -> fits c y ->
  compare x y = Some (lex (place c x) (place c y)).
Proof.
  unfold compare, place, fits, lex.
  destruct x as [sx | sx | | sx mx ex], y as [sy | sy | | sy my ey];
    cbn [val isNaN fst snd]; try discriminate; intros _ _ Hx Hy;
    try (destruct sx); try (destruct sy); try reflexivity.
  all: rewrite ?Z.mul_0_l; cbn [Z.compare];
    try (rewrite (dy_compare_scale _ _ _ _ c) by lia);
    rewrite ?Z.mul_0_l; reflexivity.
Qed.

Lemma fits_weaken (c c' : Z) (x : number) : c <= c' -> fits c x -> fits c' x.
Proof. unfold fits. destruct (val x); auto. lia. Qed.

Lemma fits_exists (x : number) : exists c, 0 <= c /\ fits c x.
Proof.
  unfold fits. destruct (val x) as [ | s | M e]; try (exists 0; split; [lia | exact I]).
  exists (Z.max 0 (- e)). lia.
Qed.

Lemma fits_exists3 (x y z : number) :
  exists c, fits c x /\ fits c y /\ fits c z.
Proof.
  destruct (fits_exists x) as (cx & Hx0 & Hx), (fits_exists y) as (cy & Hy0 & Hy),
    (fits_exists z) as (cz & Hz0 & Hz).
  exists (cx + cy + cz). repeat split; eapply fits_weaken; eauto; lia.
Qed.

Lemma compare_not_nan (x y : number) (r : comparison) :
  compare x y = Some r -> isNaN x = false /\ isNaN y = false.
Proof.
  unfold compare. destruct x, y; cbn [val isNaN]; try discriminate; auto.
Qed.

Lemma leb_not_nan (x y : number) :
  leb x y = true -> isNaN x = false /\ isNaN y = false.
Proof.
  unfold leb. destruct (compare x y) as [r | ] eqn:E; [ | discriminate].
  intros _. eapply compare_not_nan; eauto.
Qed.

Lemma ltb_not_nan (x y : number) :
  ltb x y = true -> isNaN x = false /\ isNaN y = false.
Proof.
  unfold ltb. destruct (compare x y) as [r | ] eqn:E; [ | discriminate].
  intros _. eapply compare_not_nan; eauto.
Qed.

Lemma eqb_not_nan (x y : number) :
  eqb x y = true -> isNaN x = false /\ isNaN y = false.
Proof.
  unfold eqb. destruct (compare x y) as [r | ] eqn:E; [ | discriminate].
  intros _. eapply compare_not_nan; eauto.
Qed.

(** Decides a comparison of places, from hypotheses of the same kind. *)
Ltac lex_solve :=
  unfold lex in *;
  repeat match goal with
         | p : (Z * Z)%type |- _ => destruct p
         end;
  cbn [fst snd] in *;
  repeat match goal with
         | H : context [?a ?= ?b] |- _ =>
             destruct (Z.compare_spec a b); try discriminate
         | |- context [?a ?= ?b] =>
             destruct (Z.compare_spec a b); try discriminate
         end;
  try reflexivity; try congruence; try lia.

Lemma compare_refl (x : number) : isNaN x = false -> compare x x = Some Eq.
Proof.
  intros Hx. destruct (fits_exists x) as (c & _ & Hc).
  rewrite (compare_place c) by auto. f_equal.
  generalize (place c x) as p. intros p. lex_solve.
Qed.

Lemma leb_refl (x : number) : isNaN x = false -> leb x x = true.
Proof. intros Hx. unfold leb. now rewrite compare_refl. Qed.

Lemma compare_trans (x y z : number) (r : comparison) :
  compare x y = Some r -> compare y z = Some r -> compare x z = Some r.
Proof.
  intros Hxy Hyz.
  destruct (compare_not_nan _ _ _ Hxy) as [Hx Hy].
  destruct (compare_not_nan _ _ _ Hyz) as [_ Hz].
  destruct (fits_exists3 x y z) as (c & Hfx & Hfy & Hfz).
  rewrite (compare_place c) in * by auto.
  injection Hxy as Hxy. injection Hyz as Hyz. f_equal.
  revert Hxy Hyz.
  generalize (place c x) as p, (place c y) as q, (place c z) as t.
  intros p q t; destruct r; lex_solve.
Qed.

Lemma leb_trans (x y z : number) :
  leb x y = true -> leb y z = true -> leb x z = true.
Proof.
  intros Hxy Hyz.
  destruct (leb_not_nan _ _ Hxy) as [Hx Hy].
  destruct (leb_not_nan _ _ Hyz) as [_ Hz].
  destruct (fits_exists3 x y z) as (c & Hfx & Hfy & Hfz).
  unfold leb in *. rewrite (compare_place c) in * by auto.
  revert Hxy Hyz.
  generalize (place c x) as p, (place c y) as q, (place c z) as t.
  intros p q t. lex_solve.
Qed.

Lemma ltb_leb_trans (x y z : number) :
  ltb x y = true -> leb y z = true -> ltb x z = true.
Proof.
  intros Hxy Hyz.
  destruct (ltb_not_nan _ _ Hxy) as [Hx Hy].
  destruct (leb_not_nan _ _ Hyz) as [_ Hz].
  destruct (fits_exists3 x y z) as (c & Hfx & Hfy & Hfz).
  unfold leb, ltb in *. rewrite (compare_place c) in * by auto.
  revert Hxy Hyz.
  generalize (place c x) as p, (place c y) as q, (place c z) as t.
  intros p q t. lex_solve.
Qed.

Lemma leb_ltb_trans (x y z : number) :
  leb x y = true -> ltb y z = true -> ltb x z = true.
Proof.
  intros Hxy Hyz.
  destruct (leb_not_nan _ _ Hxy) as [Hx Hy].
  destruct (ltb_not_nan _ _ Hyz) as [_ Hz].
  destruct (fits_exists3 x y z) as (c & Hfx & Hfy & Hfz).
  unfold leb, ltb in *. rewrite (compare_place c) in * by auto.
  revert Hxy Hyz.
  generalize (place c x) as p, (place c y) as q, (place c z) as t.
  intros p q t. lex_solve.
Qed.

Lemma ltb_irrefl_leb (x y : number) : ltb x y = true -> leb y x = false.
Proof.
  intros H. unfold ltb, leb in *. rewrite (compare_antisym x y).
  destruct (compare x y) as [[ | | ] | ]; try discriminate. reflexivity.
Qed.

Lemma leb_antisym (x y : number) :
  leb x y = true -> leb y x = true -> eqb x y = true.
Proof.
  unfold leb, eqb. rewrite (compare_antisym x y).
  destruct (compare x y) as [[ | | ] | ]; cbn; auto; discriminate.
Qed.

Lemma eqb_leb (x y : number) : eqb x y = true -> leb x y = true /\ leb y x = true.
Proof.
  unfold leb, eqb. rewrite (compare_antisym x y).
  destruct (compare x y) as [[ | | ] | ]; cbn; auto; discriminate.
Qed.

Lemma eqb_sym (x y : number) : eqb x y = eqb y x.
Proof.
  unfold eqb. rewrite (compare_antisym x y).
  destruct (compare x y) as [[ | | ] | ]; reflexivity.
Qed.

End OrderFacts.

(* ================================================================== *)
(** * Integers in numbers *)
(* ================================================================== *)

Module IntegerFacts.

Import JS JSSpec JSFacts OrderSpec OrderFacts IntegerSpec.

(** ** Shifts that lose nothing *)

Lemma shr_1_even (q : Z) :
  0 <= q ->
  shr_1 {| shr_m := 2 * q; shr_r := false; shr_s := false |}
  = {| shr_m := q; shr_r := false; shr_s := false |}.
Proof. intros Hq. destruct q as [ | p | p]; [reflexivity | reflexivity | lia]. Qed.

Lemma iter_shr_1_exact (p : positive) :
  forall M, 0 <= M ->
  iter_pos shr_1 p {| shr_m := M * 2 ^ Zpos p; shr_r := false; shr_s := false |}
  = {| shr_m := M; shr_r := false; shr_s := false |}.
Proof.
  induction p as [p IH | p IH | ]; intros M HM; cbn [iter_pos].
  - replace (M * 2 ^ Zpos p~1) with (2 * ((M * 2 ^ Zpos p) * 2 ^ Zpos p)).
    + rewrite shr_1_even by (apply Z.mul_nonneg_nonneg;
        [apply Z.mul_nonneg_nonneg | ]; auto; apply Z.pow_nonneg; lia).
      rewrite IH by (apply Z.mul_nonneg_nonneg; auto; apply Z.pow_nonneg; lia).
      now apply IH.
    + rewrite Pos2Z.inj_xI.
      replace (2 * Zpos p + 1) with (Zpos p + Zpos p + 1) by lia.
      rewrite !Z.pow_add_r by lia. change (2 ^ 1) with 2. ring.
  - replace (M * 2 ^ Zpos p~0) with ((M * 2 ^ Zpos p) * 2 ^ Zpos p).
    + rewrite IH by (apply Z.mul_nonneg_nonneg; auto; apply Z.pow_nonneg; lia).
      now apply IH.
    + rewrite Pos2Z.inj_xO, <- Z.mul_assoc, <- Z.pow_add_r by lia.
      f_equal. f_equal. lia.
  - change (2 ^ 1) with 2. rewrite Z.mul_comm. now apply shr_1_even.
Qed.


(** ** Rounding an integer below [2 ^ 53] *)

(** A mantissa of 53 digits is its own rounding. *)
Lemma round_aux_canonical (s : bool) (mz : positive) (fe : Z) :
  Zpos (digits2_pos mz) = 53 -> -1074 <= fe <= 971 ->
  binary_round_aux prec emax s (Zpos mz) fe loc_Exact = S754_finite s mz fe.
Proof.
  intros Hd Hfe. unfold binary_round_aux.
  assert (Hsh : shr_fexp prec emax (Zpos mz) fe loc_Exact
                = (shr_record_of_loc (Zpos mz) loc_Exact, fe)).
  { apply (shr_fexp_spec (Zpos mz) fe loc_Exact); [lia | ].
    cbn [Zdigits2]. rewrite Hd, fexp_eq. lia. }
  rewrite Hsh. cbn [shr_record_of_loc loc_of_shr_record shr_m round_nearest_even].
  rewrite Hsh. cbn [shr_record_of_loc shr_m].
  replace (fe <=? emax - prec) with true; [reflexivity | ].
  symmetry. apply Z.leb_le. unfold emax, prec. lia.
Qed.

Lemma double_digits (z : Z) :
  0 < z < 2 ^ 53 ->
  1 <= Zdigits2 z <= 53
  /\ 0 < z * 2 ^ (53 - Zdigits2 z)
  /\ Zpos (digits2_pos (Z.to_pos (z * 2 ^ (53 - Zdigits2 z)))) = 53.
Proof.
  intros Hz. destruct z as [ | p | p]; try lia. cbn [Zdigits2].
  assert (Hd : 1 <= Zpos (digits2_pos p) <= 53).
  { split; [lia | ]. apply digits_le. lia. }
  assert (Hpos : 0 < Zpos p * 2 ^ (53 - Zpos (digits2_pos p))).
  { apply Z.mul_pos_pos; [lia | apply pow2_pos; lia]. }
  split; [exact Hd | split; [exact Hpos | ]].
  rewrite (digits_shl p _ (53 - Zpos (digits2_pos p))); [lia | lia | ].
  rewrite Z2Pos.id by exact Hpos. reflexivity.
Qed.

(** The rounding of [z * 2 ^ k] written with the exponent [- k]. *)
Lemma binary_round_int (s : bool) (m : positive) (k z : Z) :
  0 <= k -> 0 < z < 2 ^ 53 -> Zpos m = z * 2 ^ k ->
  binary_round prec emax s m (- k) = double s z.
Proof.
  intros Hk Hz Hm.
  destruct (double_digits z Hz) as (Hd & Hpos & Hd53).
  unfold double. set (d := Zdigits2 z) in *.
  set (mz := Z.to_pos (z * 2 ^ (53 - d))) in *.
  assert (Hmz : Zpos mz = z * 2 ^ (53 - d)) by (unfold mz; now rewrite Z2Pos.id).
  assert (Hdm : Zpos (digits2_pos m) = d + k).
  { destruct z as [ | p | p]; try lia.
    apply (digits_shl p m k); [lia | exact Hm]. }
  unfold binary_round. rewrite Hdm, fexp_eq.
  replace (Z.max (d + k + - k - 53) (-1074)) with (d - 53) by lia.
  destruct (Z_le_gt_dec (d - 53) (- k)) as [Hle | Hgt].
  - pose proof (shl_align_fst m (- k) (d - 53) Hle) as Hfst.
    pose proof (shl_align_snd m (- k) (d - 53)) as Hsnd.
    destruct (shl_align m (- k) (d - 53)) as [mz' ez]. cbn [fst snd] in Hfst, Hsnd.
    rewrite Z.min_r in Hsnd by lia. subst ez.
    assert (mz' = mz).
    { apply Pos2Z.inj. rewrite Hfst, Hmz, Hm, <- Z.mul_assoc, <- Z.pow_add_r by lia.
      f_equal. f_equal. lia. }
    subst mz'. apply round_aux_canonical; [exact Hd53 | lia].
  - assert (Hsh : shl_align m (- k) (d - 53) = (m, - k)).
    { unfold shl_align. destruct (d - 53 - - k) eqn:E; try lia; reflexivity. }
    rewrite Hsh. unfold binary_round_aux.
    assert (Hfirst : shr_fexp prec emax (Zpos m) (- k) loc_Exact
                     = ({| shr_m := Zpos mz; shr_r := false; shr_s := false |},
                        d - 53)).
    { unfold shr_fexp. cbn [Zdigits2]. rewrite Hdm, fexp_eq.
      replace (Z.max (d + k + - k - 53) (-1074) - - k) with (d - 53 + k) by lia.
      destruct (d - 53 + k) as [ | p | p] eqn:E; try lia.
      cbn [shr shr_record_of_loc]. f_equal; [ | lia].
      rewrite <- (iter_shr_1_exact p (Zpos mz)) by lia. f_equal. f_equal.
      rewrite Hm, Hmz, <- Z.mul_assoc, <- Z.pow_add_r by lia.
      f_equal. f_equal. lia. }
    rewrite Hfirst. cbn [loc_of_shr_record shr_m round_nearest_even].
    assert (Hsecond : shr_fexp prec emax (Zpos mz) (d - 53) loc_Exact
                      = (shr_record_of_loc (Zpos mz) loc_Exact, d - 53)).
    { apply (shr_fexp_spec (Zpos mz) (d - 53) loc_Exact); [lia | ].
      cbn [Zdigits2]. rewrite Hd53, fexp_eq. lia. }
    rewrite Hsecond. cbn [shr_record_of_loc shr_m].
    replace (d - 53 <=? emax - prec) with true; [reflexivity | ].
    symmetry. apply Z.leb_le. unfold emax, prec. lia.
Qed.

(** An integer below [2 ^ 53] is held exactly. *)
Lemma ofZ_pos (z : Z) : 0 < z < 2 ^ 53 -> ofZ z = double false z.
Proof.
  intros Hz. unfold ofZ. destruct z as [ | p | p]; try lia.
  cbn [binary_normalize]. change 0 with (- 0).
  apply binary_round_int; [lia | exact Hz | ]. rewrite Z.pow_0_r. lia.
Qed.

Lemma ofZ_neg (z : Z) : 0 < z < 2 ^ 53 -> ofZ (- z) = double true z.
Proof.
  intros Hz. unfold ofZ. destruct z as [ | p | p]; try lia.
  cbn [Z.opp binary_normalize]. change 0 with (- 0).
  apply binary_round_int; [lia | exact Hz | ]. rewrite Z.pow_0_r. lia.
Qed.

Lemma ofZ_zero : ofZ 0 = n0.
Proof. reflexivity. Qed.

(** The rounding of an integer written at a lower exponent. *)
Lemma normalize_int (z k : Z) :
  0 <= k -> 0 <= z < 2 ^ 53 ->
  binary_normalize prec emax (z * 2 ^ k) (- k) false = ofZ z.
Proof.
  intros Hk Hz. destruct (Z.eq_dec z 0) as [-> | Hne]; [reflexivity | ].
  rewrite ofZ_pos by lia.
  assert (Hpos : 0 < z * 2 ^ k) by (apply Z.mul_pos_pos; [lia | apply pow2_pos; lia]).
  destruct (z * 2 ^ k) as [ | m | m] eqn:E; try lia.
  cbn [binary_normalize]. apply binary_round_int; [exact Hk | lia | now rewrite E].
Qed.

(** ** Integer arithmetic and order in numbers *)

Lemma val_double (s : bool) (z : Z) :
  0 < z < 2 ^ 53 ->
  val (double s z)
  = XFin (cond_Zopp s (z * 2 ^ (53 - Zdigits2 z))) (Zdigits2 z - 53).
Proof.
  intros Hz. destruct (double_digits z Hz) as (_ & Hpos & _).
  unfold double. cbn [val]. now rewrite Z2Pos.id.
Qed.

Lemma add_int (a b : Z) :
  0 <= a -> 0 <= b -> a + b < 2 ^ 53 -> add (ofZ a) (ofZ b) = ofZ (a + b).
Proof.
  intros Ha Hb Hab.
  destruct (Z.eq_dec a 0) as [-> | Hna].
  { rewrite ofZ_zero. cbn [Z.add]. unfold add, n0, pzero.
    destruct (Z.eq_dec b 0) as [-> | Hnb]; [reflexivity | ].
    rewrite ofZ_pos by lia. reflexivity. }
  destruct (Z.eq_dec b 0) as [-> | Hnb].
  { rewrite ofZ_zero, Z.add_0_r. rewrite ofZ_pos by lia. reflexivity. }
  rewrite (ofZ_pos a), (ofZ_pos b) by lia.
  destruct (double_digits a ltac:(lia)) as (Hda & Hpa & _).
  destruct (double_digits b ltac:(lia)) as (Hdb & Hpb & _).
  unfold double. rewrite add_finite. rewrite !Z2Pos.id by assumption.
  cbn [cond_Zopp].
  set (ea := Zdigits2 a - 53) in *. set (eb := Zdigits2 b - 53) in *.
  set (e := Z.min ea eb).
  replace (53 - Zdigits2 a) with (- ea) by (unfold ea; lia).
  replace (53 - Zdigits2 b) with (- eb) by (unfold eb; lia).
  rewrite <- !Z.mul_assoc, <- !Z.pow_add_r by (unfold ea, eb, e in *; lia).
  replace (- ea + (ea - e)) with (- e) by lia.
  replace (- eb + (eb - e)) with (- e) by lia.
  rewrite <- Z.mul_add_distr_r.
  replace e with (- (- e)) at 2 by lia.
  apply normalize_int; unfold ea, eb, e in *; lia.
Qed.

Lemma compare_int (a b : Z) :
  0 <= a < 2 ^ 53 -> 0 <= b < 2 ^ 53 ->
  compare (ofZ a) (ofZ b) = Some (a ?= b).
Proof.
  intros Ha Hb.
  assert (Hplace : forall z, 0 <= z < 2 ^ 53 ->
            isNaN (ofZ z) = false /\ fits 53 (ofZ z)
            /\ place 53 (ofZ z) = (0, z * 2 ^ 53)).
  { intros z Hz. destruct (Z.eq_dec z 0) as [-> | Hne]; [repeat split; cbn; lia | ].
    rewrite ofZ_pos by lia.
    destruct (double_digits z ltac:(lia)) as (Hd & _ & _).
    unfold fits, place. rewrite val_double by lia. cbn [cond_Zopp].
    split; [reflexivity | split; [lia | ]].
    rewrite <- Z.mul_assoc, <- Z.pow_add_r by lia. f_equal. f_equal. f_equal. lia. }
  destruct (Hplace a Ha) as (Hna & Hfa & Hpa), (Hplace b Hb) as (Hnb & Hfb & Hpb).
  rewrite (compare_place 53) by assumption. rewrite Hpa, Hpb.
  unfold lex. cbn [fst snd Z.compare]. f_equal.
  symmetry. apply Zmult_compare_compat_r. reflexivity.
Qed.

Lemma ltb_int (a b : Z) :
  0 <= a < 2 ^ 53 -> 0 <= b < 2 ^ 53 -> ltb (ofZ a) (ofZ b) = (a <? b).
Proof.
  intros Ha Hb. unfold ltb. rewrite compare_int by assumption.
  unfold Z.ltb. destruct (a ?= b); reflexivity.
Qed.

Lemma toInteger_int (z : Z) : 0 <= z < 2 ^ 53 -> toInteger (ofZ z) = z.
Proof.
  intros Hz. destruct (Z.eq_dec z 0) as [-> | Hne]; [reflexivity | ].
  rewrite ofZ_pos by lia.
  destruct (double_digits z ltac:(lia)) as (Hd & Hpos & _).
  unfold double, toInteger. rewrite Z2Pos.id by exact Hpos. cbn [cond_Zopp].
  destruct (0 <=? Zdigits2 z - 53) eqn:E.
  - apply Z.leb_le in E. replace (Zdigits2 z) with 53 by lia.
    cbn. lia.
  - apply Z.leb_gt in E.
    replace (- (Zdigits2 z - 53)) with (53 - Zdigits2 z) by lia.
    rewrite Z.quot_mul; [reflexivity | ].
    apply Z.neq_sym, Z.lt_neq, pow2_pos. lia.
Qed.

Lemma toInteger_neg_int (z : Z) :
  0 <= z < 2 ^ 53 -> toInteger (neg (ofZ z)) = - z.
Proof.
  intros Hz. destruct (Z.eq_dec z 0) as [-> | Hne]; [reflexivity | ].
  rewrite ofZ_pos by lia.
  destruct (double_digits z ltac:(lia)) as (Hd & Hpos & _).
  unfold double, neg, toInteger. cbn [SFopp negb].
  rewrite Z2Pos.id by exact Hpos. cbn [cond_Zopp].
  destruct (0 <=? Zdigits2 z - 53) eqn:E.
  - apply Z.leb_le in E. replace (Zdigits2 z) with 53 by lia.
    cbn. lia.
  - apply Z.leb_gt in E.
    replace (- (Zdigits2 z - 53)) with (53 - Zdigits2 z) by lia.
    rewrite Z.quot_opp_l, Z.quot_mul; [reflexivity | | ];
      apply Z.neq_sym, Z.lt_neq, pow2_pos; lia.
Qed.

End IntegerFacts.

Module IndexFacts.

Import JS JSSpec JSFacts OrderFacts IntegerSpec IntegerFacts IndexSpec.

(** ** The rounding bit of a shift *)

Lemma shr_1_r mrs : 0 <= shr_m mrs -> shr_r (shr_1 mrs) = Z.odd (shr_m mrs).
Proof.
  destruct mrs as [m r s]; simpl.
  destruct m as [ | [p | p | ] | p ]; cbn [shr_m shr_r]; intros H; try lia;
    reflexivity.
Qed.

Lemma shr_r_iter (p : positive) : forall mrs,
  0 <= shr_m mrs ->
  shr_r (iter_pos shr_1 p mrs) = Z.odd (shr_m mrs / 2 ^ (Zpos p - 1)).
Proof.
  assert (Hnn : forall q mrs, 0 <= shr_m mrs -> 0 <= shr_m (iter_pos shr_1 q mrs)).
  { intros q mrs. apply (iter_pos_invariant (fun x => 0 <= shr_m x)).
    apply shr_1_nonneg. }
  assert (Hp2 : forall a, 0 <= a -> 0 < 2 ^ a) by (intros; apply pow2_pos; lia).
  induction p as [p IH | p IH | ]; intros mrs Hm; cbn [iter_pos].
  - rewrite IH by auto using shr_1_nonneg.
    rewrite iter_shr_1_m, shr_1_m by auto using shr_1_nonneg.
    pose proof (Hp2 (Zpos p) ltac:(lia)). pose proof (Hp2 (Zpos p - 1) ltac:(lia)).
    rewrite !Z.div_div by lia. f_equal. f_equal.
    replace (Zpos p~1 - 1) with (1 + Zpos p + (Zpos p - 1)) by lia.
    rewrite !Z.pow_add_r by lia. change (2 ^ 1) with 2. ring.
  - rewrite IH by auto. rewrite iter_shr_1_m by auto.
    pose proof (Hp2 (Zpos p) ltac:(lia)). pose proof (Hp2 (Zpos p - 1) ltac:(lia)).
    rewrite !Z.div_div by lia. f_equal. f_equal.
    replace (Zpos p~0 - 1) with (Zpos p + (Zpos p - 1)) by lia.
    rewrite !Z.pow_add_r by lia. ring.
  - rewrite shr_1_r by auto. change (2 ^ (1 - 1)) with 1. now rewrite Z.div_1_r.
Qed.

(** Rounding to nearest after a shift of [p] bits adds at most half of what
    the shift can hold. *)
Lemma round_shifted (P : Z) (p : positive) :
  0 <= P ->
  let mrs := iter_pos shr_1 p (shr_record_of_loc P loc_Exact) in
  let q := round_nearest_even (shr_m mrs) (loc_of_shr_record mrs) in
  0 <= q /\ q * 2 ^ Zpos p <= P + 2 ^ (Zpos p - 1).
Proof.
  intros HP mrs q.
  assert (Hm : shr_m mrs = P / 2 ^ Zpos p).
  { unfold mrs. rewrite iter_shr_1_m; now rewrite shr_record_of_loc_m. }
  assert (Hr : shr_r mrs = Z.odd (P / 2 ^ (Zpos p - 1))).
  { unfold mrs. rewrite shr_r_iter; now rewrite shr_record_of_loc_m. }
  assert (H2p : 0 < 2 ^ Zpos p) by (apply pow2_pos; lia).
  assert (H2p1 : 0 < 2 ^ (Zpos p - 1)) by (apply pow2_pos; lia).
  assert (Hsplit : 2 ^ Zpos p = 2 * 2 ^ (Zpos p - 1)).
  { replace (Zpos p) with (1 + (Zpos p - 1)) at 1 by lia.
    rewrite Z.pow_add_r by lia. reflexivity. }
  assert (Hlow : shr_m mrs * 2 ^ Zpos p <= P).
  { rewrite Hm, Z.mul_comm. apply Z.mul_div_le. lia. }
  assert (Hnn : 0 <= shr_m mrs) by (rewrite Hm; apply Z.div_pos; lia).
  assert (Hq : q = shr_m mrs \/ (q = shr_m mrs + 1 /\ shr_r mrs = true)).
  { unfold q. destruct mrs as [m r s]. cbn [shr_m shr_r loc_of_shr_record].
    destruct r, s; cbn [round_nearest_even]; auto.
    destruct (Z.even m); auto. }
  destruct Hq as [-> | [-> Hodd]]; [split; [exact Hnn | lia] | ].
  split; [lia | ].
  rewrite Hr in Hodd.
  set (h := P / 2 ^ (Zpos p - 1)) in *.
  assert (Hh : h / 2 = shr_m mrs).
  { unfold h. rewrite Hm, Z.div_div, (Z.mul_comm _ 2), <- Hsplit by lia.
    reflexivity. }
  assert (Hh2 : h = 2 * (h / 2) + 1).
  { rewrite (Z.div_mod h 2) at 1 by lia. f_equal.
    rewrite Zmod_odd, Hodd. reflexivity. }
  assert (Hhl : h * 2 ^ (Zpos p - 1) <= P).
  { unfold h. rewrite Z.mul_comm. apply Z.mul_div_le. lia. }
  rewrite Hh in Hh2. rewrite Hsplit. nia.
Qed.

(** ** Rounding below a bound *)

Lemma second_below (q e1 E B : Z) :
  0 <= q -> E <= e1 -> q * 2 ^ (e1 - E) < B -> B <= 2 ^ (53 - E) ->
  valueBelow B E
    (let '(mrs2, e2) := shr_fexp prec emax q e1 loc_Exact in
     match shr_m mrs2 with
     | Z0 => S754_zero false
     | Zpos m => if e2 <=? emax - prec then S754_finite false m e2
                 else S754_infinity false
     | Zneg _ => S754_nan
     end).
Proof.
  intros Hq HE Hlt HB.
  assert (Hexp : forall m e2, 0 < m -> E <= e2 -> m * 2 ^ (e2 - E) < B -> e2 <= 971).
  { intros m e2 Hm He2 Hm2.
    assert (2 ^ (e2 - E) < 2 ^ (53 - E)).
    { apply Z.le_lt_trans with (m * 2 ^ (e2 - E)); [ | lia].
      assert (0 < 2 ^ (e2 - E)) by (apply pow2_pos; lia). nia. }
    assert (e2 - E < 53 - E); [ | lia].
    apply pow2_lt_mono_inv; [ | assumption].
    destruct (Z_lt_le_dec (53 - E) 0) as [Hneg | ]; [ | lia].
    rewrite (Z.pow_neg_r 2 (53 - E)) in H by lia.
    assert (0 < 2 ^ (e2 - E)) by (apply pow2_pos; lia). lia. }
  destruct (shr_fexp_spec q e1 loc_Exact Hq) as [H0 Hpos].
  destruct (Z_le_gt_dec (fexp prec emax (Zdigits2 q + e1) - e1) 0) as [Hz | Hz].
  - rewrite (H0 Hz). cbn [shr_record_of_loc shr_m].
    destruct q as [ | m | m]; [exact I | | lia].
    replace (e1 <=? emax - prec) with true.
    + cbn [valueBelow]. split; assumption.
    + symmetry. apply Z.leb_le. change (emax - prec) with 971.
      apply (Hexp (Zpos m)); auto. lia.
  - destruct (Hpos ltac:(lia)) as [Hm2 He2].
    destruct (shr_fexp prec emax q e1 loc_Exact) as [mrs2 e2].
    cbn [fst snd] in Hm2, He2.
    set (n2 := fexp prec emax (Zdigits2 q + e1) - e1) in *.
    assert (H2n : 0 < 2 ^ n2) by (apply pow2_pos; lia).
    assert (Hdiv : 0 <= q / 2 ^ n2) by (apply Z.div_pos; lia).
    assert (Hle : (q / 2 ^ n2) * 2 ^ (e2 - E) <= q * 2 ^ (e1 - E)).
    { subst e2. replace (e1 + n2 - E) with (n2 + (e1 - E)) by lia.
      rewrite Z.pow_add_r, Z.mul_assoc by lia.
      apply Z.mul_le_mono_nonneg_r; [apply Z.lt_le_incl, pow2_pos; lia | ].
      rewrite Z.mul_comm. apply Z.mul_div_le. lia. }
    destruct (shr_m mrs2) as [ | m2 | m2]; [exact I | | lia].
    replace (e2 <=? emax - prec) with true.
    + cbn [valueBelow]. split; [lia | ]. rewrite Hm2. lia.
    + symmetry. apply Z.leb_le. change (emax - prec) with 971.
      apply (Hexp (Zpos m2)); [lia | lia | ]. rewrite Hm2. lia.
Qed.

Lemma round_aux_below (P : positive) (E B : Z) :
  (let s := fexp prec emax (Zpos (digits2_pos P) + E) - E in
   Zpos P + (if 0 <? s then 2 ^ (s - 1) else 0) < B) ->
  B <= 2 ^ (53 - E) ->
  valueBelow B E (binary_round_aux prec emax false (Zpos P) E loc_Exact).
Proof.
  cbv zeta. intros Hlt HB. unfold binary_round_aux, shr_fexp at 1.
  cbn [Zdigits2].
  destruct (fexp prec emax (Zpos (digits2_pos P) + E) - E) as [ | p | p] eqn:Es;
    cbn [shr].
  - cbn [shr_record_of_loc shr_m loc_of_shr_record round_nearest_even].
    cbn [Z.ltb Z.compare] in Hlt.
    apply second_below; [lia | lia | | exact HB].
    rewrite Z.sub_diag, Z.pow_0_r. lia.
  - destruct (round_shifted (Zpos P) p ltac:(lia)) as [Hq0 Hq].
    cbv zeta in Hq0, Hq.
    apply second_below; [exact Hq0 | lia | | exact HB].
    replace (E + Zpos p - E) with (Zpos p) by lia.
    cbn [Z.ltb Z.compare] in Hlt. lia.
  - cbn [shr_record_of_loc shr_m loc_of_shr_record round_nearest_even].
    cbn [Z.ltb Z.compare] in Hlt.
    apply second_below; [lia | lia | | exact HB].
    rewrite Z.sub_diag, Z.pow_0_r. lia.
Qed.


(** ** A random index *)

(** The half of the last place that the rounding of a product can add is
    below the mantissa of a factor of 53 digits. *)
Lemma product_slack (m mn : positive) (e k : Z) :
  bounded prec emax m e = true -> 0 <= k <= 52 ->
  2 ^ 52 <= Zpos mn ->
  let E := e - k in
  let s := fexp prec emax (Zpos (digits2_pos (m * mn)) + E) - E in
  (if 0 <? s then 2 ^ (s - 1) else 0) < Zpos mn.
Proof.
  intros Hb Hk Hmn E s.
  destruct (0 <? s) eqn:Es; [apply Z.ltb_lt in Es | lia].
  unfold s in *. rewrite fexp_eq in *.
  set (dP := Zpos (digits2_pos (m * mn))) in *.
  assert (Hm53 : Zpos m < 2 ^ 53).
  { pose proof (digits2_pos_spec m) as Hs.
    apply Z.lt_le_trans with (2 ^ Zpos (digits2_pos m)); [lia | ].
    apply Z.pow_le_mono_r; [lia | ].
    destruct (canonical_cases m e Hb) as [[Hdm _] | [Hdm _]]; lia. }
  assert (He : -1074 <= e) by (destruct (canonical_cases m e Hb) as [[_ ?] | [_ ?]]; lia).
  destruct (Z.max_spec (dP + E - 53) (-1074)) as [[_ Hmax] | [_ Hmax]];
    rewrite Hmax in *.
  - apply Z.le_lt_trans with (2 ^ 51); [apply Z.pow_le_mono_r; unfold E in *; lia | ].
    apply Z.lt_le_trans with (2 ^ 52); [ | exact Hmn].
    apply Z.pow_lt_mono_r; lia.
  - replace (dP + E - 53 - E - 1) with (dP - 54) by lia.
    assert (Hd54 : 0 <= dP - 54) by lia.
    pose proof (digits2_pos_spec (m * mn)) as Hs. fold dP in Hs.
    rewrite Pos2Z.inj_mul in Hs. destruct Hs as [Hs _].
    replace (dP - 1) with (53 + (dP - 54)) in Hs by lia.
    rewrite Z.pow_add_r in Hs by lia.
    apply (Z.mul_lt_mono_pos_l (2 ^ 53)); [apply pow2_pos; lia | ].
    apply Z.le_lt_trans with (Zpos m * Zpos mn); [exact Hs | ].
    apply Z.mul_lt_mono_pos_r; lia.
Qed.

(** The product of a number of [[0, 1)] and of an integer [n] below
    [2 ^ 53], rounded, is still below [n]. *)
Lemma mul_unit_below (r : number) (n : Z) :
  unitInterval r = true -> 1 <= n < 2 ^ 53 ->
  exists E, E < 0 /\ valueBelow (n * 2 ^ (- E)) E (mul r (ofZ n)).
Proof.
  intros Hr Hn. unfold unitInterval in Hr.
  apply andb_true_iff in Hr as [Hmag Hsign]. apply negb_true_iff in Hsign.
  rewrite ofZ_pos by lia.
  destruct (double_digits n ltac:(lia)) as (Hd & Hpos & Hd53).
  unfold double. set (d := Zdigits2 n) in *.
  set (mn := Z.to_pos (n * 2 ^ (53 - d))) in *.
  assert (Hmn : Zpos mn = n * 2 ^ (53 - d)) by (unfold mn; now rewrite Z2Pos.id).
  pose proof (digits2_pos_spec mn) as Hspec. rewrite Hd53 in Hspec.
  change (53 - 1) with 52 in Hspec. destruct Hspec as [Hmn52 Hmn53].
  destruct r as [sr | sr | | sr m e]; try discriminate.
  - exists (-1). split; [lia | exact I].
  - cbn [sign_of] in Hsign. subst sr. cbn [mag_lt] in Hmag.
    apply andb_true_iff in Hmag as [Hb Hm]. apply Z.ltb_lt in Hm.
    replace (0 - e) with (- e) in Hm by lia.
    assert (He : e < 0).
    { destruct (Z_lt_le_dec e 0) as [ | Hge]; [assumption | ].
      destruct (Z.eq_dec e 0) as [-> | ]; [simpl in Hm; lia | ].
      rewrite Z.pow_neg_r in Hm by lia. lia. }
    set (k := 53 - d).
    exists (e - k). split; [lia | ].
    assert (H2e : 0 < 2 ^ (- e)) by (apply pow2_pos; lia).
    assert (H2k : 0 < 2 ^ k) by (apply pow2_pos; lia).
    assert (HB : n * 2 ^ (- (e - k)) = Zpos mn * 2 ^ (- e)).
    { replace (- (e - k)) with (k + - e) by lia.
      rewrite Z.pow_add_r, Z.mul_assoc by lia. now rewrite Hmn. }
    rewrite HB.
    unfold mul. cbn [SFmul xorb].
    replace (e + (d - 53)) with (e - k) by lia.
    apply round_aux_below.
    + pose proof (product_slack m mn e k Hb ltac:(lia) Hmn52) as Hslack.
      cbv zeta in Hslack |- *.
      rewrite Pos2Z.inj_mul.
      apply Z.lt_le_trans with (Zpos m * Zpos mn + Zpos mn); [lia | ].
      replace (Zpos m * Zpos mn + Zpos mn) with (Zpos mn * (Zpos m + 1)) by ring.
      apply Z.mul_le_mono_nonneg_l; lia.
    + replace (53 - (e - k)) with (53 + - e + k) by lia.
      rewrite !Z.pow_add_r by lia.
      apply Z.le_trans with (2 ^ 53 * 2 ^ (- e) * 1); [ | apply Z.mul_le_mono_nonneg_l; lia].
      rewrite Z.mul_1_r. apply Z.mul_le_mono_nonneg_r; lia.
Qed.

End IndexFacts.

(* ================================================================== *)
(** * Facts about the numeric helpers *)
(* ================================================================== *)

Module NumericFacts.

Import JS JSSpec JSFacts OrderSpec OrderFacts IntegerSpec IntegerFacts Numeric
  NumericSpec.
Local Open Scope js_scope.

(** ** [clamp] *)

Lemma Math_max_cases (x y : number) :
  isNaN x = false -> isNaN y = false ->
  (Math_max x y = x \/ Math_max x y = y)
  /\ leb x (Math_max x y) = true /\ leb y (Math_max x y) = true.
Proof.
  intros Hx Hy. unfold Math_max.
  destruct (compare x y) as [[ | | ] | ] eqn:E.
  - assert (Hxy : leb x y = true) by (unfold leb; now rewrite E).
    assert (Hyx : leb y x = true)
      by (unfold leb; rewrite (compare_antisym x y), E; reflexivity).
    destruct x as [[ | ] | | | ]; auto using leb_refl.
  - split; [now right | ]. split; [unfold leb; now rewrite E | now apply leb_refl].
  - split; [now left | ]. split; [now apply leb_refl | now apply leb_of_gt].
  - destruct (compare_some x y Hx Hy) as [c Hc]. congruence.
Qed.

Lemma Math_min_cases (x y : number) :
  isNaN x = false -> isNaN y = false ->
  (Math_min x y = x \/ Math_min x y = y)
  /\ leb (Math_min x y) x = true /\ leb (Math_min x y) y = true.
Proof.
  intros Hx Hy. unfold Math_min.
  destruct (compare x y) as [[ | | ] | ] eqn:E.
  - assert (Hxy : leb x y = true) by (unfold leb; now rewrite E).
    assert (Hyx : leb y x = true)
      by (unfold leb; rewrite (compare_antisym x y), E; reflexivity).
    destruct y as [[ | ] | | | ]; auto using leb_refl.
  - split; [now left | ]. split; [now apply leb_refl | unfold leb; now rewrite E].
  - split; [now right | ]. split; [now apply leb_of_gt | now apply leb_refl].
  - destruct (compare_some x y Hx Hy) as [c Hc]. congruence.
Qed.

Lemma clamp_ordered (value lo hi : number) :
  isNaN value = false -> (lo <=? hi) = true ->
  let c := clamp value lo hi in
  (lo <=? c) = true /\ (c <=? hi) = true
  /\ ((lo <=? value) = true -> (value <=? hi) = true -> (c === value) = true)
  /\ ((value <? lo) = true -> (c === lo) = true)
  /\ ((hi <? value) = true -> (c === hi) = true).
Proof.
  intros Hv Hlh. cbv zeta. unfold clamp.
  destruct (leb_not_nan _ _ Hlh) as [Hlo Hhi].
  destruct (Math_max_cases value lo Hv Hlo) as (HM & HvM & HlM).
  set (M := Math_max value lo) in *.
  assert (HMn : isNaN M = false) by (destruct HM as [-> | ->]; assumption).
  destruct (Math_min_cases M hi HMn Hhi) as (Hc & HcM & Hch).
  set (c := Math_min M hi) in *.
  assert (Hcn : isNaN c = false) by (destruct Hc as [-> | ->]; assumption).
  split; [ | split; [exact Hch | ]].
  { destruct Hc as [-> | ->]; assumption. }
  split; [ | split].
  - intros Hlv Hvh. apply leb_antisym.
    + destruct HM as [HM | HM]; rewrite HM in HcM; [exact HcM | ].
      now apply (leb_trans _ lo _).
    + destruct Hc as [-> | ->]; [exact HvM | exact Hvh].
  - intros Hvl.
    assert (HMl : leb M lo = true).
    { destruct HM as [-> | ->]; [ | now apply leb_refl].
      unfold ltb in Hvl. unfold leb.
      destruct (compare value lo) as [[ | | ] | ]; try discriminate; reflexivity. }
    apply leb_antisym.
    + apply (leb_trans _ M _); assumption.
    + destruct Hc as [-> | ->]; assumption.
  - intros Hhv.
    assert (HhM : leb hi M = true).
    { apply (leb_trans _ value _); [ | exact HvM].
      unfold ltb in Hhv. unfold leb.
      destruct (compare hi value) as [[ | | ] | ]; try discriminate; reflexivity. }
    apply leb_antisym; [exact Hch | ].
    destruct Hc as [-> | ->]; [exact HhM | now apply leb_refl].
Qed.

(** [clamp].  A [NaN] value gives [NaN].  With bounds in order, any other
    value gives a number between the bounds: the value itself when it is
    between them, the lower bound when it is below and the upper bound when
    it is above.  With bounds out of order, [max < min], the result is
    [max] whatever the value. *)
Theorem clamp_within (value lo hi : number) :
  let c := clamp value lo hi in
  (isNaN value = true -> c = NaN)
  /\ (isNaN value = false -> (lo <=? hi) = true ->
      (lo <=? c) = true /\ (c <=? hi) = true
      /\ ((lo <=? value) = true -> (value <=? hi) = true -> (c === value) = true)
      /\ ((value <? lo) = true -> (c === lo) = true)
      /\ ((hi <? value) = true -> (c === hi) = true))
  /\ (isNaN value = false -> (hi <? lo) = true -> c = hi).
Proof.
  cbv zeta. split; [ | split].
  - intros Hv. destruct value; try discriminate. reflexivity.
  - intros Hv Hlh. now apply clamp_ordered.
  - intros Hv Hhl. unfold clamp.
    destruct (ltb_not_nan _ _ Hhl) as [Hhi Hlo].
    destruct (Math_max_cases value lo Hv Hlo) as (_ & _ & HlM).
    pose proof (ltb_leb_trans _ _ _ Hhl HlM) as HhM.
    unfold ltb in HhM. unfold Math_min.
    rewrite (compare_antisym hi (Math_max value lo)).
    destruct (compare hi (Math_max value lo)) as [[ | | ] | ];
      try discriminate; reflexivity.
Qed.


(** ** [lerp] and [mapRange] *)

Lemma eqb_refl (x : number) : isNaN x = false -> (x === x) = true.
Proof. intros Hx. unfold eqb. now rewrite compare_refl. Qed.

Lemma eqb_same_zero (x : number) (s : bool) :
  isFinite x = true -> (add x (S754_zero s) === x) = true.
Proof.
  destruct x as [sx | sx | | sx mx ex]; try discriminate; intros _.
  - destruct sx, s; reflexivity.
  - apply eqb_refl. reflexivity.
Qed.


(** [lerp] at [t = 0], between finite points: it is [start] when the
    difference [end - start] is finite, and [NaN] when the difference
    overflows. *)
Theorem lerp_at_start (start end_ : number) :
  isFinite start = true -> isFinite end_ = true ->
  if isFinite (end_ - start) then (lerp start end_ n0 === start) = true
  else lerp start end_ n0 = NaN.
Proof.
  intros Hs He. unfold lerp.
  pose proof (sub_finite_not_nan end_ start He Hs) as Hd.
  destruct (end_ - start) as [sd | sd | | sd md ed]; try discriminate;
    cbn [isFinite].
  - apply eqb_same_zero. exact Hs.
  - destruct start; try discriminate; reflexivity.
  - apply eqb_same_zero. exact Hs.
Qed.

Lemma lerp_at_start_witness :
  lerp (neg UtilsSpec.n1e308) UtilsSpec.n1e308 n0 = NaN
  /\ (lerp n1 n100 n0 === n1) = true.
Proof.
  split.
  - apply (lerp_at_start (neg UtilsSpec.n1e308) UtilsSpec.n1e308 eq_refl eq_refl).
  - apply (lerp_at_start n1 n100 eq_refl eq_refl).
Defined.

Lemma eqb_finite_zero (s : bool) (m : positive) (e : Z) (z : bool) :
  (S754_finite s m e === S754_zero z) = false
  /\ (S754_zero z === S754_finite s m e) = false.
Proof.
  assert (H : (S754_finite s m e === S754_zero z) = false).
  { unfold eqb, compare. cbn [val].
    rewrite (dy_compare_scale _ _ _ _ (Z.max 0 (- e))) by lia.
    assert (0 < 2 ^ (e + Z.max 0 (- e))) by (apply pow2_pos; lia).
    destruct (Z.compare_spec (cond_Zopp s (Zpos m) * 2 ^ (e + Z.max 0 (- e)))
                (0 * 2 ^ (0 + Z.max 0 (- e)))); try reflexivity.
    destruct s; cbn [cond_Zopp] in *; nia. }
  split; [exact H | now rewrite eqb_sym].
Qed.

(** The difference of two numbers that are equal is a zero, or [NaN] when
    they are infinite. *)
Lemma eqb_sub (x y : number) :
  (x === y) = true -> y - x = NaN \/ exists s, y - x = S754_zero s.
Proof.
  intros Heq.
  destruct x as [sx | sx | | sx mx ex], y as [sy | sy | | sy my ey];
    try discriminate;
    try (unfold eqb, compare in Heq; cbn [val] in Heq;
         (discriminate || (destruct sx; discriminate)
          || (destruct sy; discriminate))).
  - right. destruct sx, sy; eexists; reflexivity.
  - now rewrite (proj2 (eqb_finite_zero sy my ey sx)) in Heq.
  - left. destruct sx, sy; try discriminate; reflexivity.
  - now rewrite (proj1 (eqb_finite_zero sx mx ex sy)) in Heq.
  - right. exists false. rewrite sub_finite.
    unfold eqb, compare in Heq. cbn [val] in Heq. unfold dy_compare in Heq.
    destruct (Z.compare_spec (cond_Zopp sx (Zpos mx) * 2 ^ (ex - Z.min ex ey))
                (cond_Zopp sy (Zpos my) * 2 ^ (ey - Z.min ex ey))) as [E | | ];
      try discriminate.
    rewrite (Z.min_comm ey ex).
    replace (cond_Zopp sy (Zpos my * 2 ^ (ey - Z.min ex ey))
             - cond_Zopp sx (Zpos mx * 2 ^ (ex - Z.min ex ey)))%Z with 0%Z;
      [reflexivity | ].
    destruct sx, sy; cbn [cond_Zopp] in *; lia.
Qed.

(** [mapRange] with an input range of no extent, [inMin === inMax]: the
    division is by zero, and the result is never a finite number, whatever
    the value and the output range. *)
Theorem mapRange_empty_input (value inMin inMax outMin outMax : number) :
  (inMin === inMax) = true ->
  isFinite (mapRange value inMin inMax outMin outMax) = false.
Proof.
  intros Heq. unfold mapRange.
  set (N := (value - inMin) * (outMax - outMin)).
  assert (HQ : isFinite (N / (inMax - inMin)) = false).
  { destruct (eqb_sub inMin inMax Heq) as [-> | [s ->]]; destruct N; reflexivity. }
  destruct (N / (inMax - inMin)) as [ | sq | | ], outMin as [ | so | | ];
    try discriminate; try reflexivity.
  destruct sq, so; reflexivity.
Qed.

Lemma mapRange_empty_input_witness :
  isFinite (mapRange n5 n1 n1 n0 n100) = false.
Proof. apply (mapRange_empty_input n5 n1 n1 n0 n100 eq_refl). Defined.


(** ** [average] and [standardDeviation] *)

(** [average] and [standardDeviation] return 0 on the empty array, where a
    plain mean would be [NaN]; on any other array [average] is the sum,
    accumulated from the left from 0, over the length.  The mean engagement
    of [calculateSummary] is the [average] of the engagement rates, on every
    sequence. *)
Theorem average_empty_or_mean `{Host} :
  average [] = n0
  /\ standardDeviation [] = n0
  /\ (forall x xs, average (x :: xs) = StatsSpec.mean (x :: xs))
  /\ (forall metrics,
        option_map avgEngagement (Stats.calculateSummary metrics)
        = Some (average (map engagementRate metrics))).
Proof.
  split; [reflexivity | split; [reflexivity | split]].
  - intros x xs. reflexivity.
  - intros [ | m ms]; [reflexivity | ].
    unfold Stats.calculateSummary. cbn [List.length Nat.eqb].
    rewrite StatsFacts.nth_error_last. cbn [option_map avgEngagement].
    unfold average, JSArray.reduce, JSArray.length.
    cbn [map List.length Nat.eqb].
    rewrite StatsFacts.fold_left_map_add, length_map. reflexivity.
Qed.

(** ** [range] *)

Lemma eqb_zero_inv (x : number) : (x === n0) = true -> exists s, x = S754_zero s.
Proof.
  destruct x as [s | s | | s m e]; try discriminate.
  - eauto.
  - unfold eqb, compare. cbn. destruct s; discriminate.
  - intros H. pose proof (proj1 (eqb_finite_zero s m e false)) as H'.
    unfold n0, pzero in H. congruence.
Qed.

Lemma val_add_zero (i : number) (s : bool) :
  isNaN i = false -> val (i + S754_zero s) = val i.
Proof.
  destruct i as [si | si | | si mi ei]; try discriminate; intros _.
  - destruct si, s; reflexivity.
  - reflexivity.
  - reflexivity.
Qed.

Lemma ltb_val (x x' y : number) : val x = val x' -> (x <? y) = (x' <? y).
Proof. intros H. unfold ltb, compare. now rewrite H. Qed.

Section WithLimit.
Context `{ArrayLimit}.

Lemma push_spec (x : number) (result : list number) :
  push x result
  = if (Z.of_nat (List.length result) <? maxArrayLength)%Z
    then Some (result ++ [x]) else None.
Proof. reflexivity. Qed.

Lemma rangeLoop_zero_step (end_ : number) (s : bool) :
  forall fuel i result,
  (i <? end_) = true ->
  (Z.of_nat (List.length result) <= maxArrayLength)%Z ->
  rangeLoop fuel i end_ (S754_zero s) result = stuck fuel result.
Proof.
  induction fuel as [ | fuel IH]; intros i result Hlt Hlen; unfold stuck.
  - cbn [rangeLoop]. destruct (Z.leb_spec
      (Z.of_nat (List.length result) + Z.of_nat 0) maxArrayLength); [reflexivity | lia].
  - cbn [rangeLoop]. rewrite Hlt, push_spec.
    destruct (Z.ltb_spec (Z.of_nat (List.length result)) maxArrayLength) as [Hl | Hl].
    + rewrite IH.
      * unfold stuck. rewrite length_app. cbn [List.length].
        replace (Z.of_nat (List.length result + 1) + Z.of_nat fuel)%Z
          with (Z.of_nat (List.length result) + Z.of_nat (S fuel))%Z by lia.
        reflexivity.
      * rewrite (ltb_val _ i); [exact Hlt | ].
        apply val_add_zero. now destruct (ltb_not_nan _ _ Hlt).
      * rewrite length_app. cbn [List.length]. lia.
    + destruct (Z.leb_spec
        (Z.of_nat (List.length result) + Z.of_nat (S fuel)) maxArrayLength);
        [lia | reflexivity].
Qed.

Lemma rangeLoop_absorbed (start end_ step : number) :
  (start <? end_) = true -> start + step = start ->
  forall fuel result,
  (Z.of_nat (List.length result) <= maxArrayLength)%Z ->
  rangeLoop fuel start end_ step result = stuck fuel result.
Proof.
  intros Hlt Habs. induction fuel as [ | fuel IH]; intros result Hlen;
    unfold stuck.
  - cbn [rangeLoop]. destruct (Z.leb_spec
      (Z.of_nat (List.length result) + Z.of_nat 0) maxArrayLength); [reflexivity | lia].
  - cbn [rangeLoop]. rewrite Hlt, Habs, push_spec.
    destruct (Z.ltb_spec (Z.of_nat (List.length result)) maxArrayLength) as [Hl | Hl].
    + rewrite IH.
      * unfold stuck. rewrite length_app. cbn [List.length].
        replace (Z.of_nat (List.length result + 1) + Z.of_nat fuel)%Z
          with (Z.of_nat (List.length result) + Z.of_nat (S fuel))%Z by lia.
        reflexivity.
      * rewrite length_app. cbn [List.length]. lia.
    + destruct (Z.leb_spec
        (Z.of_nat (List.length result) + Z.of_nat (S fuel)) maxArrayLength);
        [lia | reflexivity].
Qed.

(** [range] does not return when it has something to produce and its step
    does not advance: with [start < end], when the step is zero, and when
    the step is so small against [start] that [start + step] is [start]
    again, the loop pushes [start] until the array is full, [2 ^ 32 - 1]
    elements, and the next [push] raises [RangeError].  It is still running
    after any smaller number of iterations. *)
Theorem range_never_returns (start end_ step : number) :
  (start <? end_) = true ->
  (step === n0) = true \/ start + step = start ->
  forall fuel,
    range fuel start end_ (Some step)
    = if (Z.of_nat fuel <=? maxArrayLength)%Z then Running else RangeError.
Proof.
  intros Hlt [Hz | Habs] fuel; unfold range.
  - destruct (eqb_zero_inv step Hz) as [s ->].
    rewrite rangeLoop_zero_step; [reflexivity | exact Hlt | ].
    pose proof maxArrayLength_range. cbn [List.length]. lia.
  - rewrite (rangeLoop_absorbed _ _ _ Hlt Habs); [reflexivity | ].
    pose proof maxArrayLength_range. cbn [List.length]. lia.
Qed.

End WithLimit.

Lemma range_never_returns_witness :
  (forall fuel,
     range (H := languageLimit) fuel n1 n5 (Some n0)
     = if (Z.of_nat fuel <=? 4294967295)%Z then Running else RangeError)
  /\ (forall fuel,
       range (H := languageLimit) fuel n1e16 (n1e16 + n4) None
       = if (Z.of_nat fuel <=? 4294967295)%Z then Running else RangeError).
Proof.
  split.
  - apply (range_never_returns (H := languageLimit) n1 n5 n0 eq_refl
             (or_introl eq_refl)).
  - apply (range_never_returns (H := languageLimit) n1e16 (n1e16 + n4) n1
             eq_refl (or_intror eq_refl)).
Defined.


End NumericFacts.

Module RangeFacts.

Import JS JSFacts OrderFacts IntegerFacts Numeric NumericSpec.

Lemma stepsBelow_done (a b s : Z) : 0 < s -> b <= a -> stepsBelow a b s = 0%nat.
Proof.
  intros Hs Hba. unfold stepsBelow.
  assert ((b - a + s - 1) / s <= 0); [ | lia].
  apply Z.lt_succ_r. apply Z.div_lt_upper_bound; lia.
Qed.

Lemma stepsBelow_next (a b s : Z) :
  0 < s -> a < b -> stepsBelow a b s = S (stepsBelow (a + s) b s).
Proof.
  intros Hs Hab. unfold stepsBelow.
  replace (b - a + s - 1) with ((b - (a + s) + s - 1) + 1 * s) by lia.
  rewrite Z.div_add by lia.
  assert (0 <= (b - (a + s) + s - 1) / s) by (apply Z.div_pos; lia).
  lia.
Qed.

Lemma integersFrom_next (a s : Z) (count : nat) :
  integersFrom a s (S count) = ofZ a :: integersFrom (a + s) s count.
Proof.
  unfold integersFrom. rewrite <- cons_seq, <- seq_shift. cbn [map].
  rewrite map_map.
  f_equal; [f_equal; lia | ].
  apply map_ext. intros j. f_equal. lia.
Qed.

Section WithLimit.
Context `{ArrayLimit}.

Lemma rangeLoop_integers (b s : Z) :
  0 < s -> 0 <= b -> b + s <= 2 ^ 53 ->
  forall (count fuel : nat) (a : Z) (result : list number),
  0 <= a < b + s -> stepsBelow a b s = count -> (count < fuel)%nat ->
  Z.of_nat (List.length result) <= maxArrayLength ->
  rangeLoop fuel (ofZ a) (ofZ b) (ofZ s) result
  = if Z.of_nat (List.length result) + Z.of_nat count <=? maxArrayLength
    then Returned (result ++ integersFrom a s count)
    else RangeError.
Proof.
  intros Hs Hb Hbs.
  induction count as [ | count IH]; intros fuel a result Ha Hcount Hfuel Hlen;
    (destruct fuel as [ | fuel]; [lia | ]); cbn [rangeLoop];
    rewrite ltb_int by lia.
  - destruct (Z.ltb_spec a b) as [Hab | Hab].
    + rewrite (stepsBelow_next a b s Hs Hab) in Hcount. discriminate.
    + destruct (Z.leb_spec (Z.of_nat (List.length result) + Z.of_nat 0)
                  maxArrayLength); [ | lia].
      unfold integersFrom. cbn [seq map]. now rewrite app_nil_r.
  - destruct (Z.ltb_spec a b) as [Hab | Hab].
    + rewrite (stepsBelow_next a b s Hs Hab) in Hcount. injection Hcount as Hcount.
      unfold push.
      destruct (Z.ltb_spec (Z.of_nat (List.length result)) maxArrayLength)
        as [Hl | Hl].
      * rewrite add_int by lia.
        rewrite (IH fuel (a + s) (result ++ [ofZ a]))
          by (auto; try lia; rewrite length_app; cbn [List.length]; lia).
        rewrite length_app. cbn [List.length].
        replace (Z.of_nat (List.length result + 1) + Z.of_nat count)
          with (Z.of_nat (List.length result) + Z.of_nat (S count)) by lia.
        rewrite integersFrom_next, <- app_assoc. reflexivity.
      * destruct (Z.leb_spec (Z.of_nat (List.length result) + Z.of_nat (S count))
                    maxArrayLength); [lia | reflexivity].
    + rewrite (stepsBelow_done a b s Hs Hab) in Hcount. discriminate.
Qed.

(** [range] over integers that numbers hold exactly: for integers
    [0 <= start], [0 <= end] and [0 < step] with [end + step <= 2 ^ 53], the
    loop ends.  When the integers [start], [start + step],
    [start + 2 step], ... below [end] are at most [2 ^ 32 - 1], the array
    length limit, it returns them, none when [end <= start]; when they are
    more, [push] raises [RangeError].  Without a step, [range (start, end)]
    is the integers from [start] to [end - 1]. *)
Theorem range_integers (a b s : Z) (fuel : nat) :
  0 <= a < 2 ^ 53 -> 0 <= b -> 0 < s -> b + s <= 2 ^ 53 ->
  (stepsBelow a b s < fuel)%nat ->
  range fuel (ofZ a) (ofZ b) (Some (ofZ s))
  = (if Z.of_nat (stepsBelow a b s) <=? maxArrayLength
     then Returned (integersFrom a s (stepsBelow a b s))
     else RangeError)
  /\ (s = 1 ->
      range fuel (ofZ a) (ofZ b) None
      = if Z.of_nat (Z.to_nat (b - a)) <=? maxArrayLength
        then Returned (integersFrom a 1 (Z.to_nat (b - a)))
        else RangeError)
  /\ (b <= a -> stepsBelow a b s = 0%nat).
Proof.
  intros Ha Hb Hs Hbs Hfuel.
  assert (Hrun : range fuel (ofZ a) (ofZ b) (Some (ofZ s))
                 = if Z.of_nat (stepsBelow a b s) <=? maxArrayLength
                   then Returned (integersFrom a s (stepsBelow a b s))
                   else RangeError).
  { unfold range.
    destruct (Z.lt_ge_cases a b) as [Hab | Hab].
    - rewrite (rangeLoop_integers b s Hs Hb Hbs (stepsBelow a b s));
        auto; try lia.
      pose proof maxArrayLength_range. cbn [List.length]. lia.
    - rewrite (stepsBelow_done a b s Hs) in * by lia.
      destruct fuel as [ | fuel]; [lia | ]. cbn [rangeLoop].
      rewrite ltb_int by lia.
      pose proof maxArrayLength_range.
      destruct (Z.leb_spec (Z.of_nat 0) maxArrayLength); [ | lia].
      destruct (Z.ltb_spec a b); [lia | reflexivity]. }
  split; [exact Hrun | split].
  - intros ->. unfold range in *. change n1 with (ofZ 1). rewrite Hrun.
    replace (stepsBelow a b 1) with (Z.to_nat (b - a)); [reflexivity | ].
    unfold stepsBelow. f_equal. rewrite Z.div_1_r. lia.
  - intros Hba. now apply stepsBelow_done.
Qed.

End WithLimit.

Lemma range_integers_witness :
  range (H := languageLimit) 4 (ofZ 0) (ofZ 10) (Some (ofZ 4))
  = Returned [ofZ 0; ofZ 4; ofZ 8].
Proof.
  destruct (range_integers (H := languageLimit) 0 10 4 4) as [Hrun _]; try lia.
  - vm_compute. lia.
  - exact Hrun.
Defined.

End RangeFacts.

(* ================================================================== *)
(** * Facts about the random picks *)
(* ================================================================== *)

Module SamplingFacts.

Import JS JSSpec JSFacts IntegerSpec IntegerFacts IndexFacts Sampling SamplingSpec.

(** ** Indices *)

Lemma elementAt_int {A} (array : list A) (z : Z) :
  0 <= z < 2 ^ 53 -> elementAt array (ofZ z) = nth_error array (Z.to_nat z).
Proof.
  intros Hz. destruct (Z.eq_dec z 0) as [-> | Hne]; [reflexivity | ].
  rewrite ofZ_pos by lia.
  destruct (double_digits z ltac:(lia)) as (Hd & Hpos & _).
  unfold double, elementAt. rewrite Z2Pos.id by exact Hpos.
  destruct (0 <=? Zdigits2 z - 53) eqn:E.
  - apply Z.leb_le in E. replace (Zdigits2 z) with 53 by lia.
    cbn. f_equal. lia.
  - apply Z.leb_gt in E.
    replace (- (Zdigits2 z - 53)) with (53 - Zdigits2 z) by lia.
    assert (H2 : 0 < 2 ^ (53 - Zdigits2 z)) by (apply pow2_pos; lia).
    rewrite Z.mod_mul, Z.div_mul by lia. reflexivity.
Qed.

(** [Math.floor (Math.random () * n)] is an index below [n]. *)
Lemma random_index (r : number) (n : Z) :
  unitInterval r = true -> 1 <= n < 2 ^ 53 ->
  exists j,
    0 <= j < n
    /\ toInteger (Math_floor (mul r (ofZ n))) = j
    /\ forall (A : Type) (array : list A),
         elementAt array (Math_floor (mul r (ofZ n)))
         = nth_error array (Z.to_nat j).
Proof.
  intros Hr Hn.
  destruct (mul_unit_below r n Hr Hn) as (E & HE & Hbelow).
  destruct (mul r (ofZ n)) as [s | s | | s q E2]; try contradiction.
  - exists 0. repeat split; lia.
  - destruct s; [contradiction | ]. destruct Hbelow as [HE2 Hq].
    assert (H2E : 0 < 2 ^ (- E)) by (apply pow2_pos; lia).
    unfold Math_floor. destruct (0 <=? E2) eqn:E0.
    + exists (Zpos q * 2 ^ E2). unfold toInteger, elementAt. rewrite E0.
      cbn [cond_Zopp]. apply Z.leb_le in E0.
      assert (H2 : 0 < 2 ^ E2) by (apply pow2_pos; lia).
      split; [ | split; reflexivity].
      split; [lia | ].
      replace (E2 - E) with (E2 + - E) in Hq by lia.
      rewrite Z.pow_add_r, Z.mul_assoc in Hq by lia.
      apply (Z.mul_lt_mono_pos_r (2 ^ (- E))); assumption.
    + apply Z.leb_gt in E0. cbn [cond_Zopp]. rewrite Z.shiftr_div_pow2 by lia.
      assert (H2 : 0 < 2 ^ (- E2)) by (apply pow2_pos; lia).
      assert (Hz : 0 <= Zpos q / 2 ^ (- E2) < n).
      { split; [apply Z.div_pos; lia | ].
        apply Z.div_lt_upper_bound; [lia | ].
        replace (- E) with (- E2 + (E2 - E)) in Hq by lia.
        rewrite Z.pow_add_r, Z.mul_assoc in Hq by lia.
        assert (H3 : 0 < 2 ^ (E2 - E)) by (apply pow2_pos; lia).
        rewrite Z.mul_comm.
        apply (Z.mul_lt_mono_pos_r (2 ^ (E2 - E))); assumption. }
      exists (Zpos q / 2 ^ (- E2)). split; [exact Hz | ].
      destruct (Zpos q / 2 ^ (- E2) =? 0) eqn:Ez.
      * apply Z.eqb_eq in Ez. rewrite Ez. split; reflexivity.
      * rewrite toInteger_int by lia. split; [reflexivity | ].
        intros A array. apply elementAt_int. lia.
Qed.

(** ** Swaps *)

Lemma update_length {A} (l : list A) (k : nat) (v : A) :
  List.length (update l k v) = List.length l.
Proof.
  revert k; induction l as [ | x l IH]; intros [ | k]; cbn; auto.
Qed.

Lemma update_middle {A} (l1 l2 : list A) (x v : A) :
  update (l1 ++ x :: l2) (List.length l1) v = l1 ++ v :: l2.
Proof. induction l1 as [ | y l1 IH]; cbn; [reflexivity | now rewrite IH]. Qed.

Lemma update_app_l {A} (l1 l2 : list A) (k : nat) (v : A) :
  (k < List.length l1)%nat -> update (l1 ++ l2) k v = update l1 k v ++ l2.
Proof.
  revert k; induction l1 as [ | y l1 IH]; intros k Hk; cbn in Hk; [lia | ].
  destruct k as [ | k]; cbn; [reflexivity | ]. rewrite IH by lia. reflexivity.
Qed.

Lemma swap_permutation {A} (l : list A) (i j : nat) (ai aj : A) :
  (j <= i)%nat -> nth_error l i = Some ai -> nth_error l j = Some aj ->
  Permutation l (update (update l i aj) j ai).
Proof.
  intros Hji Hi Hj.
  destruct (nth_error_split l i Hi) as (l1 & l2 & -> & Hl1).
  destruct (Nat.eq_dec j i) as [-> | Hne].
  - assert (aj = ai) by congruence. subst aj.
    rewrite <- Hl1, update_middle, update_middle. reflexivity.
  - rewrite nth_error_app1 in Hj by lia.
    destruct (nth_error_split l1 j Hj) as (k1 & k2 & -> & Hk1).
    rewrite <- Hl1 at 1. rewrite update_middle.
    rewrite update_app_l by (rewrite length_app; cbn; lia).
    rewrite <- Hk1, update_middle.
    rewrite <- !app_assoc. cbn [app].
    apply Permutation_app_head.
    transitivity (aj :: ai :: k2 ++ l2).
    + constructor. symmetry. apply Permutation_middle.
    + transitivity (ai :: aj :: k2 ++ l2); [constructor | ].
      constructor. apply Permutation_middle.
Qed.

Section WithHost.
Context `{Host}.

Lemma shuffleLoop_permutation {A} (i : nat) :
  randomOk ->
  forall (array : list A) (w : World),
  (i < List.length array)%nat -> Z.of_nat (List.length array) < 2 ^ 53 ->
  exists l',
    shuffleLoop i array w = (Some l', mkWorld (draws w + i) (time w))
    /\ Permutation array l'.
Proof.
  intros Hrand. induction i as [ | i IH]; intros array w Hi Hlen.
  - exists array. cbn [shuffleLoop ret]. rewrite Nat.add_0_r.
    destruct w; split; reflexivity.
  - cbn [shuffleLoop]. unfold bind, Math_random.
    set (r := random_source (draws w)).
    change n1 with (ofZ 1). unfold ofNat. rewrite add_int by lia.
    destruct (random_index r (Z.of_nat (S i) + 1) (Hrand _) ltac:(lia))
      as (j & Hj & Hint & Hat).
    destruct (nth_error array (S i)) as [ai | ] eqn:Ei;
      [ | apply nth_error_None in Ei; lia].
    destruct (nth_error array (Z.to_nat j)) as [aj | ] eqn:Ej;
      [ | apply nth_error_None in Ej; lia].
    unfold swap. rewrite Hat, Ej, Ei, Hint.
    destruct (IH (update (update array (S i) aj) (Z.to_nat j) ai)
                (mkWorld (S (draws w)) (time w))) as (l' & Hrun & Hperm).
    + rewrite !update_length. lia.
    + now rewrite !update_length.
    + exists l'. rewrite Hrun. cbn [draws time]. split.
      * f_equal. f_equal. lia.
      * transitivity (update (update array (S i) aj) (Z.to_nat j) ai);
          [ | exact Hperm].
        apply swap_permutation; [lia | exact Ei | exact Ej].
Qed.

(** [shuffle] returns a permutation of its argument.  On a host whose
    random draws are in [[0, 1)], and for an array of fewer than [2 ^ 53]
    elements, every index [Math.floor (Math.random () * (i + 1))] is within
    [0 .. i], in double arithmetic, so that no [undefined] enters the
    array; the result has the elements of the argument, each as many times;
    and the call makes one draw for each element but the first. *)
Theorem shuffle_permutation {A} (array : list A) (w : World) :
  randomOk -> Z.of_nat (List.length array) < 2 ^ 53 ->
  exists l',
    shuffle array w
    = (Some l', mkWorld (draws w + (List.length array - 1)) (time w))
    /\ Permutation array l'
    /\ List.length l' = List.length array.
Proof.
  intros Hrand Hlen. unfold shuffle.
  destruct array as [ | x array].
  - exists []. cbn. rewrite Nat.add_0_r. destruct w. repeat split. constructor.
  - destruct (shuffleLoop_permutation (List.length (x :: array) - 1) Hrand
                (x :: array) w) as (l' & Hrun & Hperm).
    + cbn [List.length]. lia.
    + exact Hlen.
    + exists l'. split; [exact Hrun | split; [exact Hperm | ]].
      symmetry. now apply Permutation_length.
Qed.

(** [randomElement] returns an element of its argument: on a host whose
    random draws are in [[0, 1)], and for an array that is not empty and has
    fewer than [2 ^ 53] elements, the index
    [Math.floor (Math.random () * array.length)] is within the array.  On
    the empty array the result is [undefined]. *)
Theorem randomElement_member {A} (array : list A) (w : World) :
  randomOk -> Z.of_nat (List.length array) < 2 ^ 53 ->
  match array with
  | [] => fst (randomElement array w) = None
  | _ :: _ => exists x, fst (randomElement array w) = Some x /\ In x array
  end.
Proof.
  intros Hrand Hlen. unfold randomElement, bind, Math_random, ret. cbn [fst].
  destruct array as [ | a array].
  - destruct (Math_floor _) as [ | | | [ | ] m e]; cbn; try reflexivity.
    + destruct (0 <=? e); [now destruct (Z.to_nat _) | ].
      destruct (_ =? 0); [now destruct (Z.to_nat _) | reflexivity].
  - unfold JSArray.length, ofNat.
    destruct (random_index (random_source (draws w))
                (Z.of_nat (List.length (a :: array))) (Hrand _))
      as (j & Hj & _ & Hat).
    + cbn [List.length] in *. lia.
    + rewrite Hat.
      destruct (nth_error (a :: array) (Z.to_nat j)) as [x | ] eqn:Ex;
        [ | apply nth_error_None in Ex; lia].
      exists x. split; [reflexivity | ]. eapply nth_error_In; eauto.
Qed.

End WithHost.

Lemma sample_randomOk : randomOk (H := Sample.host).
Proof.
  intros k. apply (@GeneratorSpec.random_range Sample.host GeneratorFacts.sample_ok).
Qed.

Lemma shuffle_permutation_witness :
  exists l',
    fst (shuffle (H := Sample.host) letters Sample.world) = Some l'
    /\ Permutation letters l'.
Proof.
  destruct (shuffle_permutation (H := Sample.host) letters Sample.world
              sample_randomOk) as (l' & Hrun & Hperm & _).
  - vm_compute. reflexivity.
  - exists l'. rewrite Hrun. split; [reflexivity | exact Hperm].
Defined.

Lemma randomElement_member_witness :
  exists x,
    fst (randomElement (H := Sample.host) letters Sample.world) = Some x
    /\ In x letters.
Proof.
  apply (randomElement_member (H := Sample.host) letters Sample.world
           sample_randomOk).
  vm_compute. reflexivity.
Defined.

End SamplingFacts.

(* ================================================================== *)
(** * Facts about [debounce] and [throttle] *)
(* ================================================================== *)

Module DebounceFacts.

Import Debounce TimingSpec.

Section WithArgs.
Variable Args : Type.


Lemma debounce_inv (w : Z) : DebounceInv (debounce (Args := Args) w).
Proof. reflexivity. Qed.

Lemma executedFunction_spec (args : Args) (c : Closure Args) :
  DebounceInv c ->
  let c' := executedFunction args c in
  DebounceInv c'
  /\ pendingTimeouts c' = [(nextHandle c, wait c, args)]
  /\ funcCalls c' = funcCalls c
  /\ wait c' = wait c
  /\ nextHandle c' = S (nextHandle c).
Proof.
  intros HI. destruct c as [w t p n calls]. unfold DebounceInv in *.
  cbn [timeout pendingTimeouts wait] in HI.
  unfold executedFunction, clearTimeout.
  destruct t as [timer | ]; cbn [timeout pendingTimeouts wait nextHandle funcCalls].
  - destruct HI as [a ->]. cbn [filter fst]. rewrite Nat.eqb_refl. cbn [negb].
    repeat split; eauto.
  - subst p. repeat split; eauto.
Qed.

Lemma fired_spec (timer : nat) (c c' : Closure Args) :
  DebounceInv c ->
  handle (TimeoutFired timer) c = Some c' ->
  exists args,
    waitingArgs c = Some args
    /\ DebounceInv c'
    /\ pendingTimeouts c' = []
    /\ funcCalls c' = funcCalls c ++ [args]
    /\ wait c' = wait c.
Proof.
  intros HI. destruct c as [w t p n calls]. unfold DebounceInv in *.
  cbn [timeout pendingTimeouts wait] in HI.
  unfold handle, captured, waitingArgs, later, clearTimeout.
  cbn [timeout pendingTimeouts wait nextHandle funcCalls].
  destruct t as [t0 | ].
  - destruct HI as [a ->]. cbn [find fst snd filter].
    destruct (t0 =? timer)%nat; [ | discriminate].
    intros H; injection H as <-. exists a. cbn [negb]. repeat split.
  - subst p. discriminate.
Qed.

Lemma run_debounced (evs : list (Event Args)) :
  forall c d : Closure Args,
  DebounceInv c -> run evs c = Some d ->
  exists calls,
    debounced evs (waitingArgs c) = Some (calls, waitingArgs d)
    /\ funcCalls d = funcCalls c ++ calls
    /\ DebounceInv d
    /\ wait d = wait c.
Proof.
  induction evs as [ | ev evs IH]; intros c d HI Hrun.
  - injection Hrun as <-. exists []. now rewrite app_nil_r.
  - cbn [run] in Hrun. destruct (handle ev c) as [c' | ] eqn:Hc; [ | discriminate].
    destruct ev as [args | timer].
    + injection Hc as <-.
      destruct (executedFunction_spec args c HI) as (HI' & Hp & Hcalls & Hw & _).
      destruct (IH _ d HI' Hrun) as (calls & Hd & Hf & HId & Hwd).
      exists calls. cbn [debounced].
      unfold waitingArgs in Hd at 1. rewrite Hp in Hd. cbn [snd] in Hd.
      split; [exact Hd | ]. split; [congruence | ]. split; [exact HId | congruence].
    + destruct (fired_spec timer c c' HI Hc) as (a & Hwa & HI' & Hp & Hcalls & Hw).
      destruct (IH _ d HI' Hrun) as (calls & Hd & Hf & HId & Hwd).
      exists (a :: calls). cbn [debounced]. rewrite Hwa.
      unfold waitingArgs in Hd at 1. rewrite Hp in Hd. rewrite Hd.
      split; [reflexivity | ]. split; [ | split; [exact HId | congruence]].
      rewrite Hf, Hcalls, <- app_assoc. reflexivity.
Qed.

(** A burst of calls leaves one timeout pending, the one of the last call. *)
Lemma run_burst (l : list Args) :
  forall (a : Args) (c : Closure Args),
  DebounceInv c ->
  exists d,
    run (map (Called) (l ++ [a])) c = Some d
    /\ pendingTimeouts d
       = [((nextHandle c + List.length l)%nat, wait c, a)]
    /\ timeout d = Some (nextHandle c + List.length l)%nat
    /\ funcCalls d = funcCalls c.
Proof.
  induction l as [ | b l IH]; intros a c HI.
  - destruct (executedFunction_spec a c HI) as (HI' & Hp & Hcalls & Hw & Hn).
    exists (executedFunction a c). cbn [app map run handle List.length].
    rewrite Nat.add_0_r. repeat split; auto.
    unfold DebounceInv in HI'. rewrite Hp in HI'.
    destruct (timeout (executedFunction a c)) as [t | ]; [ | discriminate].
    destruct HI' as [x Hx]. now injection Hx as <- _.
  - destruct (executedFunction_spec b c HI) as (HI' & Hp & Hcalls & Hw & Hn).
    destruct (IH a _ HI') as (d & Hrun & Hpd & Ht & Hf).
    exists d. cbn [app map run handle List.length].
    rewrite Hrun, Hpd, Ht, Hf, Hn, Hw, Hcalls.
    replace (S (nextHandle c) + List.length l)%nat
      with (nextHandle c + S (List.length l))%nat by lia.
    repeat split.
Qed.

(** The debounced function.  [func] is called only by a timeout, and a
    timeout passes to it the arguments of the last call made before it
    fires: the calls of [func] are those of the description without
    timers.  After any burst of calls on a new closure exactly one timeout
    is pending; when it fires [func] is called once, with the arguments of
    the last call of the burst, and nothing is pending any more. *)
Theorem debounce_last_call (w : Z) :
  (forall (evs : list (Event Args)) (d : Closure Args),
     run evs (debounce w) = Some d ->
     debounced evs None = Some (funcCalls d, waitingArgs d)
     /\ (List.length (pendingTimeouts d) <= 1)%nat)
  /\ (forall l a,
        exists d : Closure Args,
          run (map (Called) (l ++ [a])
                    ++ [TimeoutFired (S (List.length l))])
            (debounce w) = Some d
          /\ funcCalls d = [a]
          /\ pendingTimeouts d = []
          /\ timeout d = None).
Proof.
  split.
  - intros evs d Hrun.
    destruct (run_debounced evs _ d (debounce_inv w) Hrun)
      as (calls & Hd & Hf & HI & _).
    cbn in Hf. subst calls. split; [exact Hd | ].
    unfold DebounceInv in HI.
    destruct (timeout d); [destruct HI as [a ->] | rewrite HI]; simpl; lia.
  - intros l a.
    destruct (run_burst l a _ (debounce_inv w)) as (d & Hrun & Hp & Ht & Hf).
    cbn [debounce nextHandle wait funcCalls Nat.add] in Hp, Ht, Hf.
    exists (later a (clearTimeout (S (List.length l)) d)).
    split; [ | split; [ | split]].
    + assert (Happ : forall evs1 evs2 (c c1 : Closure Args),
                run evs1 c = Some c1 ->
                run (evs1 ++ evs2) c = run evs2 c1).
      { induction evs1 as [ | ev evs1 IH]; intros evs2 c c1 H.
        - now injection H as <-.
        - cbn [app run] in *. destruct (handle ev c); [eauto | discriminate]. }
      rewrite (Happ _ _ _ _ Hrun). cbn [run handle].
      unfold captured. rewrite Hp. cbn [find fst snd]. rewrite Nat.eqb_refl.
      reflexivity.
    + cbn [later clearTimeout funcCalls]. now rewrite Hf.
    + cbn [later clearTimeout pendingTimeouts]. rewrite Hp.
      cbn [filter fst]. rewrite Nat.eqb_refl. reflexivity.
    + reflexivity.
Qed.

End WithArgs.

Lemma debounce_last_call_witness :
  option_map (funcCalls) (run burst (debounce 300)) = Some [30%nat].
Proof.
  destruct (debounce_last_call nat 300) as [_ H].
  destruct (H [10; 20]%nat 30%nat) as (d & Hrun & Hf & _).
  unfold burst. cbn [map app List.length] in Hrun. rewrite Hrun.
  cbn [option_map]. now rewrite Hf.
Defined.

End DebounceFacts.

Module ThrottleFacts.

Import Throttle TimingSpec.

Section WithArgs.
Variable Args : Type.


Lemma throttle_inv (l : Z) : ThrottleInv (throttle (Args := Args) l).
Proof. reflexivity. Qed.

Lemma handle_spec (ev : Event Args) (c c' : Closure Args) :
  ThrottleInv c -> handle ev c = Some c' ->
  ThrottleInv c'
  /\ limit c' = limit c
  /\ match ev with
     | Called args completion =>
         inThrottle c'
         = (if inThrottle c then true
            else match completion with Returns => true | Throws => false end)
         /\ funcCalls c'
            = funcCalls c ++ (if inThrottle c then [] else [args])
     | TimeoutFired _ =>
         inThrottle c = true /\ inThrottle c' = false
         /\ funcCalls c' = funcCalls c
     end.
Proof.
  intros HI. destruct c as [l b p n calls]. unfold ThrottleInv in *.
  cbn [inThrottle pendingTimeouts limit] in HI.
  destruct ev as [args completion | timer];
    unfold handle, executedFunction, callFunc, onTimeout;
    cbn [inThrottle pendingTimeouts limit nextHandle funcCalls].
  - intros H; injection H as <-. destruct b; cbn [negb inThrottle pendingTimeouts
      limit funcCalls].
    + rewrite app_nil_r. auto.
    + subst p. destruct completion;
        cbn [inThrottle pendingTimeouts limit funcCalls]; repeat split; eauto.
  - destruct b.
    + destruct HI as [t ->]. cbn [existsb filter fst orb].
      destruct (t =? timer)%nat; cbn [orb negb]; [ | discriminate].
      intros H; injection H as <-.
      cbn [inThrottle pendingTimeouts limit funcCalls]. auto.
    + subst p. discriminate.
Qed.

Lemma run_throttled (evs : list (Event Args)) :
  forall c d : Closure Args,
  ThrottleInv c -> run evs c = Some d ->
  exists calls,
    throttled evs (inThrottle c) = (calls, inThrottle d)
    /\ funcCalls d = funcCalls c ++ calls
    /\ ThrottleInv d.
Proof.
  induction evs as [ | ev evs IH]; intros c d HI Hrun.
  - injection Hrun as <-. exists []. now rewrite app_nil_r.
  - cbn [run] in Hrun. destruct (handle ev c) as [c' | ] eqn:Hc; [ | discriminate].
    destruct (handle_spec ev c c' HI Hc) as (HI' & _ & Hev).
    destruct (IH _ d HI' Hrun) as (calls & Hd & Hf & HId).
    destruct ev as [args completion | timer]; cbn [throttled].
    + destruct Hev as [Hb Hcalls]. rewrite Hb in Hd.
      destruct (inThrottle c).
      * exists calls. rewrite app_nil_r in Hcalls.
        split; [exact Hd | split; [congruence | exact HId]].
      * exists (args :: calls). rewrite Hd.
        split; [reflexivity | split; [ | exact HId]].
        rewrite Hf, Hcalls, <- app_assoc. reflexivity.
    + destruct Hev as (Hb & Hb' & Hcalls). rewrite Hb' in Hd.
      exists calls. split; [exact Hd | split; [congruence | exact HId]].
Qed.

Lemma run_dropped (l : list (Args * Completion)) :
  forall c : Closure Args,
  inThrottle c = true ->
  run (calls l) c = Some c.
Proof.
  induction l as [ | a l IH]; intros c Hb; [reflexivity | ].
  unfold calls. cbn [map run handle]. unfold executedFunction. rewrite Hb.
  cbn [negb]. now apply IH.
Qed.

Lemma run_throttle_app (evs1 evs2 : list (Event Args)) :
  forall c c' : Closure Args,
  run evs1 c = Some c' -> run (evs1 ++ evs2) c = run evs2 c'.
Proof.
  induction evs1 as [ | ev evs1 IH]; intros c c' H.
  - now injection H as <-.
  - cbn [app run] in *. destruct (handle ev c); [eauto | discriminate].
Qed.

(** The throttled function, for a [func] that does not call it.  A call
    goes through to [func], at once, when the gate is open, and is dropped
    otherwise; the gate is closed, and the timeout that opens it is
    pending, exactly after a call of [func] that returned: the calls of
    [func] are those of the description without timers.  On a new closure
    a first call that returns is followed by the timeout; the calls that
    follow before it fires are dropped, and they are not made up for when
    it fires.  A call on which [func] raises leaves the gate open and sets
    no timeout, so that the next call goes through to [func] as well. *)
Theorem throttle_drops_calls (l : Z) :
  (forall (evs : list (Event Args)) (d : Closure Args),
     run evs (throttle l) = Some d ->
     throttled evs false = (funcCalls d, inThrottle d)
     /\ (List.length (pendingTimeouts d) <= 1)%nat
     /\ (inThrottle d = true <-> pendingTimeouts d <> []))
  /\ (forall (a : Args) (rest : list (Args * Completion)),
        exists d : Closure Args,
          run (Called a Returns :: calls rest ++ [TimeoutFired 1])
            (throttle l) = Some d
          /\ funcCalls d = [a]
          /\ inThrottle d = false
          /\ pendingTimeouts d = [])
  /\ (forall (a b : Args) (completion : Completion),
        exists d1 d : Closure Args,
          run [Called a Throws] (throttle l) = Some d1
          /\ funcCalls d1 = [a]
          /\ inThrottle d1 = false
          /\ pendingTimeouts d1 = []
          /\ run [Called a Throws; Called b completion] (throttle l) = Some d
          /\ funcCalls d = [a; b]).
Proof.
  split; [ | split].
  - intros evs d Hrun.
    destruct (run_throttled evs _ d (throttle_inv l) Hrun) as (cs & Hd & Hf & HI).
    cbn in Hf. subst cs. split; [exact Hd | ].
    unfold ThrottleInv in HI.
    destruct (inThrottle d); [destruct HI as [t ->] | rewrite HI];
      (split; [simpl; lia | ]); split.
    + discriminate.
    + reflexivity.
    + discriminate.
    + intros Hne. now elim Hne.
  - intros a rest.
    set (c1 := executedFunction a Returns (throttle l)).
    exists (onTimeout 1 c1).
    split; [ | repeat split].
    cbn [run handle]. fold c1.
    rewrite (run_throttle_app _ _ _ _ (run_dropped rest c1 eq_refl)). reflexivity.
  - intros a b completion.
    destruct completion; eexists; eexists; repeat split.
Qed.

End WithArgs.

Lemma throttle_drops_calls_witness :
  option_map (funcCalls) (run presses (throttle 100))
  = Some [10; 40]%nat.
Proof.
  destruct (run presses (throttle 100)) as [d | ] eqn:Hrun;
    [ | vm_compute in Hrun; discriminate Hrun].
  destruct (throttle_drops_calls nat 100) as [H _].
  destruct (H presses d Hrun) as [Hd _].
  cbn [option_map]. cbn in Hd. now injection Hd as <- _.
Defined.

End ThrottleFacts.

(* ================================================================== *)
(** * Facts about number formatting *)
(* ================================================================== *)

Module FormatFacts.

Import JS JSFacts OrderFacts Format FormatSpec.
Local Open Scope string_scope.

Section WithPrinter.
Context `{Printer}.

Lemma formatNumber_below (num : number) :
  geb num n1e3 = false -> formatNumber num = toFixed num 0.
Proof.
  intros Hk. unfold formatNumber.
  assert (H9 : geb num n1e9 = false).
  { destruct (geb num n1e9) eqn:E; [ | reflexivity].
    unfold geb in *. now rewrite (leb_trans n1e3 n1e9 num eq_refl E) in Hk. }
  assert (H6 : geb num n1e6 = false).
  { destruct (geb num n1e6) eqn:E; [ | reflexivity].
    unfold geb in *. now rewrite (leb_trans n1e3 n1e6 num eq_refl E) in Hk. }
  now rewrite H9, H6, Hk.
Qed.

(** [formatNumber] at the edges of its units.  A number below 1000 is
    printed without a unit, and so is every negative number, whatever its
    magnitude, and [NaN]; the positive infinity is printed "InfinityB"; and
    since the unit is chosen before the rounding to one decimal, the
    integers from 999950 to 999999 are printed "1000.0K", not "1.0M". *)
Theorem formatNumber_edges :
  (forall num, ltb num n1e3 = true \/ isNaN num = true ->
               formatNumber num = toFixed num 0)
  /\ (forall num, ltb num n0 = true ->
                  formatNumber num = toFixed num 0)
  /\ formatNumber NaN = "NaN"
  /\ formatNumber Infinity = "InfinityB"
  /\ (forall n, (999950 <= n < 1000000)%Z ->
                formatNumber (ofZ n) = "1000.0K").
Proof.
  split; [ | split; [ | split; [reflexivity | split; [reflexivity | ]]]].
  - intros num [Hlt | Hnan]; apply formatNumber_below.
    + unfold geb. now apply ltb_irrefl_leb.
    + destruct num; try discriminate. reflexivity.
  - intros num Hlt. apply formatNumber_below.
    unfold geb. apply ltb_irrefl_leb.
    apply (ltb_leb_trans num n0 n1e3 Hlt eq_refl).
  - intros n Hn.
    assert (Hall : forallb (fun k =>
                     String.eqb (formatNumber (ofZ (999950 + Z.of_nat k)))
                       "1000.0K") (seq 0 50) = true)
      by (vm_compute; reflexivity).
    rewrite forallb_forall in Hall.
    specialize (Hall (Z.to_nat (n - 999950))).
    replace (999950 + Z.of_nat (Z.to_nat (n - 999950)))%Z with n in Hall by lia.
    apply String.eqb_eq, Hall, in_seq. lia.
Qed.

(** [formatPercentage] with its default of two decimals prints a fraction
    of three decimals between 0 and 1 exactly: the double nearest to
    [k / 1000] is printed as [k / 10] with two decimals and the percent
    sign, for every [k] from 0 to 1000, and the [0.1234] of the
    documentation as [12.34%]; the rounding of the product by 100 never
    shows.  More than 100 decimals raise the [RangeError] of [toFixed]. *)
Theorem formatPercentage_three_decimals :
  (forall k, (0 <= k <= 1000)%Z ->
     formatPercentage (div (ofZ k) (ofZ 1000)) None
     = Some (pointed (10 * k) 2 ++ "%"))
  /\ formatPercentage (div (ofZ 1234) (ofZ 10000)) None = Some "12.34%"
  /\ (forall value d, (100 < d)%nat -> formatPercentage value (Some d) = None).
Proof.
  split; [ | split].
  - intros k Hk.
    assert (Hall : forallb (fun j =>
                     match formatPercentage
                             (div (ofZ (Z.of_nat j)) (ofZ 1000)) None with
                     | Some x => String.eqb x (pointed (10 * Z.of_nat j) 2 ++ "%")
                     | None => false
                     end) (seq 0 (Z.to_nat 1001)) = true)
      by (vm_compute; reflexivity).
    rewrite forallb_forall in Hall.
    specialize (Hall (Z.to_nat k)). rewrite Z2Nat.id in Hall by lia.
    destruct (formatPercentage (div (ofZ k) (ofZ 1000)) None) as [x | ].
    + f_equal. apply String.eqb_eq, Hall, in_seq. lia.
    + exfalso. assert (false = true); [ | discriminate]. apply Hall, in_seq. lia.
  - vm_compute. reflexivity.
  - intros value d Hd. unfold formatPercentage.
    destruct (d <=? 100)%nat eqn:E; [apply Nat.leb_le in E; lia | reflexivity].
Qed.

End WithPrinter.

End FormatFacts.

(* ================================================================== *)
(** * Facts about the generator on every range *)
(* ================================================================== *)

Module RangesFacts.

Import JS JSSpec JSFacts Generator GeneratorSpec GeneratorFacts RangesSpec.
Local Open Scope js_scope.

Lemma progress_finite_any (index totalPoints : nat) :
  In totalPoints pointCounts -> (index < totalPoints)%nat ->
  isFinite ((ofNat index / ofNat totalPoints) * Math_PI * n4) = true.
Proof.
  intros Hin Hi.
  assert (Hall : forallb (fun t =>
                   forallb (fun k => isFinite ((ofNat k / ofNat t) * Math_PI * n4))
                     (seq 0 t)) pointCounts = true) by (vm_compute; reflexivity).
  rewrite forallb_forall in Hall. specialize (Hall _ Hin).
  rewrite forallb_forall in Hall. apply Hall, in_seq. lia.
Qed.

Section WithHost.
Context {host : Host} {host_ok : HostOk}.

(** One point, whatever its index: the bounds follow from those of the
    growth factors and of the argument of the daily sine. *)
Lemma generateMetricPoint_inRange (baseDate : Date) (index totalPoints : nat)
    (w : World) :
  isFinite ((ofNat index / ofNat totalPoints) * Math_PI * n4) = true ->
  upTo 1 (Math_pow revenueBase (ofNat index)) = true ->
  upTo 1 (Math_pow usersBase (ofNat index)) = true ->
  let m := fst (generateMetricPoint baseDate index totalPoints w) in
  timestamp m = baseDate /\ inRange m.
Proof.
  intros Hfin Hpr Hpu.
  unfold generateMetricPoint, bind.
  destruct (volatility DATA_GENERATION.revenueVolatility w) as [rv w1] eqn:E1.
  destruct (volatility DATA_GENERATION.usersVolatility w1) as [uv w2] eqn:E2.
  destruct (volatility DATA_GENERATION.engagementVolatility w2) as [ev w3] eqn:E3.
  destruct (generateId w3) as [i w4].
  cbn [ret fst timestamp revenue activeUsers engagementRate].
  pose proof (volatility_range DATA_GENERATION.revenueVolatility w eq_refl) as Hrv.
  pose proof (volatility_range DATA_GENERATION.usersVolatility w1 eq_refl) as Huv.
  pose proof (volatility_range DATA_GENERATION.engagementVolatility w2 eq_refl) as Hev.
  rewrite E1 in Hrv. rewrite E2 in Huv. rewrite E3 in Hev. cbn [fst] in Hrv, Huv, Hev.
  pose proof (season_finite (getMonth baseDate) (getMonth_range baseDate)) as Hsf.
  pose proof (swing _ DATA_GENERATION.seasonalAmplitude (sin_range _ Hsf) eq_refl)
    as Hseason.
  pose proof (swing _ n0_1 (sin_range _ Hfin) eq_refl) as [Hprog _].
  assert (Hw : upTo 1 (if isWeekend baseDate then DATA_GENERATION.weekendBoost else n1)
               = true) by (destruct (isWeekend baseDate); reflexivity).
  split; [reflexivity | ].
  split; [apply amount_nonneg; auto | ].
  split; [apply amount_nonneg; auto | ].
  apply rate_clamped; [reflexivity | exact Hprog | apply Hev].
Qed.

End WithHost.


Section WithRangeHost.
Context {host : Host} {range_ok : RangeHostOk}.

(** [generateMetrics] is its loop, started at the start of the day of
    [from]. *)
Lemma generateMetrics_eq (timeRange : TimeRange) (w : World) :
  generateMetrics timeRange w
  = generateLoop (snd (samplingPolicy timeRange)) (endOfDay (time w))
      (fst (samplingPolicy timeRange)) (snd (samplingPolicy timeRange))
      (rangeStart timeRange w) 0 [] w.
Proof.
  unfold generateMetrics, getDateRangeFromTimeRange, rangeStart, daysBack,
    samplingPolicy, bind, Date_now, ret.
  repeat match goal with
         | |- context [String.eqb timeRange ?s] =>
             destruct (String.eqb timeRange s)
         end; reflexivity.
Qed.

(** The last sampling offset of every policy is within the days that the
    range goes back. *)
Lemma samplingPolicy_fits (timeRange : TimeRange) :
  let interval := fst (samplingPolicy timeRange) in
  let totalPoints := snd (samplingPolicy timeRange) in
  In totalPoints pointCounts
  /\ (0 < totalPoints <= 52)%nat
  /\ (0 <= interval)%Z
  /\ (0 < daysBack timeRange)%Z
  /\ ((Z.of_nat totalPoints - 1) * interval <= 24 * daysBack timeRange - 1)%Z.
Proof.
  unfold samplingPolicy, daysBack.
  repeat match goal with
         | |- context [String.eqb timeRange ?s] =>
             destruct (String.eqb timeRange s)
         end; cbn [fst snd pointCounts In]; repeat split; try lia; tauto.
Qed.

Lemma rangeStart_le (timeRange : TimeRange) (w : World) (h : Z) :
  (h <= 24 * daysBack timeRange - 1)%Z ->
  (addHours (rangeStart timeRange w) h <= endOfDay (time w))%Z.
Proof.
  intros Hh. unfold rangeStart, addHours.
  set (to := endOfDay (time w)). set (n := daysBack timeRange) in *.
  pose proof (startOfDay_le (startOfDay (subDays to n))) as H1.
  pose proof (startOfDay_le (subDays to n)) as H2.
  assert (Hn : (0 < n)%Z) by apply (samplingPolicy_fits timeRange).
  pose proof (subDays_many to n Hn) as H3.
  unfold MILLISECONDS_IN_HOUR in *. lia.
Qed.

(** The points of a range: as many as the policy asks for, at the sampling
    dates, none of them after the end of the range, all within the bounds
    of the generator. *)
Lemma generateMetrics_sampling (timeRange : TimeRange) (w : World) :
  let metrics := fst (generateMetrics timeRange w) in
  let interval := fst (samplingPolicy timeRange) in
  let totalPoints := snd (samplingPolicy timeRange) in
  List.length metrics = totalPoints
  /\ (forall j, (j < totalPoints)%nat ->
       option_map timestamp (nth_error metrics j)
       = Some (rangeStart timeRange w + Z.of_nat j * interval * 3600000)%Z)
  /\ Forall (fun m => (timestamp m <= endOfDay (time w))%Z) metrics
  /\ Forall inRange metrics.
Proof.
  cbv zeta. rewrite generateMetrics_eq.
  destruct (samplingPolicy_fits timeRange) as (Hin & Hlen52 & Hint & Hdays & Hfit).
  cbv zeta in Hin, Hlen52, Hint, Hfit.
  set (interval := fst (samplingPolicy timeRange)) in *.
  set (totalPoints := snd (samplingPolicy timeRange)) in *.
  assert (Hdate : forall j, (j < totalPoints)%nat ->
            (addHours (rangeStart timeRange w) (Z.of_nat j * interval)
             <= endOfDay (time w))%Z).
  { intros j Hj. apply rangeStart_le.
    apply Z.le_trans with ((Z.of_nat totalPoints - 1) * interval)%Z; [ | exact Hfit].
    apply Z.mul_le_mono_nonneg_r; lia. }
  destruct (generateLoop_points (endOfDay (time w)) interval totalPoints
              totalPoints (rangeStart timeRange w) 0 [] w eq_refl Hdate)
    as (points & Heq & Hlen & Hnth).
  rewrite Heq. cbn [app].
  assert (Hpoint : forall j m, nth_error points j = Some m ->
            (j < totalPoints)%nat
            /\ timestamp m
               = addHours (rangeStart timeRange w) (Z.of_nat j * interval)
            /\ inRange m).
  { intros j m Hj.
    assert (Hjlt : (j < totalPoints)%nat).
    { rewrite <- Hlen. apply nth_error_Some. rewrite Hj. discriminate. }
    split; [exact Hjlt | ].
    destruct (Hnth j Hjlt) as [wj Hwj]. rewrite Hwj in Hj. injection Hj as <-.
    cbn [Nat.add].
    destruct (pow_range_52 j ltac:(lia)) as [Hpr Hpu].
    apply generateMetricPoint_inRange; auto.
    now apply progress_finite_any. }
  split; [exact Hlen | split; [ | split]].
  - intros j Hj. destruct (nth_error points j) as [m | ] eqn:Hm.
    + destruct (Hpoint j m Hm) as (_ & Ht & _). cbn [option_map]. rewrite Ht.
      unfold addHours, MILLISECONDS_IN_HOUR. f_equal; lia.
    + apply nth_error_None in Hm. lia.
  - apply Forall_forall. intros m Hin'.
    apply In_nth_error in Hin' as [j Hj].
    destruct (Hpoint j m Hj) as (Hjlt & Ht & _). rewrite Ht. now apply Hdate.
  - apply Forall_forall. intros m Hin'.
    apply In_nth_error in Hin' as [j Hj].
    now destruct (Hpoint j m Hj) as (_ & _ & Hr).
Qed.


(** On a host that behaves as specified, [generateMetrics] returns, for
    every time range, exactly the number of points of its sampling policy:
    the bound [currentDate <= to] of its loop never ends it early.  The
    points are at the first sampling date and every [interval] hours after
    it, none is later than the end of the range, and each has
    [revenue >= 0], [activeUsers >= 0] and [40 <= engagementRate <= 90]. *)
Theorem generateMetrics_every_range (timeRange : TimeRange) (w : World) :
  let metrics := fst (generateMetrics timeRange w) in
  let interval := fst (samplingPolicy timeRange) in
  let totalPoints := snd (samplingPolicy timeRange) in
  List.length metrics = totalPoints
  /\ (forall j, (j < totalPoints)%nat ->
       option_map timestamp (nth_error metrics j)
       = Some (rangeStart timeRange w + Z.of_nat j * interval * 3600000)%Z)
  /\ Forall (fun m => (timestamp m <= endOfDay (time w))%Z) metrics
  /\ Forall inRange metrics
  /\ map samplingPolicy (MetricsRoute.validRanges ++ ["1w"%string])
     = [(1, 24%nat); (24, 7%nat); (24, 30%nat); (72, 30%nat); (168, 52%nat);
        (336, 52%nat); (24, 30%nat)].
Proof.
  cbv zeta.
  destruct (generateMetrics_sampling timeRange w) as (H1 & H2 & H3 & H4).
  repeat split; try assumption.
Qed.

End WithRangeHost.

Section WithHostOk.
Context {host : Host} {host_ok : HostOk}.

Lemma generateNewMetric_point (w : World) :
  let m := fst (generateNewMetric w) in
  timestamp m = time w /\ inRange m.
Proof.
  unfold generateNewMetric, bind, Date_now.
  destruct (pow_range 0%nat ltac:(lia)) as [Hpr Hpu].
  apply generateMetricPoint_inRange; [ | exact Hpr | exact Hpu].
  apply progress_finite_any; [simpl; tauto | lia].
Qed.

(** [generateNewMetric] returns a point stamped with the current time and
    within the bounds of the generator, whose identifier carries the current
    time; it draws four random numbers and leaves the clock alone. *)
Theorem generateNewMetric_now (w : World) :
  let m := fst (generateNewMetric w) in
  timestamp m = time w
  /\ inRange m
  /\ fst (id m) = time w
  /\ snd (generateNewMetric w) = mkWorld (4 + draws w) (time w).
Proof.
  cbv zeta. destruct (generateNewMetric_point w) as [Ht Hr].
  split; [exact Ht | split; [exact Hr | ]].
  destruct w as [d t]. unfold generateNewMetric, generateMetricPoint, bind,
    volatility, generateId, Math_random, Date_now, ret.
  split; reflexivity.
Qed.

End WithHostOk.

#[export] Instance sample_range_ok : RangeHostOk (H := Sample.host).
Proof.
  constructor.
  - exact sample_ok.
  - intros d n Hn. cbn [subDays Sample.host].
    unfold Sample.utcSubDays, Sample.MILLISECONDS_IN_DAY, MILLISECONDS_IN_HOUR. lia.
  - intros i Hi. cbn [Math_pow Sample.host].
    assert (Hall : forallb (fun k => upTo 1 (Sample.pow revenueBase (ofNat k))
                                     && upTo 1 (Sample.pow usersBase (ofNat k)))
                     (seq 0 52) = true) by (vm_compute; reflexivity).
    rewrite forallb_forall in Hall.
    apply andb_true_iff, Hall, in_seq. lia.
Qed.

Lemma generateMetrics_every_range_witness :
  List.length (fst (generateMetrics (H := Sample.host) "all"%string Sample.world))
  = 52%nat
  /\ Forall inRange
       (fst (generateMetrics (H := Sample.host) "all"%string Sample.world)).
Proof.
  destruct (generateMetrics_every_range (host := Sample.host)
              (range_ok := sample_range_ok) "all"%string Sample.world)
    as (Hlen & _ & _ & Hall & _).
  split; [exact Hlen | exact Hall].
Defined.

Lemma generateNewMetric_now_witness :
  timestamp (fst (generateNewMetric (H := Sample.host) Sample.world))
  = 1793534400000%Z
  /\ inRange (fst (generateNewMetric (H := Sample.host) Sample.world)).
Proof.
  destruct (generateNewMetric_now (host := Sample.host) (host_ok := sample_ok)
              Sample.world) as (Ht & Hr & _).
  split; [exact Ht | exact Hr].
Defined.

End RangesFacts.

Module RouteRangesFacts.

Import Generator GeneratorSpec RangesSpec RangesFacts MetricsRoute MetricsRouteSpec
  MetricsRouteFacts.
Local Open Scope string_scope.

Section WithRangeHost.
Context {host : Host} {range_ok : RangeHostOk}.

(** A request that is not rejected is answered 200 with as many points as
    the sampling policy of its range asks for (7, 24, 30 or 52, never none),
    all within the bounds of the generator; the bounds of the response are
    the first and the last sampling date, in this order and not after the
    end of the range: the fallback to the current time is never taken. *)
Theorem GET_accepted (param : option string) (w : World) :
  ~ rejected param ->
  let range := orDefault param "30d" in
  let interval := fst (samplingPolicy range) in
  let totalPoints := snd (samplingPolicy range) in
  exists resp,
    fst (GET param w) = mkResponse 200 (MetricsBody resp)
    /\ List.length (data resp) = totalPoints
    /\ In totalPoints [7; 24; 30; 52]%nat
    /\ start (timeRange resp) = rangeStart range w
    /\ end_ (timeRange resp)
       = rangeStart range w + (Z.of_nat totalPoints - 1) * interval * 3600000
    /\ start (timeRange resp) <= end_ (timeRange resp) <= endOfDay (time w)
    /\ Forall inRange (data resp).
Proof.
  intros Hacc. cbv zeta.
  assert (Hinc : includes validRanges (orDefault param "30d") = true).
  { destruct (includes validRanges (orDefault param "30d")) eqn:E; [reflexivity | ].
    now apply orDefault_rejected in E. }
  set (range := orDefault param "30d") in *.
  assert (Htot : In (snd (samplingPolicy range)) [7; 24; 30; 52]%nat
                 /\ 0 <= fst (samplingPolicy range)).
  { apply includes_In in Hinc. simpl in Hinc.
    destruct Hinc as [<- | [<- | [<- | [<- | [<- | [<- | []]]]]]];
      cbn; split; try lia; tauto. }
  destruct Htot as [Htot Hint].
  rewrite GET_eq. cbv zeta. fold range. rewrite Hinc. cbn [negb].
  pose proof (generateMetrics_sampling range w) as Hs. cbv zeta in Hs.
  destruct (generateMetrics range w) as [ms w'] eqn:Eg. cbn [fst] in Hs.
  destruct Hs as (Hlen & Hnth & Hto & Hr).
  destruct (StatsFacts.calculateSummary_total ms) as [sm Hsm]. rewrite Hsm.
  set (n := snd (samplingPolicy range)) in *.
  set (interval := fst (samplingPolicy range)) in *.
  assert (Hn : (0 < n)%nat) by (simpl in Htot; lia).
  pose proof (Hnth 0%nat Hn) as H0.
  pose proof (Hnth (n - 1)%nat ltac:(lia)) as Hl.
  rewrite <- Hlen in Hl at 1.
  destruct (nth_error ms 0) as [m0 | ] eqn:E0; [ | discriminate].
  destruct (nth_error ms (List.length ms - 1)) as [ml | ] eqn:El; [ | discriminate].
  cbn [option_map] in H0, Hl. injection H0 as H0. injection Hl as Hl.
  eexists. cbn [fst]. split; [reflexivity | ].
  cbn [data timeRange start end_].
  rewrite Forall_forall in Hto. apply nth_error_In in El. specialize (Hto _ El).
  rewrite Nat2Z.inj_sub in Hl by lia.
  change (Z.of_nat 0) with 0 in H0. change (Z.of_nat 1) with 1 in Hl.
  rewrite H0, Hl in *.
  assert (0 <= (Z.of_nat n - 1) * interval) by (apply Z.mul_nonneg_nonneg; lia).
  repeat split; auto; lia.
Qed.

End WithRangeHost.

Lemma GET_accepted_witness :
  ~ rejected (Some "1y")
  /\ exists resp,
       fst (GET (H := Sample.host) (Some "1y") Sample.world)
       = mkResponse 200 (MetricsBody resp)
       /\ List.length (data resp) = 52%nat.
Proof.
  assert (Hacc : ~ rejected (Some "1y")).
  { intros (s & Hs & _ & Hn). injection Hs as <-. apply Hn. simpl. tauto. }
  split; [exact Hacc | ].
  destruct (GET_accepted (host := Sample.host) (range_ok := sample_range_ok)
              (Some "1y") Sample.world Hacc) as (resp & Hr & Hlen & _).
  exists resp. split; [exact Hr | exact Hlen].
Defined.

End RouteRangesFacts.

Module TimeRangesFacts.

Import TimeRanges Generator MetricsRoute MetricsRouteFacts.

Section WithHost.
Context `{Host}.

Lemma GET_included (param : option string) (w : World) :
  includes validRanges (orDefault param "30d") = true ->
  status (fst (GET param w)) = 200.
Proof.
  intros Hinc. rewrite GET_eq. cbv zeta. rewrite Hinc. cbn [negb].
  destruct (generateMetrics (orDefault param "30d") w) as [ms w'].
  destruct (StatsFacts.calculateSummary_total ms) as [sm ->]. reflexivity.
Qed.

(** The table of the selector and the pipeline agree: the values of
    [TIME_RANGES] are the ranges that the history endpoint accepts, in the
    same order; a request for any of them is answered 200; and for each of
    them [getDateRangeFromTimeRange] goes back the number of days that the
    table gives, from the end of the current day. *)
Theorem selector_ranges_served :
  map value TIME_RANGES = validRanges
  /\ forall r, In r TIME_RANGES ->
       forall w,
         status (fst (GET (Some (value r)) w)) = 200
         /\ fst (getDateRangeFromTimeRange (value r) w)
            = (startOfDay (subDays (endOfDay (time w)) (days r)),
               endOfDay (time w)).
Proof.
  split; [reflexivity | ].
  intros r Hin w. cbn [TIME_RANGES In] in Hin.
  destruct Hin as [<- | [<- | [<- | [<- | [<- | [<- | []]]]]]];
    (split; [apply GET_included; reflexivity | reflexivity]).
Qed.

End WithHost.

End TimeRangesFacts.

(* ================================================================== *)
(** * Facts about the frames of the push transport *)
(* ================================================================== *)

Module StreamQueueFacts.

Import Generator GeneratorSpec RangesFacts StreamRoute StreamRouteSpec
  StreamRouteFacts StreamQueueSpec.

Section WithHost.
Context {host : Host} {host_ok : HostOk}.

(** One tick of a timer on a readable stream appends its frame. *)
Lemma tick_frame (ev : Event) (at_ : Date) (t : Transport) (w : World) :
  isTick ev = true -> Inv t -> abortDispatched t = false ->
  cancelled t = false ->
  exists f s',
    turn ev at_ (t, w) = Some s'
    /\ queue (fst s') = queue t ++ [f]
    /\ frameOfTick (ev, at_) f
    /\ Inv (fst s') /\ abortDispatched (fst s') = false
    /\ cancelled (fst s') = false.
Proof.
  intros Hev HI Hab Hcan. pose proof HI as HI'.
  unfold Inv in HI'. rewrite Hab in HI'. destruct HI' as (Hc & Hd & Hh).
  destruct ev; try discriminate Hev.
  - unfold turn. cbn [enabled handler]. rewrite Hd.
    unfold onDataInterval, bind, Date_now, enqueue. rewrite Hc, Hcan.
    cbn [Nat.ltb Nat.leb orb].
    set (w0 := mkWorld (draws w) at_).
    pose proof (generateNewMetric_point w0) as Hp. cbv zeta in Hp.
    destruct (generateNewMetric w0) as [m w1]. cbn [fst snd] in Hp.
    cbn [ret]. eexists. eexists. split; [reflexivity | ].
    cbn [fst queue abortDispatched cancelled]. split; [reflexivity | ].
    split; [ | split; [ | split; [exact Hab | reflexivity]]].
    + unfold frameOfTick. cbn [fst snd]. exists m. eexists.
      split; [reflexivity | exact (proj2 Hp)].
    + unfold Inv, ret.
      cbn [fst abortDispatched closeCalls dataInterval heartbeatInterval].
      rewrite Hab. auto.
  - unfold turn. cbn [enabled handler]. rewrite Hh.
    unfold onHeartbeatInterval, enqueue. rewrite Hc, Hcan.
    cbn [Nat.ltb Nat.leb orb ret].
    eexists. eexists. split; [reflexivity | ].
    cbn [fst queue abortDispatched cancelled]. split; [reflexivity | ].
    split; [reflexivity | split; [ | split; [exact Hab | reflexivity]]].
    unfold Inv, ret.
    cbn [fst abortDispatched closeCalls dataInterval heartbeatInterval].
    rewrite Hab. auto.
Qed.

Lemma ticks_frames (ticks : list (Event * Date)) :
  forall (t : Transport) (w : World),
  Forall (fun tick => isTick (fst tick) = true) ticks ->
  Inv t -> abortDispatched t = false -> cancelled t = false ->
  exists s frames,
    run ticks (t, w) = Some s
    /\ queue (fst s) = queue t ++ frames
    /\ Forall2 frameOfTick ticks frames
    /\ Inv (fst s) /\ abortDispatched (fst s) = false
    /\ cancelled (fst s) = false.
Proof.
  induction ticks as [ | [ev at_] ticks IH]; intros t w Hall HI Hab Hcan.
  - exists (t, w), []. cbn [run fst]. rewrite app_nil_r.
    repeat split; auto.
  - inversion Hall as [ | ? ? Hev Hall']; subst. cbn [fst] in Hev.
    destruct (tick_frame ev at_ t w Hev HI Hab Hcan)
      as (f & [t1 w1] & Hturn & Hq & Hf & HI1 & Hab1 & Hcan1).
    cbn [fst] in Hq, HI1, Hab1, Hcan1.
    destruct (IH t1 w1 Hall' HI1 Hab1 Hcan1)
      as (s & frames & Hrun & Hq' & Hfs & Hrest).
    exists s, (f :: frames). cbn [run]. rewrite Hturn.
    split; [exact Hrun | ].
    split; [rewrite Hq', Hq, <- app_assoc; reflexivity | ].
    split; [now constructor | exact Hrest].
Qed.

Lemma enqueue_cancelled (f : Frame) (t : Transport) :
  cancelled t = true -> enqueue f t = None.
Proof. intros Hcan. unfold enqueue. rewrite Hcan. now rewrite orb_true_r. Qed.

(** One tick of a timer on a cancelled stream: the timer is still set, the
    frame is refused and the transport is as it was. *)
Lemma tick_refused (ev : Event) (at_ : Date) (t : Transport) (w : World) :
  isTick ev = true -> cancelled t = true ->
  dataInterval t = true -> heartbeatInterval t = true ->
  exists w', turn ev at_ (t, w) = Some (t, w').
Proof.
  intros Hev Hcan Hd Hh. destruct ev; try discriminate Hev.
  - unfold turn. cbn [enabled handler]. rewrite Hd.
    unfold onDataInterval, bind, Date_now.
    destruct (generateNewMetric (mkWorld (draws w) at_)) as [m w1].
    rewrite (enqueue_cancelled _ t Hcan). eexists. reflexivity.
  - unfold turn. cbn [enabled handler]. rewrite Hh.
    unfold onHeartbeatInterval. rewrite (enqueue_cancelled _ t Hcan).
    eexists. reflexivity.
Qed.

Lemma ticks_refused (ticks : list (Event * Date)) :
  forall (t : Transport) (w : World),
  Forall (fun tick => isTick (fst tick) = true) ticks ->
  cancelled t = true -> dataInterval t = true -> heartbeatInterval t = true ->
  exists w', run ticks (t, w) = Some (t, w').
Proof.
  induction ticks as [ | [ev at_] ticks IH]; intros t w Hall Hcan Hd Hh.
  - exists w. reflexivity.
  - inversion Hall as [ | ? ? Hev Hall']; subst. cbn [fst] in Hev.
    destruct (tick_refused ev at_ t w Hev Hcan Hd Hh) as [w1 Hturn].
    destruct (IH t w1 Hall' Hcan Hd Hh) as [w' Hrun].
    exists w'. cbn [run]. now rewrite Hturn.
Qed.

Lemma run_trans evs1 evs2 s s1 s2 :
  run evs1 s = Some s1 -> run evs2 s1 = Some s2 ->
  run (evs1 ++ evs2) s = Some s2.
Proof.
  revert s; induction evs1 as [ | [ev at_] evs1 IH]; intros s H1 H2;
    cbn [run app] in *.
  - injection H1 as ->. exact H2.
  - destruct (turn ev at_ s) as [s' | ]; [ | discriminate]. now apply IH.
Qed.

(** While the subscriber has neither aborted nor cancelled the stream, it
    holds the connection message, stamped with the time at which [start]
    ran, followed by exactly one frame for each tick of a timer, in the
    order of the ticks: a metric message for a tick of the data timer,
    whose point is within the bounds of the generator, and the heartbeat
    comment for a tick of the heartbeat timer; no tick is refused and the
    stream stays readable.  When the consumer cancels the stream and no
    abort event follows, both timers stay set and keep firing, every
    [enqueue] raises, and no frame is written any more. *)
Theorem frames_follow_ticks (ticks : list (Event * Date)) (w : World) :
  Forall (fun tick => isTick (fst tick) = true) ticks ->
  exists s frames,
    run ticks (start w) = Some s
    /\ queue (fst s)
       = FrameData (MsgConnection "connected" (time w)) :: frames
    /\ Forall2 frameOfTick ticks frames
    /\ closeCalls (fst s) = 0%nat
    /\ cancelled (fst s) = false
    /\ forall at_ later,
         Forall (fun tick => isTick (fst tick) = true) later ->
         exists s',
           run (ticks ++ (Cancel, at_) :: later) (start w) = Some s'
           /\ queue (fst s') = queue (fst s)
           /\ dataInterval (fst s') = true
           /\ heartbeatInterval (fst s') = true
           /\ forall f, enqueue f (fst s') = None.
Proof.
  intros Hall.
  destruct (ticks_frames ticks (fst (start w)) (snd (start w)) Hall
              (start_inv w) eq_refl eq_refl)
    as (s & frames & Hrun & Hq & Hfs & HI & Hab & Hcan).
  exists s, frames. rewrite <- surjective_pairing in Hrun.
  pose proof HI as HI'. unfold Inv in HI'. rewrite Hab in HI'.
  destruct HI' as (Hc & Hd & Hh).
  split; [exact Hrun | split; [exact Hq | split; [exact Hfs | ]]].
  split; [exact Hc | split; [exact Hcan | ]].
  intros at_ later Hlater.
  destruct s as [t ws]. cbn [fst] in *.
  set (t' := mkTransport (queue t) (closeCalls t) (dataInterval t)
               (heartbeatInterval t) (abortDispatched t) true).
  destruct (ticks_refused later t' (mkWorld (draws ws) at_) Hlater
              eq_refl Hd Hh) as [w' Hrun'].
  exists (t', w'). split.
  - apply (run_trans ticks _ _ (t, ws)); [exact Hrun | ].
    cbn [run]. unfold turn. cbn [enabled handler].
    rewrite Hcan, Hc. cbn [negb andb Nat.eqb]. exact Hrun'.
  - cbn [fst]. split; [reflexivity | split; [exact Hd | split; [exact Hh | ]]].
    intros f. now apply enqueue_cancelled.
Qed.

End WithHost.

Lemma frames_follow_ticks_witness :
  exists s frames,
    run (H := Sample.host) sampleTicks (start Sample.world) = Some s
    /\ queue (fst s)
       = FrameData (MsgConnection "connected" 1793534400000) :: frames
    /\ List.length frames = 2%nat.
Proof.
  destruct (frames_follow_ticks (host := Sample.host) (host_ok := GeneratorFacts.sample_ok)
              sampleTicks Sample.world) as (s & frames & Hrun & Hq & Hfs & _).
  - repeat constructor.
  - exists s, frames. split; [exact Hrun | split; [exact Hq | ]].
    apply Forall2_length in Hfs. symmetry. exact Hfs.
Defined.

End StreamQueueFacts.

(* ================================================================== *)
(** * Further facts about the stream consumer *)
(* ================================================================== *)

Module HookFacts.

Import UseMetrics ListSpec UseMetricsSpec UseMetricsFacts HookSpec.

Lemma isMounted_disconnect (h : Hook) :
  isMountedRef (disconnect h) = isMountedRef h.
Proof. destruct_hook h. destruct esr, rtr; reflexivity. Qed.

Lemma quiet_disabled (h : Hook) (ev : Event) :
  openSources h = [] -> pendingTimeouts h = [] -> internal ev = true ->
  enabled h ev = false.
Proof.
  intros Hs Ht Hev. destruct ev; try discriminate; cbn [enabled];
    rewrite ?Hs, ?Ht; reflexivity.
Qed.

(** After the caller's [disconnect] and after the unmount, no event source
    is open and no timeout is pending, so that no event of the stream and no
    reconnection reaches the hook any more; the status is [disconnected],
    the retry counter is 0 and the window is kept.  After the unmount a
    fetch that completes changes nothing. *)
Theorem teardown_quiet (h : Hook) (ev : Event) :
  reachable h ->
  ev = DisconnectCalled \/ ev = Unmounted ->
  let h' := handle ev h in
  openSources h' = [] /\ pendingTimeouts h' = []
  /\ connectionStatus h' = Status.disconnected
  /\ reconnectAttemptsRef h' = 0%nat
  /\ (forall ev', internal ev' = true -> enabled h' ev' = false)
  /\ metrics h' = metrics h
  /\ (ev = Unmounted ->
      isMountedRef h' = false
      /\ (forall data s, handle (FetchResolved data s) h' = h')
      /\ (forall message, handle (FetchFailed message) h' = h')).
Proof.
  intros Hreach Hev. apply reachable_inv in Hreach. cbv zeta.
  assert (Hd : exists h0, Inv h0 /\ handle ev h = disconnect h0
                          /\ metrics h0 = metrics h
                          /\ (ev = Unmounted -> isMountedRef h0 = false)).
  { destruct Hev as [-> | ->].
    - exists h.
      split; [exact Hreach | split; [reflexivity | split; [reflexivity | discriminate]]].
    - exists (setIsMounted false (disconnect h)). cbn [handle].
      split; [apply setIsMounted_inv, disconnect_inv, Hreach | ].
      split; [reflexivity | split; [ | reflexivity]].
      change (metrics (setIsMounted false (disconnect h)))
        with (metrics (disconnect h)).
      apply metrics_disconnect. }
  destruct Hd as (h0 & HI & -> & Hm & Hu).
  destruct (disconnect_clean h0 HI) as (Hs & Ht & Ha & _ & _).
  split; [exact Hs | split; [exact Ht | ]].
  split; [apply status_disconnect | split; [exact Ha | ]].
  split; [intros ev' Hev'; now apply quiet_disabled | ].
  split; [now rewrite metrics_disconnect | ].
  intros Hun. specialize (Hu Hun).
  assert (Hmount : isMountedRef (disconnect h0) = false)
    by now rewrite isMounted_disconnect.
  split; [exact Hmount | split].
  - intros data s. cbn [handle]. unfold fetchResolved. now rewrite Hmount.
  - intros message. cbn [handle]. unfold fetchFailed. now rewrite Hmount.
Qed.

Lemma teardown_quiet_witness :
  openSources (handle Unmounted (mount true)) = []
  /\ pendingTimeouts (handle Unmounted (mount true)) = [].
Proof.
  destruct (teardown_quiet (mount true) Unmounted (reach_mount true)
              (or_intror eq_refl)) as (Hs & Ht & _).
  split; [exact Hs | exact Ht].
Defined.


(** A connection that opens puts the backoff back to its start: the status
    is [connected] and the retry counter 0 whatever it was, so that the next
    fault of the source schedules the reconnection after
    [SSE_CONFIG.reconnectInterval], 3000 ms, and this is the only timeout
    pending. *)
Theorem open_resets_backoff (h : Hook) (src : nat) :
  reachable h ->
  isMountedRef h = true ->
  enabled h (EsOpen src) = true ->
  let h1 := handle (EsOpen src) h in
  let h2 := handle (EsError src) h1 in
  connectionStatus h1 = Status.connected
  /\ reconnectAttemptsRef h1 = 0%nat
  /\ enabled h1 (EsError src) = true
  /\ connectionStatus h2 = Status.reconnecting
  /\ pendingTimeouts h2 = [(nextHandle h, 3000)]
  /\ openSources h2 = [].
Proof.
  intros Hreach Hm Hen. apply reachable_inv in Hreach.
  cbn [enabled] in Hen.
  destruct (enabled_source h src Hen Hreach) as [Href Hpend].
  pose proof (inv_sources h Hreach) as Hsrcs.
  cbv zeta. cbn [handle enabled].
  destruct_hook h. subst. cbn [negb].
  rewrite filter_sources_ref by exact Hsrcs.
  repeat split; auto.
Qed.

Lemma open_resets_backoff_witness :
  pendingTimeouts (handle (EsError 10) (handle (EsOpen 10) exhausted))
  = [(11%nat, 3000)].
Proof.
  apply (open_resets_backoff exhausted 10 exhausted_reachable eq_refl eq_refl).
Defined.

(** ** The callbacks of the caller *)

Lemma last_snoc {A} (l : list A) (x d : A) : last (l ++ [x]) d = x.
Proof. apply last_last. Qed.

Ltac notified_case :=
  unfold Notified; hook_eval; rewrite ?last_snoc;
  (split; [auto | ]);
  intros e He'; rewrite ?in_app_iff; cbn [In];
  try discriminate; try (injection He' as <-); auto.

Lemma disconnect_notified (h : Hook) : Notified h -> Notified (disconnect h).
Proof.
  intros [Hc He]. destruct_hook h. destruct esr, rtr; notified_case.
Qed.

Lemma connectSSE_notified (h : Hook) : Notified h -> Notified (connectSSE h).
Proof.
  intros [Hc He]. destruct_hook h. destruct esr; notified_case.
Qed.

Lemma onerror_notified (h : Hook) : Notified h -> Notified (onerror h).
Proof.
  intros [Hc He]. destruct_hook h.
  destruct mounted; [ | notified_case].
  destruct esr; hook_eval;
    destruct (att <? SSE_CONFIG.maxReconnectAttempts)%nat; notified_case.
Qed.

Lemma handle_notified (ev : Event) (h : Hook) :
  Notified h -> Notified (handle ev h).
Proof.
  intros HN. destruct ev; cbn [handle].
  - destruct HN as [Hc He]. destruct_hook h. destruct mounted; notified_case.
  - destruct HN as [Hc He]. unfold onmessage. destruct_hook h.
    destruct mounted; [ | notified_case].
    destruct parsed as [[ | | ] | ]; notified_case.
  - now apply onerror_notified.
  - apply connectSSE_notified.
    destruct HN as [Hc He]. destruct_hook h. notified_case.
  - destruct HN as [Hc He]. destruct_hook h. notified_case.
  - destruct HN as [Hc He]. destruct_hook h. destruct mounted; notified_case.
  - destruct HN as [Hc He]. destruct_hook h. destruct mounted; notified_case.
  - destruct enableRealTime.
    + now apply connectSSE_notified, disconnect_notified.
    + now apply disconnect_notified, disconnect_notified.
  - now apply disconnect_notified.
  - apply disconnect_notified.
    apply disconnect_notified in HN. destruct HN as [Hc He].
    destruct (disconnect h) as [ms sm ld er cs esr rtr att mounted srcs tmo nh oec occ].
    hook_eval_all. notified_case.
Qed.

Lemma mount_notified (enableRealTime : bool) : Notified (mount enableRealTime).
Proof.
  destruct enableRealTime; (split; [reflexivity | intros e He; discriminate]).
Qed.

(** In every state of the hook the connection status is the one last given
    to [onConnectionChange] ([disconnected] before the first call), and a
    failure that the hook holds has been given to [onError]. *)
Theorem callbacks_told (h : Hook) : reachable h -> Notified h.
Proof.
  induction 1 as [ | b | h ev h' _ IH Hstep].
  - split; [reflexivity | intros e He; discriminate].
  - apply mount_notified.
  - destruct Hstep. now apply handle_notified.
Qed.

Lemma callbacks_told_witness :
  connectionStatus exhausted
  = last (onConnectionChangeCalls exhausted) Status.disconnected.
Proof.
  apply (callbacks_told exhausted exhausted_reachable).
Defined.


(** ** The connection status and the runtime objects *)

Lemma StatusOk_disconnected (h : Hook) :
  connectionStatus h = Status.disconnected -> StatusOk h.
Proof. unfold StatusOk. now intros ->. Qed.

Lemma handle_statusOk (ev : Event) (h : Hook) :
  Inv h -> enabled h ev = true -> StatusOk h -> StatusOk (handle ev h).
Proof.
  intros HI Hen HS.
  destruct ev; cbn [handle].
  - (* onopen *)
    cbn [enabled] in Hen.
    destruct (enabled_source h src Hen HI) as [Href Hpend].
    destruct_hook h. destruct mounted; [ | exact HS].
    unfold StatusOk; hook_eval. subst.
    repeat split; auto. intros ->. discriminate.
  - (* onmessage *)
    unfold onmessage. destruct_hook h. destruct mounted; [ | exact HS].
    destruct parsed as [[ | | ] | ]; exact HS.
  - (* onerror *)
    cbn [enabled] in Hen.
    destruct (enabled_source h src Hen HI) as [Href Hpend].
    pose proof (inv_sources h HI) as Hsrcs.
    destruct_hook h. destruct mounted; [ | exact HS]. subst.
    cbn [negb]. rewrite filter_sources_ref by exact Hsrcs.
    destruct (att <? SSE_CONFIG.maxReconnectAttempts)%nat;
      unfold StatusOk; hook_eval.
    + right. discriminate.
    + split; reflexivity.
  - (* the reconnection timeout *)
    cbn [enabled] in Hen.
    destruct (enabled_timer h timer Hen HI) as (Href & Hsrcs & _).
    destruct_hook h. subst. unfold StatusOk in *.
    destruct esr; hook_eval_all; destruct cs; auto;
      try (destruct HS as (Hne & _); now elim Hne);
      try (left; discriminate);
      destruct HS as (_ & Hpend); rewrite Hpend in Hen; discriminate.
  - exact HS.
  - destruct_hook h. destruct mounted; exact HS.
  - destruct_hook h. destruct mounted; exact HS.
  - destruct enableRealTime.
    + apply StatusOk_disconnected.
      rewrite status_connectSSE. apply status_disconnect.
    + apply StatusOk_disconnected, status_disconnect.
  - apply StatusOk_disconnected, status_disconnect.
  - apply StatusOk_disconnected, status_disconnect.
Qed.

(** The connection status is sound in every state of the hook: it is
    [connected] only while an event source is open, with no reconnection
    pending and the retry counter at 0; while it is [reconnecting] a
    reconnection is pending or a new source is open; and when it is [error]
    no source is open and no reconnection is pending. *)
Theorem status_sound (h : Hook) : reachable h -> StatusOk h.
Proof.
  induction 1 as [ | b | h ev h' Hreach IH Hstep].
  - apply StatusOk_disconnected. reflexivity.
  - apply StatusOk_disconnected. destruct b; reflexivity.
  - destruct Hstep as [h ev Hen].
    apply handle_statusOk; auto. now apply reachable_inv.
Qed.

Lemma status_sound_witness :
  openSources exhausted <> [] \/ pendingTimeouts exhausted <> [].
Proof.
  apply (status_sound exhausted exhausted_reachable).
Defined.

(** ** The window and the stream *)

Lemma lastPoints_all {A} (k : nat) (l : list A) :
  (List.length l <= k)%nat -> lastPoints k l = l.
Proof.
  intros Hl. unfold lastPoints.
  replace (List.length l - k)%nat with 0%nat by lia. reflexivity.
Qed.

Lemma lastPoints_app_last {A} (k : nat) (l rest : list A) :
  lastPoints k (lastPoints k l ++ rest) = lastPoints k (l ++ rest).
Proof.
  destruct (Nat.le_gt_cases (List.length l) k) as [Hle | Hgt].
  - now rewrite (lastPoints_all k l Hle).
  - unfold lastPoints.
    rewrite !length_app, length_skipn, !skipn_app, skipn_skipn, length_skipn.
    f_equal; f_equal; lia.
Qed.

Lemma run_messages (src : nat) (points : list (Metric * Date)) :
  forall h h',
  isMountedRef h = true ->
  run (metricMessages src points) h = Some h' ->
  isMountedRef h' = true
  /\ metrics h'
     = fold_left (fun w p => lastPoints 50 (w ++ [fst p])) points (metrics h).
Proof.
  induction points as [ | [m t] points IH]; intros h h' Hm Hrun.
  - cbn [metricMessages map run] in Hrun. injection Hrun as <-. auto.
  - cbn [metricMessages map run fst snd] in Hrun.
    destruct (enabled h (EsMessage src (Some (MsgMetric m t)))); [ | discriminate].
    cbn [handle] in Hrun. apply IH in Hrun.
    + destruct Hrun as [Hm' ->]. split; [exact Hm' | ].
      cbn [fold_left fst]. now rewrite onmessage_metric.
    + unfold onmessage. rewrite Hm. cbn [negb]. destruct h; exact Hm.
Qed.

Lemma fold_left_fst {A B C} (f : A -> B -> A) (l : list (B * C)) :
  forall a, fold_left f (map fst l) a = fold_left (fun a p => f a (fst p)) l a.
Proof. induction l as [ | p l IH]; intros a; [reflexivity | apply IH]. Qed.

Lemma fold_lastPoints (points : list Metric) :
  forall w : list Metric,
  points <> [] ->
  fold_left (fun w m => lastPoints 50 (w ++ [m])) points w
  = lastPoints 50 (w ++ points).
Proof.
  induction points as [ | m points IH]; intros w Hne; [now elim Hne | ].
  cbn [fold_left]. destruct points as [ | m' points]; [reflexivity | ].
  rewrite IH by discriminate.
  rewrite lastPoints_app_last, <- app_assoc. reflexivity.
Qed.

(** While the hook is mounted, after one or more metric messages of the
    stream the window is the last 50 points of what it held followed by the
    points received, in their order of arrival; the window of a history
    fetch of more than 50 points is cut to 50 by the first message. *)
Theorem window_is_latest (h h' : Hook) (src : nat)
    (points : list (Metric * Date)) :
  isMountedRef h = true ->
  points <> [] ->
  run (metricMessages src points) h = Some h' ->
  metrics h' = lastPoints 50 (metrics h ++ map fst points).
Proof.
  intros Hm Hne Hrun.
  destruct (run_messages src points h h' Hm Hrun) as [_ ->].
  rewrite <- fold_lastPoints by (destruct points; [now elim Hne | discriminate]).
  symmetry.
  apply (fold_left_fst (fun w m => lastPoints 50 (w ++ [m]))).
Qed.

Lemma window_is_latest_witness :
  exists h',
    run (metricMessages 0 [(aPoint 50, 0); (aPoint 51, 0)]) fullWindow = Some h'
    /\ metrics h'
       = lastPoints 50 (metrics fullWindow ++ [aPoint 50; aPoint 51]).
Proof.
  destruct (run (metricMessages 0 [(aPoint 50, 0); (aPoint 51, 0)]) fullWindow)
    as [h' | ] eqn:Hrun; [ | vm_compute in Hrun; discriminate Hrun].
  exists h'. split; [reflexivity | ].
  apply (window_is_latest fullWindow h' 0 [(aPoint 50, 0); (aPoint 51, 0)]
           eq_refl ltac:(discriminate) Hrun).
Defined.


(** ** The loading state *)

Ltac loading_case :=
  unfold LoadingOk in *; hook_eval_all;
  try match goal with |- context [match ?l with Loading.idle => _ | _ => _ end] =>
        is_var l; destruct l end;
  auto; try discriminate.

Lemma disconnect_loadingOk (h : Hook) : LoadingOk h -> LoadingOk (disconnect h).
Proof. intros HL. destruct_hook h. destruct esr, rtr; loading_case. Qed.

Lemma connectSSE_loadingOk (h : Hook) : LoadingOk h -> LoadingOk (connectSSE h).
Proof. intros HL. destruct_hook h. destruct esr; loading_case. Qed.

Lemma handle_loadingOk (ev : Event) (h : Hook) :
  LoadingOk h -> LoadingOk (handle ev h).
Proof.
  intros HL. destruct ev; cbn [handle].
  - destruct_hook h. destruct mounted; loading_case.
  - unfold onmessage. destruct_hook h. destruct mounted; [ | loading_case].
    destruct parsed as [[ | | ] | ]; loading_case.
  - destruct_hook h. destruct mounted; [ | loading_case].
    destruct esr; hook_eval;
      destruct (att <? SSE_CONFIG.maxReconnectAttempts)%nat; loading_case.
  - apply connectSSE_loadingOk. destruct_hook h. loading_case.
  - destruct_hook h. loading_case.
  - destruct_hook h. destruct mounted; loading_case.
  - destruct_hook h. destruct mounted; loading_case.
  - destruct enableRealTime.
    + now apply connectSSE_loadingOk, disconnect_loadingOk.
    + now apply disconnect_loadingOk, disconnect_loadingOk.
  - now apply disconnect_loadingOk.
  - apply disconnect_loadingOk.
    apply disconnect_loadingOk in HL.
    destruct (disconnect h) as [ms sm ld er cs esr rtr att mounted srcs tmo nh oec occ].
    loading_case.
Qed.

Lemma reachable_loadingOk (h : Hook) : reachable h -> LoadingOk h.
Proof.
  induction 1 as [ | b | h ev h' _ IH Hstep].
  - reflexivity.
  - destruct b; exact I.
  - destruct Hstep. now apply handle_loadingOk.
Qed.

Lemma loading_disconnect (h : Hook) : loading (disconnect h) = loading h.
Proof. destruct_hook h. destruct esr, rtr; reflexivity. Qed.

Lemma loading_connectSSE (h : Hook) : loading (connectSSE h) = loading h.
Proof. destruct_hook h. destruct esr; reflexivity. Qed.

(** No event sets the loading state to [idle]. *)
Lemma handle_not_idle (ev : Event) (h : Hook) :
  loading h <> Loading.idle -> loading (handle ev h) <> Loading.idle.
Proof.
  intros Hl. destruct ev; cbn [handle].
  - destruct_hook h. destruct mounted; exact Hl.
  - unfold onmessage. destruct_hook h. destruct mounted; [ | exact Hl].
    destruct parsed as [[ | | ] | ]; exact Hl.
  - destruct_hook h. destruct mounted; [ | exact Hl].
    destruct esr; hook_eval;
      destruct (att <? SSE_CONFIG.maxReconnectAttempts)%nat; exact Hl.
  - unfold onReconnectTimeout. rewrite loading_connectSSE.
    destruct_hook h. exact Hl.
  - destruct_hook h. discriminate.
  - destruct_hook h. destruct mounted; [discriminate | exact Hl].
  - destruct_hook h. destruct mounted; [discriminate | exact Hl].
  - destruct enableRealTime;
      rewrite ?loading_connectSSE, !loading_disconnect; exact Hl.
  - now rewrite loading_disconnect.
  - rewrite loading_disconnect.
    change (loading (setIsMounted false (disconnect h)))
      with (loading (disconnect h)).
    now rewrite loading_disconnect.
Qed.

Lemma run_not_idle (evs : list Event) :
  forall h h',
  run evs h = Some h' ->
  loading h <> Loading.idle -> loading h' <> Loading.idle.
Proof.
  induction evs as [ | ev evs IH]; intros h h' Hrun Hl; cbn [run] in Hrun.
  - now injection Hrun as <-.
  - destruct (enabled h ev); [ | discriminate].
    apply (IH _ _ Hrun). now apply handle_not_idle.
Qed.

(** The loading state is [idle] in the state that the first render
    returns, and [loading] once its effects have run: they start the
    fetch.  No event sets it back to [idle], so that after the first
    effects the hook is never [idle] again.  In every state, [idle] comes
    with no summary, [success] with a summary and [error] with a
    failure. *)
Theorem loading_sound (h : Hook) :
  reachable h ->
  LoadingOk h
  /\ (forall evs h',
        run evs h = Some h' ->
        loading h <> Loading.idle -> loading h' <> Loading.idle)
  /\ loading initial = Loading.idle
  /\ (forall enableRealTime,
        loading (mount enableRealTime) = Loading.loading).
Proof.
  intros Hreach.
  split; [now apply reachable_loadingOk | ].
  split; [intros evs h'; apply run_not_idle | ].
  split; [reflexivity | intros b; destruct b; reflexivity].
Qed.

Lemma loading_sound_witness :
  summary initial = None
  /\ summary (handle (FetchResolved fiftyPoints Stats.zeroSummary) (mount true))
     <> None.
Proof.
  split.
  - exact (proj1 (loading_sound initial reach_initial)).
  - refine (proj1 (loading_sound
             (handle (FetchResolved fiftyPoints Stats.zeroSummary) (mount true))
             _)).
    apply (reach_step (mount true) (FetchResolved fiftyPoints Stats.zeroSummary)).
    + apply reach_mount.
    + now constructor.
Defined.

End HookFacts.

(* ================================================================== *)
(** * Facts about the metric cards *)
(* ================================================================== *)

Module CardsFacts.

Import JS JSSpec JSFacts JSArray OrderFacts IntegerFacts Stats ListSpec Format Cards
  CardsSpec.

Section WithPrinter.
Context `{Printer}.

Lemma Math_min_int (a b : Z) :
  0 <= a < 2 ^ 53 -> 0 <= b < 2 ^ 53 ->
  Math_min (ofZ a) (ofZ b) = ofZ (Z.min a b).
Proof.
  intros Ha Hb. unfold Math_min. rewrite compare_int by assumption.
  destruct (Z.compare_spec a b) as [-> | Hlt | Hgt].
  - rewrite Z.min_id. destruct (Z.eq_dec b 0) as [-> | Hne]; [reflexivity | ].
    rewrite ofZ_pos by lia. reflexivity.
  - now rewrite Z.min_l by lia.
  - now rewrite Z.min_r by lia.
Qed.

(** [arr.slice (- k)] for a count [k] within the array. *)
Lemma slice_last {A} (l : list A) (k : Z) :
  0 <= k <= Z.of_nat (List.length l) -> k < 2 ^ 53 ->
  (k = 0 -> l = []) ->
  slice l (neg (ofZ k)) None = lastPoints (Z.to_nat k) l.
Proof.
  intros Hk Hk53 Hzero. unfold slice, lastPoints.
  assert (Hrel : relIndex (neg (ofZ k)) (Z.of_nat (List.length l))
                 = Z.of_nat (List.length l) - k).
  { destruct (Z.eq_dec k 0) as [-> | Hne].
    - rewrite (Hzero eq_refl). reflexivity.
    - unfold relIndex. rewrite ofZ_pos by lia. unfold IntegerSpec.double.
      cbn [neg SFopp].
      change (S754_finite (negb false) ?m ?e) with (neg (S754_finite false m e)).
      fold (IntegerSpec.double false k). rewrite <- ofZ_pos by lia.
      rewrite toInteger_neg_int by lia.
      destruct (Z.ltb_spec (- k) 0); lia. }
  rewrite Hrel.
  replace (Z.to_nat (Z.of_nat (List.length l) - k))
    with (List.length l - Z.to_nat k)%nat by lia.
  apply firstn_all2. rewrite length_skipn. lia.
Qed.

Lemma recent_points (metrics : list Metric) :
  Z.of_nat (List.length metrics) < 2 ^ 53 ->
  slice metrics (neg (Math_min n10 (length metrics))) None
  = lastPoints (Nat.min 10 (List.length metrics)) metrics.
Proof.
  intros Hlen. unfold length, ofNat. change n10 with (ofZ 10).
  rewrite Math_min_int by lia.
  rewrite slice_last; [f_equal; lia | lia | lia | ].
  intros H0. destruct metrics; [reflexivity | cbn [List.length] in H0; lia].
Qed.

Lemma calculateSummary_changes (m : Metric) (ms : list Metric) (s : Summary) :
  calculateSummary (m :: ms) = Some s ->
  revenueChange s = changeBy revenue (m :: ms)
  /\ usersChange s = changeBy activeUsers (m :: ms)
  /\ engagementChange s = changeBy engagementRate (m :: ms).
Proof.
  unfold calculateSummary. cbn [List.length Nat.eqb].
  rewrite StatsFacts.nth_error_last. intros Hs. injection Hs as <-.
  repeat split.
Qed.

Lemma firstSegment_short (metrics : list Metric) :
  (List.length metrics < 5)%nat -> firstSegment metrics = [].
Proof.
  intros Hlen.
  destruct metrics as [ | a [ | b [ | c [ | d [ | e l]]]]]; simpl in Hlen;
    try lia; reflexivity.
Qed.

(** The cards of a sequence of fewer than five points show no trend.  The
    first segment of [calculateSummary] is empty, so that the three changes
    are [NaN] (0 when there is no point at all), and a change that is
    neither above nor below 0 gives the trend [neutral]; the fourth card is
    constant. *)
Theorem cards_short_neutral (metrics : list Metric) :
  (List.length metrics < 5)%nat ->
  exists cards,
    generateMetricCards metrics = Some cards
    /\ List.length cards = 4%nat
    /\ Forall (fun c => trend c = neutral
                        /\ change c = match metrics with
                                      | [] => n0
                                      | _ :: _ => NaN
                                      end) (computed cards)
    /\ map trend (skipn 3 cards) = [up].
Proof.
  intros Hlen. unfold generateMetricCards.
  destruct (StatsFacts.calculateSummary_total metrics) as [s Hs]. rewrite Hs.
  eexists. split; [reflexivity | ]. split; [reflexivity | ].
  split; [ | reflexivity].
  unfold computed. cbn [firstn trend change].
  destruct metrics as [ | m ms].
  - injection Hs as <-. repeat constructor.
  - destruct (calculateSummary_changes m ms s Hs) as (-> & -> & ->).
    rewrite !(StatsFacts.changeBy_empty_first _ _ (firstSegment_short _ Hlen)).
    repeat constructor.
Qed.

(** The sparklines of the three computed cards are the revenues, the
    active users and the engagement rates of the last 10 points, of all the
    points when there are fewer, in their order; their changes are those of
    the summary; there are four cards on every input. *)
Theorem cards_sparklines (metrics : list Metric) :
  Z.of_nat (List.length metrics) < 2 ^ 53 ->
  let recent := lastPoints (Nat.min 10 (List.length metrics)) metrics in
  exists s c1 c2 c3 c4,
    calculateSummary metrics = Some s
    /\ generateMetricCards metrics = Some [c1; c2; c3; c4]
    /\ (sparkline c1, sparkline c2, sparkline c3)
       = (map revenue recent, map activeUsers recent, map engagementRate recent)
    /\ (change c1, change c2, change c3)
       = (revenueChange s, usersChange s, engagementChange s)
    /\ (value c1, value c2) = (NumberValue (totalRevenue s),
                               NumberValue (totalUsers s))
    /\ List.length (sparkline c4) = 10%nat.
Proof.
  intros Hlen. cbv zeta. unfold generateMetricCards.
  destruct (StatsFacts.calculateSummary_total metrics) as [s Hs]. rewrite Hs.
  cbv zeta. rewrite (recent_points metrics Hlen).
  exists s. do 4 eexists. split; [reflexivity | ]. split; [reflexivity | ].
  cbn [sparkline change value]. repeat split.
Qed.

End WithPrinter.

Lemma cards_short_neutral_witness :
  exists cards,
    generateMetricCards (H := FormatSpec.plain) fourPoints = Some cards
    /\ Forall (fun c => trend c = neutral /\ change c = NaN) (computed cards).
Proof.
  destruct (cards_short_neutral (H := FormatSpec.plain) fourPoints)
    as (cards & Hc & _ & Hall & _).
  - simpl. lia.
  - exists cards. split; [exact Hc | exact Hall].
Defined.

Lemma cards_sparklines_witness :
  exists cards,
    generateMetricCards (H := FormatSpec.plain) UseMetricsSpec.fiftyPoints
    = Some cards
    /\ map (fun c => List.length (sparkline c)) cards = [10; 10; 10; 10]%nat.
Proof.
  destruct (cards_sparklines (H := FormatSpec.plain) UseMetricsSpec.fiftyPoints)
    as (s & c1 & c2 & c3 & c4 & _ & Hc & Hs & _ & _ & H4).
  - vm_compute. reflexivity.
  - exists [c1; c2; c3; c4]. split; [exact Hc | ].
    injection Hs as H1 H2 H3. cbn [map]. rewrite H1, H2, H3, H4.
    reflexivity.
Defined.

End CardsFacts.
